(** * Utilities/parallel_tif_to_jpg_or_png.py: a shallow embedding

    The script walks a directory tree, finds TIFF files in folders named
    after a target type and converts them to JPEG or PNG.  This file embeds
    its three functions ([convert_single_tif], [convert_tif],
    [process_specific_folders]) and its command line over an explicit model
    of the POSIX file system and of the Python built-ins they call, and
    proves the properties of the specification about them; it then embeds
    volume_range_sampling_helper.py and proves further properties of both
    scripts.

    Conventions of the model
    - A Python [str] is a [string]; characters are bytes.  Only ASCII letters
      change under [lower]/[upper] and only ASCII digits and ASCII white
      space are recognised by [int]; file names outside ASCII are not
      interpreted beyond that.
    - The interpreter's limit on the number of digits [int] accepts is not
      modelled.
    - The file system is a tree of directories and regular files: no
      symbolic links, no permissions, no quota.
    - [tifffile] and [PIL] are parameters of the development (class [Libs]).
    - [tifffile.imread] expands a path that contains [*] or [?] as a glob
      pattern and reads the files it matches.  The model reads the file at
      the path, which is what the library does for every other path; the
      theorems about what is decoded are stated for paths without these two
      characters.
    - The worker pool runs its jobs one after the other in submission
      order. *)

From Stdlib Require Import String Ascii List ZArith QArith Bool Lia.
From Stdlib Require Import Permutation Sorted.
From Stdlib Require DecimalString.
Import ListNotations.
Local Open Scope string_scope.
Local Open Scope Z_scope.

(** ** Python built-ins on [str] *)

Module Py.

(** [c.lower()] on one ASCII character. *)
Definition lower_ascii (c : ascii) : ascii :=
  let n := nat_of_ascii c in
  if ((65 <=? n) && (n <=? 90))%nat then ascii_of_nat (n + 32) else c.

Definition upper_ascii (c : ascii) : ascii :=
  let n := nat_of_ascii c in
  if ((97 <=? n) && (n <=? 122))%nat then ascii_of_nat (n - 32) else c.

(** [s.lower()] and [s.upper()]. *)
Fixpoint lower (s : string) : string :=
  match s with
  | EmptyString => EmptyString
  | String c s' => String (lower_ascii c) (lower s')
  end.

Fixpoint upper (s : string) : string :=
  match s with
  | EmptyString => EmptyString
  | String c s' => String (upper_ascii c) (upper s')
  end.

(** [s.startswith(p)]. *)
Definition startswith (s p : string) : bool := String.prefix p s.

(** [s.endswith(suf)]: some suffix of [s] is [suf]. *)
Fixpoint endswith (s suf : string) : bool :=
  if String.eqb s suf then true
  else match s with
       | EmptyString => false
       | String _ s' => endswith s' suf
       end.

(** [s.endswith((suf1, suf2, ...))]. *)
Definition endswith_any (s : string) (sufs : list string) : bool :=
  existsb (endswith s) sufs.

(** [x in l] for a list of strings. *)
Definition contains (l : list string) (x : string) : bool :=
  existsb (String.eqb x) l.

(** White space accepted by [int] around the digits: space, \t, \n, \v, \f,
    \r. *)
Definition is_space (c : ascii) : bool :=
  let n := nat_of_ascii c in
  ((n =? 32) || ((9 <=? n) && (n <=? 13)))%nat.

Definition digit_val (c : ascii) : option Z :=
  let n := nat_of_ascii c in
  if ((48 <=? n) && (n <=? 57))%nat then Some (Z.of_nat (n - 48)) else None.

Fixpoint lstrip (s : list ascii) : list ascii :=
  match s with
  | c :: s' => if is_space c then lstrip s' else s
  | [] => []
  end.

Definition rstrip (s : list ascii) : list ascii := rev (lstrip (rev s)).

(** The digits of an integer literal: decimal digits, with single
    underscores allowed between two digits.  [prev] tells whether the
    previous character was a digit. *)
Fixpoint digits (acc : Z) (prev : bool) (s : list ascii) : option Z :=
  match s with
  | [] => if prev then Some acc else None
  | c :: s' =>
      match digit_val c with
      | Some d => digits (10 * acc + d) true s'
      | None =>
          if (Ascii.eqb c "_" && prev)%bool then digits acc false s' else None
      end
  end.

(** [int(s)] in base 10; [None] stands for [ValueError]. *)
Definition int (s : string) : option Z :=
  match lstrip (list_ascii_of_string s) with
  | c :: body =>
      if Ascii.eqb c "-" then option_map Z.opp (digits 0 false (rstrip body))
      else if Ascii.eqb c "+" then digits 0 false (rstrip body)
      else digits 0 false (rstrip (c :: body))
  | [] => None
  end.

(** [sorted(l)] on strings: insertion into a list kept in order.  The order
    on [str] is lexicographic on the characters, which is a total order, so
    every sorting algorithm computes the same list. *)
Fixpoint insert (x : string) (l : list string) : list string :=
  match l with
  | [] => [x]
  | y :: l' => if String.leb x y then x :: l else y :: insert x l'
  end.

Fixpoint sorted (l : list string) : list string :=
  match l with
  | [] => []
  | x :: l' => insert x (sorted l')
  end.

End Py.

(** ** posixpath *)

Module OsPath.

(** [s.split(sep)] with a one-character separator: never empty. *)
Fixpoint split_on (sep : ascii) (s : string) : list string :=
  match s with
  | EmptyString => [EmptyString]
  | String c s' =>
      let r := split_on sep s' in
      if Ascii.eqb c sep then EmptyString :: r
      else match r with
           | h :: t => String c h :: t
           | [] => [String c EmptyString]
           end
  end.

(** [s.rfind(c)]: the index of the last occurrence, [-1] when there is
    none. *)
Fixpoint rfind_from (i : Z) (c : ascii) (s : string) : Z :=
  match s with
  | EmptyString => -1
  | String d s' =>
      let r := rfind_from (i + 1) c s' in
      if 0 <=? r then r else if Ascii.eqb d c then i else -1
  end.

Definition rfind (c : ascii) (s : string) : Z := rfind_from 0 c s.

(** [p[i:j]] for [0 <= i <= j]. *)
Definition slice (p : string) (i j : Z) : string :=
  String.substring (Z.to_nat i) (Z.to_nat (j - i)) p.

(** [os.path.basename(p)]: [p[p.rfind('/') + 1:]]. *)
Definition basename (p : string) : string :=
  slice p (rfind "/" p + 1) (Z.of_nat (String.length p)).

(** [os.path.join(a, b)]. *)
Definition join (a b : string) : string :=
  if Py.startswith b "/" then b
  else if (String.eqb a "" || Py.endswith a "/")%bool then a ++ b
  else a ++ "/" ++ b.

(** [os.path.splitext(p)]: split at the last dot of the last component,
    unless that component consists of leading dots up to there. *)
Definition splitext (p : string) : string * string :=
  let sepIndex := rfind "/" p in
  let dotIndex := rfind "." p in
  if sepIndex <? dotIndex then
    if forallb (Ascii.eqb ".")
         (list_ascii_of_string (slice p (sepIndex + 1) dotIndex))
    then (p, "")
    else (slice p 0 dotIndex, slice p dotIndex (Z.of_nat (String.length p)))
  else (p, "").

End OsPath.

(** ** The file system *)

Module Fs.

#[local] Set Warnings "-register-all".

(** A regular file holds bytes; a directory holds its entries in the order
    the system lists them. *)
Inductive node : Type :=
| File (data : string)
| Dir (entries : list (string * node)).

(** A resolved location: the names from the root of the tree down. *)
Definition location := list string.

Fixpoint find_entry (es : list (string * node)) (name : string) : option node :=
  match es with
  | [] => None
  | (n, x) :: es' => if String.eqb n name then Some x else find_entry es' name
  end.

(** Replace the entry called [name], or add it after the existing ones. *)
Fixpoint put_entry (es : list (string * node)) (name : string) (x : node)
  : list (string * node) :=
  match es with
  | [] => [(name, x)]
  | (n, y) :: es' =>
      if String.eqb n name then (n, x) :: es' else (n, y) :: put_entry es' name x
  end.

Fixpoint lookup (t : node) (l : location) : option node :=
  match l with
  | [] => Some t
  | c :: l' =>
      match t with
      | Dir es =>
          match find_entry es c with
          | Some x => lookup x l'
          | None => None
          end
      | File _ => None
      end
  end.

(** Put [x] at [l]; the parent of [l] has to be a directory, otherwise the
    tree is unchanged. *)
Fixpoint set_at (t : node) (l : location) (x : node) : node :=
  match l with
  | [] => x
  | c :: l' =>
      match t with
      | Dir es =>
          match find_entry es c with
          | Some y => Dir (put_entry es c (set_at y l' x))
          | None =>
              match l' with
              | [] => Dir (put_entry es c x)
              | _ :: _ => t
              end
          end
      | File _ => t
      end
  end.

Definition is_dir (t : node) (l : location) : bool :=
  match lookup t l with
  | Some (Dir _) => true
  | _ => false
  end.

Definition present (t : node) (l : location) : bool :=
  match lookup t l with
  | Some _ => true
  | None => false
  end.

Definition is_dot (c : string) : bool := String.eqb c "" || String.eqb c ".".

(** Path resolution, one component at a time from the directory [cur]: every
    component is looked up in a directory; [..] goes to the parent, which for
    the root is the root.  The last component need not exist. *)
Fixpoint canon (t : node) (cur : location) (comps : list string)
  : option location :=
  match comps with
  | [] => Some cur
  | c :: rest =>
      if negb (is_dir t cur) then None
      else if is_dot c then canon t cur rest
      else if String.eqb c ".." then canon t (removelast cur) rest
      else canon t (cur ++ [c])%list rest
  end.

Definition start (cwd : location) (p : string) : location :=
  if Py.startswith p "/" then [] else cwd.

(** The location a path string names, from the working directory [cwd]; the
    empty path names nothing. *)
Definition resolve (t : node) (cwd : location) (p : string) : option location :=
  if String.eqb p "" then None
  else canon t (start cwd p) (OsPath.split_on "/" p).

(** [os.path.exists(p)]. *)
Definition path_exists (t : node) (cwd : location) (p : string) : bool :=
  match resolve t cwd p with
  | Some l => present t l
  | None => false
  end.

(** [os.path.isdir(p)]. *)
Definition path_isdir (t : node) (cwd : location) (p : string) : bool :=
  match resolve t cwd p with
  | Some l => is_dir t l
  | None => false
  end.

(** [os.listdir(p)]; [None] stands for [OSError]. *)
Definition listdir (t : node) (cwd : location) (p : string)
  : option (list string) :=
  match resolve t cwd p with
  | Some l =>
      match lookup t l with
      | Some (Dir es) => Some (map fst es)
      | _ => None
      end
  | None => None
  end.

Definition entry_is_dir (e : string * node) : bool :=
  match snd e with
  | Dir _ => true
  | File _ => false
  end.

(** [os.scandir(p)] as [os.walk] uses it: the names of the sub-directories
    and the names of the other entries. *)
Definition scandir (t : node) (cwd : location) (p : string)
  : option (list string * list string) :=
  match resolve t cwd p with
  | Some l =>
      match lookup t l with
      | Some (Dir es) =>
          Some (map fst (filter entry_is_dir es),
                map fst (filter (fun e => negb (entry_is_dir e)) es))
      | _ => None
      end
  | None => None
  end.

(** The bytes of the regular file at [p]; [None] stands for [OSError]. *)
Definition read_file (t : node) (cwd : location) (p : string) : option string :=
  match resolve t cwd p with
  | Some l =>
      match lookup t l with
      | Some (File data) => Some data
      | _ => None
      end
  | None => None
  end.

(** [open(p, "w+b")]: the location to write at when [p] can be opened, that
    is when its directory exists and [p] is not itself a directory. *)
Definition open_write (t : node) (cwd : location) (p : string) : option location :=
  match resolve t cwd p with
  | Some l =>
      match lookup t l with
      | Some (Dir _) => None
      | _ => Some l
      end
  | None => None
  end.

(** [os.makedirs] below [cur]: missing directories are created on the way;
    [fresh] tells whether the last named component was created by this call.
    The boolean of the result is [false] for [OSError]; directories created
    before the error stay. *)
Fixpoint mkdirs (t : node) (cur : location) (fresh : bool) (comps : list string)
  : node * bool :=
  match comps with
  | [] => (t, fresh)
  | c :: rest =>
      if negb (is_dir t cur) then (t, false)
      else if is_dot c then mkdirs t cur fresh rest
      else if String.eqb c ".." then mkdirs t (removelast cur) false rest
      else if present t (cur ++ [c])%list then mkdirs t (cur ++ [c])%list false rest
      else mkdirs (set_at t (cur ++ [c])%list (Dir [])) (cur ++ [c])%list true rest
  end.

(** [os.makedirs(p)] with [exist_ok=False]. *)
Definition makedirs (t : node) (cwd : location) (p : string) : node * bool :=
  if String.eqb p "" then (t, false)
  else mkdirs t (start cwd p) false (OsPath.split_on "/" p).

End Fs.

(** ** numpy arrays of integers *)

Module Numpy.

(** The integer dtypes up to 32 bits.  For these the float64 quotient by 256
    that numpy computes is exact, so it is modelled as a rational. *)
Inductive dtype : Type := uint8 | int8 | uint16 | int16 | uint32 | int32.

Definition dtype_eqb (a b : dtype) : bool :=
  match a, b with
  | uint8, uint8 | int8, int8 | uint16, uint16
  | int16, int16 | uint32, uint32 | int32, int32 => true
  | _, _ => false
  end.

Definition dtype_min (d : dtype) : Z :=
  match d with
  | uint8 | uint16 | uint32 => 0
  | int8 => -128
  | int16 => -32768
  | int32 => -2147483648
  end.

Definition dtype_max (d : dtype) : Z :=
  match d with
  | uint8 => 255
  | int8 => 127
  | uint16 => 65535
  | int16 => 32767
  | uint32 => 4294967295
  | int32 => 2147483647
  end.

Definition in_range (d : dtype) (v : Z) : Prop := dtype_min d <= v <= dtype_max d.

(** An array: its dtype, its shape and its elements in row-major order. *)
Record ndarray : Type := mk_ndarray {
  dtype_of : dtype;
  shape : list nat;
  data : list Z
}.

Definition well_typed (a : ndarray) : Prop :=
  Forall (in_range (dtype_of a)) (data a).

(** [a / k]: true division, element by element. *)
Definition true_divide (a : ndarray) (k : positive) : list Q :=
  map (fun v => Qmake v k) (data a).

(** The C conversion of a float to an unsigned byte: the fractional part is
    discarded; a value that is out of range after that is converted by
    [overflow], whose result depends on the platform. *)
Definition to_uint8 (overflow : Z -> Z) (q : Q) : Z :=
  let z := Z.quot (Qnum q) (Zpos (Qden q)) in
  if (0 <=? z) && (z <=? 255) then z else overflow z.

(** [(a / 256).astype('uint8')]. *)
Definition rescale (overflow : Z -> Z) (a : ndarray) : ndarray :=
  mk_ndarray uint8 (shape a) (map (to_uint8 overflow) (true_divide a 256)).

End Numpy.

(** ** States, exceptions and the output of the script *)

Inductive exn : Type :=
| ValueError
| ZeroDivisionError
| OSError
| LibraryError.

Inductive result (A : Type) : Type :=
| Ok (a : A)
| Raise (e : exn).
Arguments Ok {A} a.
Arguments Raise {A} e.

(** The lines the script prints.  Wall-clock durations are not modelled. *)
Inductive message : Type :=
| Error_processing (file_path : string) (e : exn)
| Modulo_skipped
| Processing_folder (folder format : string) (quality : Z)
| Time_to_complete_folder
| Converting (root format : string) (quality : Z)
| Target_data_types (target_types : list string)
| Total_time.

(** What a run does, in order.  [Print], [Imread] and [Save] are calls the
    script makes; [Submit], [Enter_convert_tif] and [Visit] record a job
    handed to the pool, a call of [convert_tif] and a directory produced by
    [os.walk]. *)
Inductive event : Type :=
| Print (m : message)
| Imread (file_path : string)
| Save (dest_file_path : string)
| Submit (file_path : string)
| Enter_convert_tif (source_folder : string)
| Visit (root : string).

Record state : Type := mk_state {
  fs : Fs.node;
  log : list event
}.

Definition M (A : Type) : Type := state -> state * result A.

Definition ret {A} (a : A) : M A := fun st => (st, Ok a).

Definition raise {A} (e : exn) : M A := fun st => (st, Raise e).

Definition bind {A B} (c : M A) (k : A -> M B) : M B :=
  fun st =>
    match c st with
    | (st', Ok a) => k a st'
    | (st', Raise e) => (st', Raise e)
    end.

Declare Scope py_scope.
Delimit Scope py_scope with py.
Notation "x <- c ;; k" := (bind c (fun x => k))
  (at level 61, c at next level, right associativity) : py_scope.
Notation "c ;; k" := (bind c (fun _ => k))
  (at level 61, right associativity) : py_scope.
Local Open Scope py_scope.

(** [try: c  except Exception as e: h e]. *)
Definition try_except {A} (c : M A) (h : exn -> M A) : M A :=
  fun st =>
    match c st with
    | (st', Ok a) => (st', Ok a)
    | (st', Raise e) => h e st'
    end.

(** [try: c  except ValueError: h]; other exceptions go through. *)
Definition try_except_ValueError {A} (c : M A) (h : M A) : M A :=
  fun st =>
    match c st with
    | (st', Raise ValueError) => h st'
    | r => r
    end.

Definition emit (e : event) : M unit :=
  fun st => (mk_state (fs st) (log st ++ [e]), Ok tt).

Definition print (m : message) : M unit := emit (Print m).

Definition lift {A} (r : result A) : M A := fun st => (st, r).

(** [for x in l: body x]. *)
Fixpoint for_each {A} (l : list A) (body : A -> M unit) : M unit :=
  match l with
  | [] => ret tt
  | x :: l' => body x ;; for_each l' body
  end.

(** ** tifffile and PIL *)

Inductive codec : Type :=
| JPEG (quality : Z)
| PNG.

(** What the script takes from its environment: the working directory of the
    process, the TIFF decoder, the arrays [Image.fromarray] accepts, the
    encoders behind [Image.save] ([None] when they raise), and the
    conversion of out-of-range values by [astype]. *)
Class Libs : Type := {
  cwd : Fs.location;
  decode_tiff : string -> option Numpy.ndarray;
  fromarray_ok : Numpy.ndarray -> bool;
  encode : codec -> Numpy.ndarray -> option string;
  astype_overflow : Z -> Z
}.

Section Converter.

Context {L : Libs}.

Definition os_path_exists (p : string) : M bool :=
  fun st => (st, Ok (Fs.path_exists (fs st) cwd p)).

Definition os_makedirs (p : string) : M unit :=
  fun st =>
    let (t, ok) := Fs.makedirs (fs st) cwd p in
    (mk_state t (log st), if ok then Ok tt else Raise OSError).

Definition os_listdir (p : string) : M (list string) :=
  fun st =>
    match Fs.listdir (fs st) cwd p with
    | Some names => (st, Ok names)
    | None => (st, Raise OSError)
    end.

(** [tifffile.imread(file_path)], for a path that is no glob pattern (one
    without [*] and [?]): the file at the path is read and decoded. *)
Definition tifffile_imread (file_path : string) : M Numpy.ndarray :=
  emit (Imread file_path) ;;
  fun st =>
    match Fs.read_file (fs st) cwd file_path with
    | None => (st, Raise OSError)
    | Some bytes =>
        match decode_tiff bytes with
        | Some a => (st, Ok a)
        | None => (st, Raise LibraryError)
        end
    end.

(** [Image.fromarray(a)]. *)
Definition Image_fromarray (a : Numpy.ndarray) : M Numpy.ndarray :=
  if fromarray_ok a then ret a else raise LibraryError.

(** [img.save(dest, ...)]: the file is opened for writing, which empties it,
    then encoded into.  When the encoder raises, a file that [save] created
    is removed again and a file that was there before stays empty. *)
Definition Image_save (img : Numpy.ndarray) (dest : string) (c : codec) : M unit :=
  emit (Save dest) ;;
  fun st =>
    match Fs.open_write (fs st) cwd dest with
    | None => (st, Raise OSError)
    | Some l =>
        match encode c img with
        | Some bytes =>
            (mk_state (Fs.set_at (fs st) l (Fs.File bytes)) (log st), Ok tt)
        | None =>
            if Fs.present (fs st) l
            then (mk_state (Fs.set_at (fs st) l (Fs.File "")) (log st),
                  Raise LibraryError)
            else (st, Raise LibraryError)
        end
    end.

(** Lines 55-57: the array handed to PIL. *)
Definition to_8bit (img_array : Numpy.ndarray) : Numpy.ndarray :=
  if Numpy.dtype_eqb (Numpy.dtype_of img_array) Numpy.uint8 then img_array
  else Numpy.rescale astype_overflow img_array.

Definition dest_file_path_of (file_path dest_folder output_format : string) : string :=
  let filename := OsPath.basename file_path in
  OsPath.join dest_folder (fst (OsPath.splitext filename) ++ "." ++ output_format).

Definition convert_single_tif
    (file_path dest_folder output_format : string) (quality : Z) (overwrite : bool)
  : M unit :=
  try_except
    (let dest_file_path := dest_file_path_of file_path dest_folder output_format in
     present <- os_path_exists dest_file_path ;;
     if negb overwrite && present then ret tt
     else
       img_array <- tifffile_imread file_path ;;
       let img_array := to_8bit img_array in
       img <- Image_fromarray img_array ;;
       if String.eqb output_format "jpg" then
         Image_save img dest_file_path (JPEG quality)
       else if String.eqb output_format "png" then
         Image_save img dest_file_path PNG
       else ret tt)
    (fun e => print (Error_processing file_path e)).

(** Line 81: the test on a directory entry. *)
Definition is_tif_name (f : string) : bool :=
  Py.endswith_any (Py.lower f) [".tif"; ".tiff"] && negb (Py.startswith f "._").

(** Lines 80-81. *)
Definition tif_files_of (source_folder : string) (names : list string) : list string :=
  Py.sorted (map (OsPath.join source_folder) (filter is_tif_name names)).

Definition stem (f : string) : string := fst (OsPath.splitext (OsPath.basename f)).

(** Line 87: the list comprehension, element by element; [int] of the stem
    is evaluated before the remainder is taken. *)
Fixpoint keep_multiples (mod_value : Z) (tif_files : list string) : result (list string) :=
  match tif_files with
  | [] => Ok []
  | f :: rest =>
      match Py.int (stem f) with
      | None => Raise ValueError
      | Some n =>
          if mod_value =? 0 then Raise ZeroDivisionError
          else
            match keep_multiples mod_value rest with
            | Ok kept => Ok (if n mod mod_value =? 0 then f :: kept else kept)
            | Raise e => Raise e
            end
      end
  end.

Definition int_of (s : string) : M Z :=
  match Py.int s with
  | Some n => ret n
  | None => raise ValueError
  end.

(** Lines 84-89. *)
Definition modulo_filter (mod_value : option string) (tif_files : list string)
  : M (list string) :=
  match mod_value with
  | None => ret tif_files
  | Some v =>
      try_except_ValueError
        (m <- int_of v ;; lift (keep_multiples m tif_files))
        (print Modulo_skipped ;; ret tif_files)
  end.

Definition dest_folder_of
    (source_folder output_format : string) (output_path : option string) : string :=
  let dest_folder_suffix := if String.eqb output_format "jpg" then "_jpg" else "_png" in
  match output_path with
  | Some o => o ++ dest_folder_suffix
  | None => source_folder ++ dest_folder_suffix
  end.

(** Lines 93-96: every job is submitted, then every result is awaited. *)
Definition run_pool
    (tif_files : list string) (dest_folder output_format : string)
    (quality : Z) (overwrite : bool) : M unit :=
  for_each tif_files (fun file_path => emit (Submit file_path)) ;;
  for_each tif_files (fun file_path =>
    convert_single_tif file_path dest_folder output_format quality overwrite).

(** Lines 76-77. *)
Definition ensure_dest_folder (dest_folder : string) : M unit :=
  present <- os_path_exists dest_folder ;;
  if negb present then os_makedirs dest_folder else ret tt.

(** Lines 69-81: the destination folder is made, then the source folder is
    listed. *)
Definition candidates
    (source_folder output_format : string) (output_path : option string)
  : M (list string) :=
  emit (Enter_convert_tif source_folder) ;;
  ensure_dest_folder (dest_folder_of source_folder output_format output_path) ;;
  names <- os_listdir source_folder ;;
  ret (tif_files_of source_folder names).

Definition convert_tif
    (source_folder output_format : string) (quality : Z) (overwrite : bool)
    (mod_value output_path : option string) : M unit :=
  let dest_folder := dest_folder_of source_folder output_format output_path in
  tif_files <- candidates source_folder output_format output_path ;;
  tif_files <- modulo_filter mod_value tif_files ;;
  let tif_files := Py.sorted tif_files in
  run_pool tif_files dest_folder output_format quality overwrite.

(** Lines 110-114: the direct sub-directories of a matching folder. *)
Definition convert_subfolders
    (output_format : string) (quality : Z) (overwrite : bool)
    (mod_value output_path : option string)
    (root : string) (dirs : list string) : M unit :=
  for_each dirs (fun sub_dir =>
    if negb (Py.endswith_any sub_dir ["_jpg"; "_png"]) then
      let specific_folder_path := OsPath.join root sub_dir in
      print (Processing_folder specific_folder_path (Py.upper output_format) quality) ;;
      convert_tif specific_folder_path output_format quality overwrite
        mod_value output_path
    else ret tt).

(** Lines 100-119: the body of the loop over [os.walk]; the result is what
    is left in [dirs], the sub-directories the walk goes into next. *)
Definition visit
    (target_types : list string) (output_format : string) (quality : Z)
    (overwrite : bool) (mod_value output_path : option string)
    (root : string) (dirs : list string) : M (list string) :=
  emit (Visit root) ;;
  if Py.endswith root ".zarr" then ret []
  else if Py.contains target_types (OsPath.basename root) then
    (if negb (String.eqb (OsPath.basename root) "layers") then
       convert_subfolders output_format quality overwrite mod_value output_path
         root dirs
     else
       convert_tif root output_format quality overwrite mod_value output_path) ;;
    print Time_to_complete_folder ;;
    ret dirs
  else ret dirs.

(** [os.walk], top down, with the loop body run at each directory.  [stack]
    holds the directories still to be listed, the next one first.  A
    directory that cannot be listed is skipped: the script gives no [onerror].
    The result is [None] when [fuel] directories were not enough. *)
Fixpoint walk (fuel : nat) (stack : list string)
    (body : string -> list string -> M (list string))
  : state -> state * option (result unit) :=
  fun st =>
    match stack with
    | [] => (st, Some (Ok tt))
    | top :: stack' =>
        match fuel with
        | O => (st, None)
        | S fuel' =>
            match Fs.scandir (fs st) cwd top with
            | None => walk fuel' stack' body st
            | Some (dirs, _) =>
                match body top dirs st with
                | (st', Ok dirs') =>
                    walk fuel' (map (OsPath.join top) dirs' ++ stack')%list body st'
                | (st', Raise e) => (st', Some (Raise e))
                end
            end
        end
    end.

Definition process_specific_folders (fuel : nat)
    (root_directory : string) (target_types : list string)
    (output_format : string) (quality : Z) (overwrite : bool)
    (mod_value output_path : option string)
  : state -> state * option (result unit) :=
  walk fuel [root_directory]
    (visit target_types output_format quality overwrite mod_value output_path).

End Converter.

(** Lines 121-153: the command line.  The result [Some (Raise e)] is an
    uncaught exception, that is a nonzero exit status; [Some (Ok tt)] is a
    normal exit. *)
Definition main {L : Libs} (fuel : nat) (argv : list string)
  : state -> state * option (result unit) :=
  fun st =>
    let root_directory_path := nth 1 argv "./" in
    let target_types :=
      match nth_error argv 2 with
      | Some t =>
          if String.eqb t "all" then ["volumes"; "masked_volumes"; "layers"] else [t]
      | None => ["layers"]
      end in
    let output_format := nth 3 argv "jpg" in
    let overwrite :=
      match nth_error argv 4 with
      | Some o => String.eqb (Py.lower o) "true"
      | None => false
      end in
    let mod_value := nth_error argv 6 in
    match (match nth_error argv 5 with Some q => Py.int q | None => Some 95 end) with
    | None => (st, Some (Raise ValueError))
    | Some quality =>
        let st1 :=
          fst ((print (Converting root_directory_path (Py.upper output_format) quality) ;;
                print (Target_data_types target_types)) st) in
        match process_specific_folders fuel root_directory_path target_types
                output_format quality overwrite mod_value None st1 with
        | (st2, Some (Ok _)) => (fst (print Total_time st2), Some (Ok tt))
        | r => r
        end
    end.

(** ** Sample data *)

Module Sample.

(** A toy decoder and encoder: a TIFF is the bytes [II*] followed by one
    byte per pixel, the high byte of a 16-bit sample; the encoders write a
    format tag followed by one byte per pixel. *)
Definition toy_decode (bytes : string) : option Numpy.ndarray :=
  if String.prefix "II*" bytes then
    let px := list_ascii_of_string (String.substring 3 (String.length bytes - 3) bytes) in
    Some (Numpy.mk_ndarray Numpy.uint16 [1%nat; List.length px]
            (map (fun c => 256 * Z.of_nat (nat_of_ascii c)) px))
  else None.

Definition toy_encode (c : codec) (a : Numpy.ndarray) : option string :=
  let px := string_of_list_ascii (map (fun v => ascii_of_nat (Z.to_nat v)) (Numpy.data a)) in
  match c with
  | JPEG _ => Some ("JFIF" ++ px)
  | PNG => Some ("PNG" ++ px)
  end.

Definition toy : Libs := {|
  cwd := [];
  decode_tiff := toy_decode;
  fromarray_ok := fun _ => true;
  encode := toy_encode;
  astype_overflow := fun z => z mod 256
|}.

Definition tif (px : string) : Fs.node := Fs.File ("II*" ++ px).

Definition initial (t : Fs.node) : state := mk_state t [].

(** [volumes/volA] with three TIFF files and [volumes/volB] with two. *)
Definition volumes_tree : Fs.node :=
  Fs.Dir [("volumes",
     Fs.Dir [("volA", Fs.Dir [("0.tif", tif "a"); ("1.tif", tif "b"); ("2.tif", tif "c")]);
             ("volB", Fs.Dir [("0.tif", tif "d"); ("1.tif", tif "e")])])].

(** [foo.zarr/bar/layers] with one TIFF file. *)
Definition zarr_tree : Fs.node :=
  Fs.Dir [("foo.zarr", Fs.Dir [("bar", Fs.Dir [("layers", Fs.Dir [("0.tif", tif "a")])])])].

(** A folder [d] with the files [0.tif] ... [9.tif]. *)
Definition ten_files : Fs.node :=
  Fs.Dir [("d", Fs.Dir (map (fun n => (n ++ ".tif", tif "a"))
                         ["0"; "1"; "2"; "3"; "4"; "5"; "6"; "7"; "8"; "9"]))].

(** A folder [d] with a file whose stem is not a number. *)
Definition named_files : Fs.node :=
  Fs.Dir [("d", Fs.Dir [("a.tif", tif "a"); ("1.tif", tif "b"); ("2.tif", tif "c")])].

(** A folder [d] whose first candidate in sorted order has a stem that is
    not a number. *)
Definition copied_files : Fs.node :=
  Fs.Dir [("d", Fs.Dir [("1.tif", tif "a"); ("1 (1).tif", tif "a")])].

(** A folder [d] with TIFF files under several spellings, a resource fork
    and a file that is no TIFF. *)
Definition mixed_files : Fs.node :=
  Fs.Dir [("d", Fs.Dir [("c.tif", tif "a"); ("._c.tif", Fs.File "fork");
                        ("b.TIF", tif "b"); ("notes.txt", Fs.File "text");
                        ("a.tiff", tif "c")])].

(** A folder [d] with one TIFF file of two pixels, 256 and 511, and the
    output of an earlier run beside it. *)
Definition converted_once : Fs.node :=
  Fs.Dir [("d", Fs.Dir [("0.tif", tif (String (ascii_of_nat 1) "")) ]);
          ("d_png", Fs.Dir [("0.png", Fs.File "old")])].

(** A folder [d] with one TIFF file and its output folder [d_jpg], still
    empty. *)
Definition empty_output : Fs.node :=
  Fs.Dir [("d", Fs.Dir [("0.tif", tif "a")]); ("d_jpg", Fs.Dir [])].

(** A folder [d] with two 16-bit TIFF files, [zero.tif] of two pixels of
    value 0 and [one.tif] of one pixel of value 256, and an empty folder
    [out]. *)
Definition sixteen_bit : Fs.node :=
  Fs.Dir [("d", Fs.Dir [("zero.tif", tif (String Ascii.zero (String Ascii.zero "")));
                        ("one.tif", tif (String (ascii_of_nat 1) ""))]);
          ("out", Fs.Dir [])].

(** [volumes/volumes/x] with one TIFF file: a directory named after a target
    type directly inside another one. *)
Definition nested_volumes : Fs.node :=
  Fs.Dir [("volumes",
     Fs.Dir [("volumes", Fs.Dir [("x", Fs.Dir [("0.tif", tif "a")])])])].

End Sample.

(** * Vocabulary of the properties *)

(** ** Strings *)

(** The last character of a string, if any. *)
Fixpoint last_char (s : string) : option ascii :=
  match s with
  | EmptyString => None
  | String c EmptyString => Some c
  | String _ s' => last_char s'
  end.

Fixpoint mem_char (c : ascii) (s : string) : bool :=
  match s with
  | EmptyString => false
  | String d s' => Ascii.eqb d c || mem_char c s'
  end.

(** The order of [sorted]. *)
Definition str_le (a b : string) : Prop := String.leb a b = true.

(** ** States and logs *)

(** The state after the warning of line 89. *)
Definition warned (st : state) : state :=
  mk_state (fs st) (log st ++ [Print Modulo_skipped]).

(** The test of line 87 on one file, for a divisor that is not zero. *)
Definition stem_divisible (m : Z) (f : string) : bool :=
  match Py.int (stem f) with
  | Some n => n mod m =? 0
  | None => false
  end.

(** [emits P c]: running [c] only appends events to the log, and every event
    it appends satisfies [P]. *)
Definition emits {A} (P : event -> Prop) (c : M A) : Prop :=
  forall st, exists evs, log (fst (c st)) = (log st ++ evs)%list /\ Forall P evs.

(** The events other than the two that trace calls and visits. *)
Definition quiet (e : event) : Prop :=
  match e with
  | Enter_convert_tif _ | Visit _ => False
  | _ => True
  end.

(** The folders [convert_tif] was called on, and the directories visited. *)
Definition calls (evs : list event) : list string :=
  flat_map (fun e => match e with Enter_convert_tif p => [p] | _ => [] end) evs.

Definition visits (evs : list event) : list string :=
  flat_map (fun e => match e with Visit p => [p] | _ => [] end) evs.

(** ** The Tree Walker *)

(** The immediate sub-directories that are not output folders of an earlier
    run. *)
Definition source_subfolders (root : string) (dirs : list string) : list string :=
  map (OsPath.join root)
    (filter (fun d => negb (Py.endswith_any d ["_jpg"; "_png"])) dirs).

(** The path the walk builds for the directory reached from [root] through
    the entries [comps]. *)
Definition under (root : string) (comps : list string) : string :=
  fold_left OsPath.join comps root.

(** A name without a slash, as the names of directory entries are. *)
Definition slash_free (c : string) : bool := negb (mem_char "/" c).

(** [p] is reached from [root] through the entries [comps], none of which
    contains a slash, and none of the paths of the directories gone through,
    as the walk builds them, ends in [.zarr]. *)
Definition reached_outside_zarr (root p : string) : Prop :=
  exists comps,
    p = under root comps
    /\ Forall (fun c => slash_free c = true) comps
    /\ forall k, (k < List.length comps)%nat ->
                 Py.endswith (under root (firstn k comps)) ".zarr" = false.

Definition traced_outside_zarr (root : string) (e : event) : Prop :=
  match e with
  | Visit p | Enter_convert_tif p => reached_outside_zarr root p
  | _ => True
  end.

(** What one visit of [root], listed with the sub-directories [dirs], adds to
    the log. *)
Definition visit_event (root : string) (dirs : list string) (e : event) : Prop :=
  match e with
  | Visit p => p = root
  | Enter_convert_tif p =>
      Py.endswith root ".zarr" = false
      /\ (p = root \/ exists d, In d dirs /\ p = OsPath.join root d)
  | _ => True
  end.

(** ** Trees *)

(** A node without entries below it. *)
Definition leaf (x : Fs.node) : Prop :=
  match x with
  | Fs.File _ => True
  | Fs.Dir es => es = []
  end.

(** A component that names an entry. *)
Definition regular (c : string) : bool :=
  negb (Fs.is_dot c) && negb (String.eqb c "..").

(** [grows t t']: every file of [t] is in [t'] with the same bytes, the
    directories are the same, and what [t'] has more are regular files whose
    names end in [g] (as [.jpg] and [.png] do). *)
Definition grows (t t' : Fs.node) : Prop :=
  forall q,
    match Fs.lookup t q with
    | Some (Fs.File b) => Fs.lookup t' q = Some (Fs.File b)
    | Some (Fs.Dir es) =>
        exists es',
          Fs.lookup t' q = Some (Fs.Dir es')
          /\ filter is_tif_name (map fst es') = filter is_tif_name (map fst es)
    | None =>
        Fs.lookup t' q = None
        \/ exists b, Fs.lookup t' q = Some (Fs.File b)
                     /\ last_char (last q "") = Some "g"%char
    end.

(** The paths of TIFF entries end in [f] or [F]. *)
Definition tif_path (p : string) : Prop :=
  last_char p = Some "f"%char \/ last_char p = Some "F"%char.

(** ** [convert_tif] on the tree alone *)

Section JobDefinitions.

Context {L : Libs}.

Variables (dest_folder output_format : string) (quality : Z).

Definition codec_of : option codec :=
  if String.eqb output_format "jpg" then Some (JPEG quality)
  else if String.eqb output_format "png" then Some PNG
  else None.

(** The file a job with overwrite off writes, if it writes one: where, and
    the bytes. *)
Definition job_write (t : Fs.node) (file_path : string)
  : option (Fs.location * string) :=
  if Fs.path_exists t cwd (dest_file_path_of file_path dest_folder output_format) then None
  else
    match Fs.read_file t cwd file_path with
    | None => None
    | Some bytes =>
        match decode_tiff bytes with
        | None => None
        | Some a =>
            if fromarray_ok (to_8bit a) then
              match codec_of with
              | None => None
              | Some c =>
                  match Fs.open_write t cwd
                          (dest_file_path_of file_path dest_folder output_format) with
                  | None => None
                  | Some l =>
                      match encode c (to_8bit a) with
                      | Some b => Some (l, b)
                      | None => None
                      end
                  end
              end
            else None
        end
    end.

Definition job (t : Fs.node) (file_path : string) : Fs.node :=
  match job_write t file_path with
  | Some (l, b) => Fs.set_at t l (Fs.File b)
  | None => t
  end.

Definition run_jobs (t : Fs.node) (files : list string) : Fs.node :=
  fold_left job files t.

End JobDefinitions.

Section TwiceDefinitions.

Context {L : Libs}.

Variables (source_folder output_format : string) (quality : Z)
  (mod_value output_path : option string).

(** Lines 76-77 on the tree. *)
Definition ensured (t : Fs.node) : Fs.node * bool :=
  let dest_folder := dest_folder_of source_folder output_format output_path in
  if Fs.path_exists t cwd dest_folder then (t, true)
  else Fs.makedirs t cwd dest_folder.

(** Lines 84-89 without the printing. *)
Definition filtered (tif_files : list string) : result (list string) :=
  match mod_value with
  | None => Ok tif_files
  | Some v =>
      match Py.int v with
      | None => Ok tif_files
      | Some m =>
          match keep_multiples m tif_files with
          | Raise ValueError => Ok tif_files
          | r => r
          end
      end
  end.

(** [convert_tif] with overwrite off, on the tree alone. *)
Definition convert_pure (t : Fs.node) : Fs.node * result unit :=
  let dest_folder := dest_folder_of source_folder output_format output_path in
  let (t1, ok) := ensured t in
  if ok then
    match Fs.listdir t1 cwd source_folder with
    | None => (t1, Raise OSError)
    | Some names =>
        match filtered (tif_files_of source_folder names) with
        | Ok kept =>
            (run_jobs dest_folder output_format quality t1 (Py.sorted kept), Ok tt)
        | Raise e => (t1, Raise e)
        end
    end
  else (t1, Raise OSError).

End TwiceDefinitions.

(** * volume_range_sampling_helper.py *)

(** ** The built-ins it uses *)

Module Builtins.

(** [str(i)] and [f"{i}"] for an integer: its decimal digits, after a minus
    sign when it is negative. *)
Definition str (i : Z) : string :=
  DecimalString.NilEmpty.string_of_int (Z.to_int i).

(** [len(range(start, stop, step))] for a step that is not zero. *)
Definition range_length (start stop step : Z) : Z :=
  if 0 <? step then
    if start <? stop then (stop - start - 1) / step + 1 else 0
  else
    if stop <? start then (start - stop - 1) / (- step) + 1 else 0.

(** [list(range(start, stop, step))]; [None] stands for the [ValueError] of
    a step that is zero. *)
Definition range (start stop step : Z) : option (list Z) :=
  if step =? 0 then None
  else Some (map (fun k => start + Z.of_nat k * step)
               (seq 0 (Z.to_nat (range_length start stop step)))).

(** [s[:-1]]. *)
Fixpoint drop_last (s : string) : string :=
  match s with
  | EmptyString => EmptyString
  | String _ EmptyString => EmptyString
  | String c s' => String c (drop_last s')
  end.

(** [sep.join(l)]. *)
Fixpoint join (sep : string) (l : list string) : string :=
  match l with
  | [] => EmptyString
  | [x] => x
  | x :: l' => x ++ sep ++ join sep l'
  end.

End Builtins.

Module RangeHelper.

(** Lines 12-13: the loop that appends every index and a comma. *)
Definition accumulate (indices : list Z) (output : string) : string :=
  fold_left (fun output i => output ++ Builtins.str i ++ ",") indices output.

(** Lines 11-16 for a length and a step: the text that is printed; [None]
    stands for the [ValueError] of [range]. *)
Definition sample_output (scrollZAxis step : Z) : option string :=
  match Builtins.range 0 scrollZAxis step with
  | Some indices => Some (Builtins.drop_last (accumulate indices "[") ++ "]")
  | None => None
  end.

(** Lines 8-9. *)
Definition scrollZAxis : Z := 14427.
Definition step : Z := 100.

(** What the script prints. *)
Definition output : option string := sample_output scrollZAxis step.

End RangeHelper.

(** * Vocabulary of the further properties *)

(** [keeps t t']: nothing of [t] is removed in [t'].  A directory is still a
    directory with at least its entries, a regular file is still a regular
    file, and it has the same bytes unless its name ends in [g]. *)
Definition keeps (t t' : Fs.node) : Prop :=
  forall q,
    match Fs.lookup t q with
    | Some (Fs.File b) =>
        exists b', Fs.lookup t' q = Some (Fs.File b')
                   /\ (b' = b \/ last_char (last q "") = Some "g"%char)
    | Some (Fs.Dir es) =>
        exists es', Fs.lookup t' q = Some (Fs.Dir es')
                    /\ incl (map fst es) (map fst es')
    | None => True
    end.

Definition keeps_fs (st st' : state) : Prop := keeps (fs st) (fs st').

(** [untouched t t']: every regular file of [t] is in [t'] with the bytes
    it had. *)
Definition untouched (t t' : Fs.node) : Prop :=
  forall q b, Fs.lookup t q = Some (Fs.File b) -> Fs.lookup t' q = Some (Fs.File b).

Definition untouched_fs (st st' : state) : Prop :=
  keeps (fs st) (fs st') /\ untouched (fs st) (fs st').

(** [well_named t]: no name of an entry of [t] contains a slash, as on a
    POSIX file system. *)
Fixpoint well_named (t : Fs.node) : bool :=
  match t with
  | Fs.File _ => true
  | Fs.Dir es =>
      (fix all (es : list (string * Fs.node)) : bool :=
         match es with
         | [] => true
         | (n, x) :: es' => slash_free n && well_named x && all es'
         end) es
  end.

Definition stays_well_named (st st' : state) : Prop :=
  well_named (fs st) = true -> well_named (fs st') = true.

(** The tree is the one before. *)
Definition same_fs (st st' : state) : Prop := fs st' = fs st.

(** [relates R c]: the state after [c] is related by [R] to the state
    before. *)
Definition relates {A} (R : state -> state -> Prop) (c : M A) : Prop :=
  forall st, R st (fst (c st)).

(** [raises_only P c]: every exception that [c] raises satisfies [P]. *)
Definition raises_only {A} (P : exn -> Prop) (c : M A) : Prop :=
  forall st e, snd (c st) = Raise e -> P e.

(** The files read by [tifffile.imread], and the jobs handed to the pool. *)
Definition reads (evs : list event) : list string :=
  flat_map (fun e => match e with Imread p => [p] | _ => [] end) evs.

Definition submitted (evs : list event) : list string :=
  flat_map (fun e => match e with Submit p => [p] | _ => [] end) evs.

(** The modulo value reads as zero. *)
Definition reads_as_zero (mod_value : option string) : Prop :=
  exists v, mod_value = Some v /\ Py.int v = Some 0.

(** Where the Tree Walker calls the Folder Converter from a directory
    [top]: on [top] itself when it is named [layers], otherwise on a
    sub-directory that is not an output folder. *)
Definition dispatched_from (target_types : list string) (top p : string) : Prop :=
  Py.endswith top ".zarr" = false
  /\ Py.contains target_types (OsPath.basename top) = true
  /\ ((OsPath.basename top = "layers" /\ p = top)
      \/ (OsPath.basename top <> "layers"
          /\ exists d, p = OsPath.join top d
                       /\ Py.endswith_any d ["_jpg"; "_png"] = false)).

(** What a run adds to the log: every folder the Folder Converter was called
    on was dispatched from a directory visited in the same stretch of the
    log. *)
Definition dispatches (target_types : list string) (st st' : state) : Prop :=
  exists evs,
    log st' = (log st ++ evs)%list
    /\ forall p, In p (calls evs) ->
                 exists top, In top (visits evs) /\ dispatched_from target_types top p.

(** Without a call of the Folder Converter the tree is the one before. *)
Definition idle (st st' : state) : Prop :=
  exists evs,
    log st' = (log st ++ evs)%list /\ (calls evs = [] -> fs st' = fs st).

(** The exceptions that leave a run of the walk. *)
Definition walk_error (mod_value : option string) (e : exn) : Prop :=
  e = OSError \/ (e = ZeroDivisionError /\ reads_as_zero mod_value).

(** * Properties *)

(** ** The built-ins on sample inputs *)

Example py_int_examples :
  map Py.int [" 12 "; "+5"; "-3"; "1_000"; "007"; "3"; "0"; "-0"]
  = map Some [12; 5; -3; 1000; 7; 3; 0; 0]
  /\ map Py.int ["abc"; ""; "_1"; "1_"; "1__0"; "+ 1"; "1 2"; "1.0"; "0x10"; "-"]
     = repeat None 10.
Proof. split; reflexivity. Qed.

Example splitext_examples :
  map OsPath.splitext ["a.tif"; ".tif"; "..tif"; "a.b.tif"; "a"; "a."; "x/y.z/w"; "a..tif"]
  = [("a", ".tif"); (".tif", ""); ("..tif", ""); ("a.b", ".tif"); ("a", "");
     ("a", "."); ("x/y.z/w", ""); ("a.", ".tif")].
Proof. reflexivity. Qed.

Example join_examples :
  [OsPath.join "a" "b"; OsPath.join "a/" "b"; OsPath.join "" "b";
   OsPath.join "a" "/b"; OsPath.join "a" ""; OsPath.join "./" "x"]
  = ["a/b"; "a/b"; "b"; "/b"; "a/"; "./x"].
Proof. reflexivity. Qed.

Example basename_examples :
  map OsPath.basename ["a/b/c.tif"; "c.tif"; "a/layers/"; "/"; ""; "./x"]
  = ["c.tif"; "c.tif"; ""; ""; ""; "x"].
Proof. reflexivity. Qed.

(** ** Strings *)

Lemma endswith_refl s : Py.endswith s s = true.
Proof.
  destruct s as [|c s]; [reflexivity|].
  change (Py.endswith (String c s) (String c s))
    with (if String.eqb (String c s) (String c s) then true
          else Py.endswith s (String c s)).
  now rewrite String.eqb_refl.
Qed.

Lemma endswith_unfold s suf :
  Py.endswith s suf
  = if String.eqb s suf then true
    else match s with
         | EmptyString => false
         | String _ s' => Py.endswith s' suf
         end.
Proof. destruct s; reflexivity. Qed.

Lemma endswith_iff s suf :
  Py.endswith s suf = true <-> exists pre, s = pre ++ suf.
Proof.
  split.
  - induction s as [|c s IH]; rewrite endswith_unfold.
    + destruct (String.eqb_spec "" suf) as [<-|]; [|discriminate].
      intros _. exists "". reflexivity.
    + destruct (String.eqb_spec (String c s) suf) as [<-|_].
      * intros _. exists "". reflexivity.
      * intros H. destruct (IH H) as [pre ->]. exists (String c pre). reflexivity.
  - intros [pre ->]. induction pre as [|c pre IH].
    + apply endswith_refl.
    + change (String c pre ++ suf) with (String c (pre ++ suf)).
      rewrite endswith_unfold, IH. destruct (String.eqb _ _); reflexivity.
Qed.

Lemma endswith_app pre suf : Py.endswith (pre ++ suf) suf = true.
Proof. apply endswith_iff. exists pre. reflexivity. Qed.

Lemma append_assoc (a b c : string) : (a ++ b) ++ c = a ++ (b ++ c).
Proof. induction a as [|x a IH]; simpl; [reflexivity | now rewrite IH]. Qed.

Lemma append_nil_r (a : string) : a ++ "" = a.
Proof. induction a as [|x a IH]; simpl; [reflexivity | now rewrite IH]. Qed.

Lemma length_append (a b : string) :
  String.length (a ++ b) = (String.length a + String.length b)%nat.
Proof. induction a as [|x a IH]; simpl; [reflexivity | now rewrite IH]. Qed.

Lemma last_char_app a c : last_char (a ++ String c "") = Some c.
Proof.
  induction a as [|x a IH]; simpl; [reflexivity|].
  rewrite IH. destruct (a ++ String c "") eqn:E; [|reflexivity].
  destruct a; discriminate.
Qed.

Lemma last_char_app_cons a c b : last_char (a ++ String c b) = last_char (String c b).
Proof.
  induction a as [|x a IH]; [reflexivity|].
  change (last_char (String x (a ++ String c b)) = last_char (String c b)).
  destruct (a ++ String c b) eqn:E.
  - destruct a; discriminate.
  - rewrite <- IH. reflexivity.
Qed.

Lemma endswith_last_char s suf c :
  Py.endswith s suf = true -> last_char suf = Some c -> last_char s = Some c.
Proof.
  intros H Hc. apply endswith_iff in H. destruct H as [pre ->].
  destruct suf as [|d suf]; [discriminate|].
  rewrite last_char_app_cons. exact Hc.
Qed.

Lemma last_char_lower s : last_char (Py.lower s) = option_map Py.lower_ascii (last_char s).
Proof.
  induction s as [|c s IH]; [reflexivity|].
  simpl. destruct s as [|d s]; [reflexivity|]. exact IH.
Qed.

(** ** The order on strings and [sorted] *)

Lemma ascii_compare_lt_trans a b c :
  Ascii.compare a b = Lt -> Ascii.compare b c = Lt -> Ascii.compare a c = Lt.
Proof.
  unfold Ascii.compare. rewrite !N.compare_lt_iff. apply N.lt_trans.
Qed.

Lemma ascii_compare_gt_lt a b :
  Ascii.compare a b = Gt <-> Ascii.compare b a = Lt.
Proof. unfold Ascii.compare. rewrite N.compare_gt_iff, N.compare_lt_iff. tauto. Qed.

Lemma string_compare_refl a : String.compare a a = Eq.
Proof.
  induction a as [|x a IH]; simpl; [reflexivity|].
  unfold Ascii.compare. now rewrite N.compare_refl.
Qed.

Lemma string_compare_lt_trans a : forall b c,
  String.compare a b = Lt -> String.compare b c = Lt -> String.compare a c = Lt.
Proof.
  induction a as [|x a IH]; intros [|y b] [|z c]; simpl; try congruence.
  destruct (Ascii.compare x y) eqn:Exy; try discriminate;
    destruct (Ascii.compare y z) eqn:Eyz; try discriminate; intros Hab Hbc.
  - apply Ascii.compare_eq_iff in Exy, Eyz. subst.
    assert (E : Ascii.compare z z = Eq) by (unfold Ascii.compare; apply N.compare_refl).
    rewrite E. eauto.
  - apply Ascii.compare_eq_iff in Exy. subst. now rewrite Eyz.
  - apply Ascii.compare_eq_iff in Eyz. subst. now rewrite Exy.
  - now rewrite (ascii_compare_lt_trans _ _ _ Exy Eyz).
Qed.

Lemma str_le_cases a b : str_le a b <-> String.compare a b = Lt \/ a = b.
Proof.
  unfold str_le, String.leb. split.
  - destruct (String.compare a b) eqn:E; try discriminate; intros _.
    + right. now apply String.compare_eq_iff.
    + now left.
  - intros [-> | ->]; [reflexivity|]. now rewrite string_compare_refl.
Qed.

Lemma str_le_refl a : str_le a a.
Proof. apply str_le_cases. now right. Qed.

Lemma str_le_trans a b c : str_le a b -> str_le b c -> str_le a c.
Proof.
  rewrite !str_le_cases. intros [H1 | ->] [H2 | ->]; auto.
  left. eapply string_compare_lt_trans; eauto.
Qed.

Lemma str_le_total a b : str_le a b \/ str_le b a.
Proof. apply String.leb_total. Qed.

Lemma str_le_antisym a b : str_le a b -> str_le b a -> a = b.
Proof. apply String.leb_antisym. Qed.

Lemma insert_perm x l : Permutation (x :: l) (Py.insert x l).
Proof.
  induction l as [|y l IH]; simpl; [reflexivity|].
  destruct (String.leb x y); [reflexivity|].
  rewrite perm_swap. now constructor.
Qed.

Lemma sorted_perm l : Permutation l (Py.sorted l).
Proof.
  induction l as [|x l IH]; simpl; [constructor|].
  rewrite <- insert_perm. now constructor.
Qed.

Lemma sorted_In l x : In x (Py.sorted l) <-> In x l.
Proof.
  split; apply Permutation_in; [symmetry|]; apply sorted_perm.
Qed.

Lemma insert_strongly_sorted x l :
  StronglySorted str_le l -> StronglySorted str_le (Py.insert x l).
Proof.
  induction l as [|y l IH]; intros Hs; simpl.
  - repeat constructor.
  - inversion Hs as [|? ? Hl Hy]; subst.
    destruct (String.leb x y) eqn:E.
    + constructor; [assumption|]. constructor; [exact E|].
      eapply Forall_impl; [|exact Hy]. intros z Hz. eapply str_le_trans; eauto.
    + constructor; [auto|].
      assert (Hyx : str_le y x).
      { destruct (str_le_total x y) as [H|H]; [unfold str_le in H; congruence|exact H]. }
      eapply Permutation_Forall; [apply insert_perm|]. now constructor.
Qed.

Lemma sorted_strongly_sorted l : StronglySorted str_le (Py.sorted l).
Proof.
  induction l as [|x l IH]; simpl; [constructor|]. now apply insert_strongly_sorted.
Qed.

(** A list that is in order and has the same elements is the sorted list. *)
Lemma strongly_sorted_unique l1 : forall l2,
  StronglySorted str_le l1 -> StronglySorted str_le l2 ->
  Permutation l1 l2 -> l1 = l2.
Proof.
  induction l1 as [|x l1 IH]; intros l2 H1 H2 HP.
  - apply Permutation_nil in HP. now subst.
  - destruct l2 as [|y l2]; [apply Permutation_sym, Permutation_nil in HP; discriminate|].
    inversion H1 as [|? ? Hs1 Hx]; subst. inversion H2 as [|? ? Hs2 Hy]; subst.
    assert (x = y) as ->.
    { assert (In x (y :: l2)) as [->|Hin] by (eapply Permutation_in; [exact HP|now left]);
        [reflexivity|].
      assert (In y (x :: l1)) as [->|Hin'] by
        (eapply Permutation_in; [symmetry; exact HP|now left]); [reflexivity|].
      rewrite Forall_forall in Hx, Hy. apply str_le_antisym; auto. }
    f_equal. apply IH; auto. eapply Permutation_cons_inv; eauto.
Qed.

Lemma insert_sorted_id x l :
  StronglySorted str_le (x :: l) -> Py.insert x l = x :: l.
Proof.
  intros H. apply strongly_sorted_unique; auto.
  - apply insert_strongly_sorted. now inversion H.
  - symmetry. apply insert_perm.
Qed.

Lemma sorted_id l : StronglySorted str_le l -> Py.sorted l = l.
Proof.
  intros H. apply strongly_sorted_unique; auto using sorted_strongly_sorted.
  symmetry. apply sorted_perm.
Qed.

Lemma sorted_idem l : Py.sorted (Py.sorted l) = Py.sorted l.
Proof. apply sorted_id, sorted_strongly_sorted. Qed.

Lemma strongly_sorted_filter (f : string -> bool) l :
  StronglySorted str_le l -> StronglySorted str_le (filter f l).
Proof.
  induction 1 as [|x l Hs IH Hx]; simpl; [constructor|].
  destruct (f x); [|assumption]. constructor; [assumption|].
  rewrite Forall_forall in *. intros y Hy. apply filter_In in Hy. apply Hx, Hy.
Qed.

(** ** The stages of [convert_tif] *)

Section Stages.

Context {L : Libs}.

Lemma keep_multiples_numeric m files :
  m <> 0 ->
  Forall (fun f => Py.int (stem f) <> None) files ->
  keep_multiples m files = Ok (filter (stem_divisible m) files).
Proof.
  intros Hm. induction 1 as [|f files Hf _ IH]; simpl; [reflexivity|].
  unfold stem_divisible at 1.
  destruct (Py.int (stem f)) as [n|]; [|congruence].
  destruct (Z.eqb_spec m 0) as [|_]; [contradiction|].
  rewrite IH. destruct (n mod m =? 0); reflexivity.
Qed.

Lemma keep_multiples_not_numeric m files :
  m <> 0 ->
  Exists (fun f => Py.int (stem f) = None) files ->
  keep_multiples m files = Raise ValueError.
Proof.
  intros Hm. induction 1 as [f files Hf | f files _ IH]; simpl.
  - now rewrite Hf.
  - destruct (Py.int (stem f)); [|reflexivity].
    destruct (Z.eqb_spec m 0) as [|_]; [contradiction|]. now rewrite IH.
Qed.

Lemma keep_multiples_zero f files n :
  Py.int (stem f) = Some n ->
  keep_multiples 0 (f :: files) = Raise ZeroDivisionError.
Proof. intros H. simpl. now rewrite H. Qed.

Lemma convert_single_tif_returns file_path dest_folder fmt q ow st :
  snd (convert_single_tif file_path dest_folder fmt q ow st) = Ok tt.
Proof.
  unfold convert_single_tif, try_except.
  match goal with |- context [match ?c st with _ => _ end] => destruct (c st) as [st' [[]|e]] end;
    reflexivity.
Qed.

Lemma for_each_returns {A} (body : A -> M unit) :
  (forall x st, snd (body x st) = Ok tt) ->
  forall l st, snd (for_each l body st) = Ok tt.
Proof.
  intros Hb. induction l as [|x l IH]; intros st; [reflexivity|].
  simpl. unfold bind. specialize (Hb x st).
  destruct (body x st) as [st' r]. simpl in Hb. subst r. apply IH.
Qed.

Lemma for_each_cons {A} (body : A -> M unit) x l st :
  for_each (x :: l) body st
  = match body x st with
    | (st', Ok _) => for_each l body st'
    | (st', Raise e) => (st', Raise e)
    end.
Proof. reflexivity. Qed.

Lemma run_pool_returns files dest fmt q ow st :
  snd (run_pool files dest fmt q ow st) = Ok tt.
Proof.
  unfold run_pool, bind.
  pose proof (for_each_returns (fun f => emit (Submit f)) (fun _ _ => eq_refl) files st) as H.
  destruct (for_each files _ st) as [st' r]. simpl in H. subst r.
  apply for_each_returns. intros. apply convert_single_tif_returns.
Qed.

Lemma convert_tif_unfold src fmt q ow mv out st :
  convert_tif src fmt q ow mv out st
  = match candidates src fmt out st with
    | (st1, Ok files) =>
        match modulo_filter mv files st1 with
        | (st2, Ok kept) =>
            run_pool (Py.sorted kept) (dest_folder_of src fmt out) fmt q ow st2
        | (st2, Raise e) => (st2, Raise e)
        end
    | (st1, Raise e) => (st1, Raise e)
    end.
Proof.
  unfold convert_tif, bind. destruct (candidates src fmt out st) as [st1 [files|e]];
    reflexivity.
Qed.

Lemma modulo_filter_parsed v m files st :
  Py.int v = Some m ->
  modulo_filter (Some v) files st
  = match keep_multiples m files with
    | Raise ValueError => (warned st, Ok files)
    | r => (st, r)
    end.
Proof.
  intros Hv. unfold modulo_filter, try_except_ValueError, bind, int_of, lift.
  rewrite Hv. simpl. destruct (keep_multiples m files) as [kept|[]]; reflexivity.
Qed.

Lemma modulo_filter_unparsed v files st :
  Py.int v = None -> modulo_filter (Some v) files st = (warned st, Ok files).
Proof.
  intros Hv. unfold modulo_filter, try_except_ValueError, bind, int_of. now rewrite Hv.
Qed.

Lemma candidates_inv src fmt out st st1 files :
  candidates src fmt out st = (st1, Ok files) ->
  exists names,
    Fs.listdir (fs st1) cwd src = Some names /\ files = tif_files_of src names.
Proof.
  unfold candidates, bind, os_listdir, ret.
  destruct (emit _ st) as [sa [[]|e]]; [|discriminate].
  destruct (ensure_dest_folder _ sa) as [sb [[]|e]]; [|discriminate].
  destruct (Fs.listdir (fs sb) cwd src) as [names|] eqn:E; [|discriminate].
  intros H. injection H as <- <-. eauto.
Qed.

End Stages.

(** ** The candidate files of a folder *)



(** ** The modulo filter *)

(** C3, counterexample.  In the folder [d] with [a.tif], [1.tif] and [2.tif]
    the modulo value ["2"] parses as an integer, and the candidates that are
    kept and converted are all three: [1.tif], whose stem is odd, and [a.tif]
    are among them. *)
Lemma modulo_filter_keeps_other_files :
  Py.int "2" = Some 2
  /\ modulo_filter (Some "2") ["d/1.tif"; "d/2.tif"; "d/a.tif"]
       (Sample.initial Sample.named_files)
     = (mk_state Sample.named_files [Print Modulo_skipped],
        Ok ["d/1.tif"; "d/2.tif"; "d/a.tif"])
  /\ Py.int (stem "d/1.tif") = Some 1
  /\ 1 mod 2 <> 0
  /\ flat_map (fun e => match e with Submit f => [f] | _ => [] end)
       (log (fst (@convert_tif Sample.toy "d" "jpg" 95 true (Some "2") None
                    (Sample.initial Sample.named_files))))
     = ["d/1.tif"; "d/2.tif"; "d/a.tif"].
Proof. repeat split. discriminate. Qed.

(** C3, amended.  With a modulo value that parses as an integer other than
    zero and candidates whose stems all parse as integers, the filter keeps
    exactly the candidates whose stem is a multiple of it; with a modulo value
    that does not parse, the filter is skipped, the warning is printed and
    all candidates stay.  The files [0.tif] ... [9.tif] with ["3"] give the
    jobs [0.tif], [3.tif], [6.tif], [9.tif]; with ["abc"] they give all
    ten. *)
Theorem modulo_filter_keeps_multiples
    (v : string) (files : list string) (st : state) :
  (forall m, Py.int v = Some m -> m <> 0 ->
     Forall (fun f => Py.int (stem f) <> None) files ->
     modulo_filter (Some v) files st
     = (st, Ok (filter (fun f => match Py.int (stem f) with
                                 | Some n => n mod m =? 0
                                 | None => false
                                 end) files)))
  /\ (Py.int v = None ->
      modulo_filter (Some v) files st
      = (mk_state (fs st) (log st ++ [Print Modulo_skipped]), Ok files))
  /\ (let run v :=
        fst (@convert_tif Sample.toy "d" "jpg" 95 true (Some v) None
               (Sample.initial Sample.ten_files)) in
      let submitted st :=
        flat_map (fun e => match e with Submit f => [f] | _ => [] end) (log st) in
      submitted (run "3") = ["d/0.tif"; "d/3.tif"; "d/6.tif"; "d/9.tif"]
      /\ Fs.listdir (fs (run "3")) [] "d_jpg" = Some ["0.jpg"; "3.jpg"; "6.jpg"; "9.jpg"]
      /\ submitted (run "abc")
         = map (fun n => "d/" ++ n ++ ".tif")
             ["0"; "1"; "2"; "3"; "4"; "5"; "6"; "7"; "8"; "9"]
      /\ In (Print Modulo_skipped) (log (run "abc"))).
Proof.
  split; [|split].
  - intros m Hv Hm Hnum. rewrite (modulo_filter_parsed _ _ _ _ Hv).
    now rewrite keep_multiples_numeric.
  - apply modulo_filter_unparsed.
  - vm_compute. repeat split; auto.
Qed.

Lemma modulo_filter_keeps_multiples_witness :
  modulo_filter (Some "3") ["d/2.tif"; "d/3.tif"; "d/4.tif"; "d/9.tif"]
    (Sample.initial Sample.ten_files)
  = (Sample.initial Sample.ten_files, Ok ["d/3.tif"; "d/9.tif"])
  /\ modulo_filter (Some "abc") ["d/2.tif"; "d/3.tif"]
       (Sample.initial Sample.ten_files)
     = (mk_state Sample.ten_files [Print Modulo_skipped], Ok ["d/2.tif"; "d/3.tif"]).
Proof.
  split.
  - apply (proj1 (modulo_filter_keeps_multiples "3"
                    ["d/2.tif"; "d/3.tif"; "d/4.tif"; "d/9.tif"]
                    (Sample.initial Sample.ten_files)) 3).
    + reflexivity.
    + lia.
    + repeat constructor; vm_compute; discriminate.
  - apply (proj1 (proj2 (modulo_filter_keeps_multiples "abc"
                    ["d/2.tif"; "d/3.tif"]
                    (Sample.initial Sample.ten_files)))).
    reflexivity.
Defined.

(** C1, counterexample.  In the folder [d] with [a.tif], [1.tif] and [2.tif]
    and the modulo value ["2"], a candidate has a stem that is not a number,
    and [convert_tif] returns normally: all three files are converted. *)
Lemma nonnumeric_stem_does_not_abort :
  Py.int "2" = Some 2
  /\ (exists files st1,
        @candidates Sample.toy "d" "jpg" None (Sample.initial Sample.named_files)
        = (st1, Ok files)
        /\ Exists (fun f => Py.int (stem f) = None) files)
  /\ snd (@convert_tif Sample.toy "d" "jpg" 95 true (Some "2") None
            (Sample.initial Sample.named_files)) = Ok tt
  /\ Fs.listdir
       (fs (fst (@convert_tif Sample.toy "d" "jpg" 95 true (Some "2") None
                   (Sample.initial Sample.named_files)))) [] "d_jpg"
     = Some ["1.jpg"; "2.jpg"; "a.jpg"].
Proof.
  split; [reflexivity|]. split; [|split; reflexivity].
  eexists _, _. split; [vm_compute; reflexivity|].
  do 2 apply Exists_cons_tl. apply Exists_cons_hd. reflexivity.
Qed.

(** C1, amended.  With a modulo value that parses as an integer other than
    zero, a candidate whose stem does not parse as an integer makes the
    filter raise [ValueError] inside the [try] block of lines 85-89: the
    handler prints the warning, the filter is skipped, every candidate is
    handed to the pool and [convert_tif] returns normally. *)
Theorem nonnumeric_stem_skips_the_filter {L : Libs}
    (source_folder output_format : string) (quality : Z) (overwrite : bool)
    (v : string) (output_path : option string) (m : Z)
    (st st1 : state) (files : list string) :
  candidates source_folder output_format output_path st = (st1, Ok files) ->
  Py.int v = Some m ->
  m <> 0 ->
  Exists (fun f => Py.int (stem f) = None) files ->
  convert_tif source_folder output_format quality overwrite (Some v) output_path st
  = run_pool (Py.sorted files)
      (dest_folder_of source_folder output_format output_path)
      output_format quality overwrite
      (mk_state (fs st1) (log st1 ++ [Print Modulo_skipped]))
  /\ snd (convert_tif source_folder output_format quality overwrite (Some v)
            output_path st) = Ok tt.
Proof.
  intros Hc Hv Hm Hex.
  assert (E : convert_tif source_folder output_format quality overwrite (Some v)
                output_path st
              = run_pool (Py.sorted files)
                  (dest_folder_of source_folder output_format output_path)
                  output_format quality overwrite (warned st1)).
  { rewrite convert_tif_unfold, Hc, (modulo_filter_parsed _ _ _ _ Hv).
    now rewrite keep_multiples_not_numeric. }
  split; [exact E|]. rewrite E. apply run_pool_returns.
Qed.

Lemma nonnumeric_stem_skips_the_filter_witness :
  @convert_tif Sample.toy "d" "jpg" 95 true (Some "2") None
    (Sample.initial Sample.named_files)
  = @run_pool Sample.toy (Py.sorted ["d/1.tif"; "d/2.tif"; "d/a.tif"])
      "d_jpg" "jpg" 95 true
      (mk_state (Fs.set_at Sample.named_files ["d_jpg"] (Fs.Dir []))
         ([Enter_convert_tif "d"] ++ [Print Modulo_skipped]))
  /\ snd (@convert_tif Sample.toy "d" "jpg" 95 true (Some "2") None
            (Sample.initial Sample.named_files)) = Ok tt.
Proof.
  apply (@nonnumeric_stem_skips_the_filter Sample.toy "d" "jpg" 95 true "2" None 2
           (Sample.initial Sample.named_files)
           (mk_state (Fs.set_at Sample.named_files ["d_jpg"] (Fs.Dir []))
              [Enter_convert_tif "d"])
           ["d/1.tif"; "d/2.tif"; "d/a.tif"]).
  - vm_compute. reflexivity.
  - reflexivity.
  - lia.
  - do 2 apply Exists_cons_tl. apply Exists_cons_hd. reflexivity.
Defined.

(** C10, counterexample.  In the folder [d] with [1.tif] and [1 (1).tif]
    and the modulo value ["0"], there are candidates and [convert_tif] returns
    normally: the first candidate in sorted order, [1 (1).tif], has a stem
    that is no integer, so [ValueError] is raised before any remainder is
    taken, and it is caught. *)
Lemma modulo_zero_does_not_always_abort :
  Py.int "0" = Some 0
  /\ (exists st1,
        @candidates Sample.toy "d" "jpg" None (Sample.initial Sample.copied_files)
        = (st1, Ok ["d/1 (1).tif"; "d/1.tif"]))
  /\ snd (@convert_tif Sample.toy "d" "jpg" 95 true (Some "0") None
            (Sample.initial Sample.copied_files)) = Ok tt
  /\ Fs.listdir
       (fs (fst (@convert_tif Sample.toy "d" "jpg" 95 true (Some "0") None
                   (Sample.initial Sample.copied_files)))) [] "d_jpg"
     = Some ["1 (1).jpg"; "1.jpg"].
Proof.
  split; [reflexivity|]. split; [|split; reflexivity].
  eexists. vm_compute. reflexivity.
Qed.

(** C10, amended.  With a modulo value that parses as zero, and a first
    candidate in sorted order whose stem parses as an integer, the remainder
    of line 87 raises [ZeroDivisionError], which the handler of line 88 does
    not catch: [convert_tif] raises it, after the destination folder was made
    and before any job is submitted. *)
Theorem modulo_zero_raises {L : Libs}
    (source_folder output_format : string) (quality : Z) (overwrite : bool)
    (v : string) (output_path : option string) (n : Z)
    (st st1 : state) (f : string) (rest : list string) :
  candidates source_folder output_format output_path st = (st1, Ok (f :: rest)) ->
  Py.int v = Some 0 ->
  Py.int (stem f) = Some n ->
  convert_tif source_folder output_format quality overwrite (Some v) output_path st
  = (st1, Raise ZeroDivisionError).
Proof.
  intros Hc Hv Hf.
  rewrite convert_tif_unfold, Hc, (modulo_filter_parsed _ _ _ _ Hv).
  now rewrite (keep_multiples_zero _ _ _ Hf).
Qed.

Lemma modulo_zero_raises_witness :
  @convert_tif Sample.toy "d" "jpg" 95 true (Some "0") None
    (Sample.initial Sample.named_files)
  = (mk_state (Fs.set_at Sample.named_files ["d_jpg"] (Fs.Dir []))
       [Enter_convert_tif "d"], Raise ZeroDivisionError).
Proof.
  apply (@modulo_zero_raises Sample.toy "d" "jpg" 95 true "0" None 1
           (Sample.initial Sample.named_files) _ "d/1.tif" ["d/2.tif"; "d/a.tif"]).
  - vm_compute. reflexivity.
  - reflexivity.
  - reflexivity.
Defined.

(** ** The Single-File Converter *)

(** C5. When the overwrite flag is false and the destination file exists,
    the Single-File Converter returns at once: the file system is unchanged
    and nothing is read, written or printed. *)
Theorem existing_destination_is_skipped {L : Libs}
    (file_path dest_folder output_format : string) (quality : Z) (st : state) :
  Fs.path_exists (fs st) cwd (dest_file_path_of file_path dest_folder output_format) = true ->
  convert_single_tif file_path dest_folder output_format quality false st = (st, Ok tt).
Proof.
  intros H. unfold convert_single_tif, try_except, bind, os_path_exists.
  rewrite H. reflexivity.
Qed.

Lemma existing_destination_is_skipped_witness :
  @convert_single_tif Sample.toy "d/0.tif" "d_png" "png" 95 false
    (Sample.initial Sample.converted_once)
  = (Sample.initial Sample.converted_once, Ok tt).
Proof.
  apply (@existing_destination_is_skipped Sample.toy "d/0.tif" "d_png" "png" 95
           (Sample.initial Sample.converted_once)).
  vm_compute. reflexivity.
Defined.

Lemma to_uint8_quot overflow (v : Z) :
  Numpy.to_uint8 overflow (Qmake v 256)
  = let z := Z.quot v 256 in
    if (0 <=? z) && (z <=? 255) then z else overflow z.
Proof. reflexivity. Qed.

Lemma to_uint8_16bit overflow (v : Z) :
  0 <= v <= 65535 ->
  Numpy.to_uint8 overflow (Qmake v 256) = v / 256 /\ 0 <= v / 256 <= 255.
Proof.
  intros Hv. rewrite to_uint8_quot. cbv zeta.
  rewrite Z.quot_div_nonneg by lia.
  assert (H : 0 <= v / 256 <= 255).
  { split; [apply Z.div_pos; lia|]. apply Z.lt_succ_r, Z.div_lt_upper_bound; lia. }
  split; [|exact H].
  destruct (Z.leb_spec 0 (v / 256)); [|lia].
  destruct (Z.leb_spec (v / 256) 255); [reflexivity|lia].
Qed.

(** The rescaled array is what reaches the encoder: a source file with one
    pixel of value 256, converted with overwrite on, leaves a PNG with one
    pixel of value 1. *)
Example convert_single_tif_rescales :
  Fs.read_file
    (fs (fst (@convert_single_tif Sample.toy "d/0.tif" "d_png" "png" 95 true
                (Sample.initial Sample.converted_once)))) [] "d_png/0.png"
  = Some ("PNG" ++ String (ascii_of_nat 1) "").
Proof. reflexivity. Qed.

(** ** The Tree Walker on a root that is no directory *)

(** A walk that has returned returns the same with more fuel. *)
Lemma walk_more_fuel {L : Libs} body fuel : forall stack st st' r k,
  walk fuel stack body st = (st', Some r) ->
  walk (fuel + k) stack body st = (st', Some r).
Proof.
  induction fuel as [|fuel IH]; intros stack st st' r k.
  - destruct stack as [|top stack]; simpl; [|discriminate].
    intros H. now destruct k.
  - destruct stack as [|top stack]; [exact (fun H => H)|].
    cbn [walk Nat.add].
    destruct (Fs.scandir (fs st) cwd top) as [[dirs files]|]; [|apply IH].
    destruct (body top dirs st) as [st1 [dirs'|e]]; [apply IH|exact (fun H => H)].
Qed.

Lemma scandir_not_dir t cwd0 p :
  Fs.path_isdir t cwd0 p = false -> Fs.scandir t cwd0 p = None.
Proof.
  unfold Fs.path_isdir, Fs.scandir, Fs.is_dir.
  destruct (Fs.resolve t cwd0 p) as [l|]; [|reflexivity].
  destruct (Fs.lookup t l) as [[|es]|]; try reflexivity. discriminate.
Qed.

(** C2, counterexample.  On a tree without the entry [missing], and on a
    root that is a regular file, [process_specific_folders] returns normally
    and leaves the state as it was; the script then exits normally. *)
Lemma missing_root_is_no_error :
  Fs.path_isdir Sample.volumes_tree [] "missing" = false
  /\ @process_specific_folders Sample.toy 1 "missing" ["layers"] "jpg" 95 false None None
       (Sample.initial Sample.volumes_tree)
     = (Sample.initial Sample.volumes_tree, Some (Ok tt))
  /\ Fs.path_isdir Sample.converted_once [] "d/0.tif" = false
  /\ @process_specific_folders Sample.toy 1 "d/0.tif" ["layers"] "jpg" 95 false None None
       (Sample.initial Sample.converted_once)
     = (Sample.initial Sample.converted_once, Some (Ok tt))
  /\ snd (@main Sample.toy 1 ["parallel_tif_to_jpg_or_png.py"; "missing"]
            (Sample.initial Sample.volumes_tree)) = Some (Ok tt).
Proof. repeat split. Qed.

(** C2, amended.  When the root directory does not exist or is not a
    directory, [os.walk] produces nothing, because the script passes no
    [onerror] handler: [process_specific_folders] visits and converts no
    folder, changes nothing and returns normally. *)
Theorem root_that_is_no_directory_is_skipped {L : Libs}
    (fuel : nat) (root_directory : string) (target_types : list string)
    (output_format : string) (quality : Z) (overwrite : bool)
    (mod_value output_path : option string) (st : state) :
  Fs.path_isdir (fs st) cwd root_directory = false ->
  process_specific_folders (S fuel) root_directory target_types output_format
    quality overwrite mod_value output_path st
  = (st, Some (Ok tt)).
Proof.
  intros H. unfold process_specific_folders. simpl.
  rewrite (scandir_not_dir _ _ _ H). destruct fuel; reflexivity.
Qed.

Lemma root_that_is_no_directory_is_skipped_witness :
  @process_specific_folders Sample.toy 1 "missing" ["layers"] "jpg" 95 false None None
    (Sample.initial Sample.volumes_tree)
  = (Sample.initial Sample.volumes_tree, Some (Ok tt)).
Proof.
  apply (@root_that_is_no_directory_is_skipped Sample.toy 0 "missing" ["layers"]
           "jpg" 95 false None None (Sample.initial Sample.volumes_tree)).
  reflexivity.
Defined.

(** ** What a computation adds to the log *)

Section Logs.

Context {L : Libs}.

Lemma emits_weaken {A} (P Q : event -> Prop) (c : M A) :
  (forall e, P e -> Q e) -> emits P c -> emits Q c.
Proof.
  intros HPQ Hc st. destruct (Hc st) as (evs & E & H). exists evs. split; [exact E|].
  eapply Forall_impl; eauto.
Qed.

Lemma emits_silent {A} (P : event -> Prop) (c : M A) :
  (forall st, log (fst (c st)) = log st) -> emits P c.
Proof. intros H st. exists []. rewrite app_nil_r. auto. Qed.

Lemma emits_ret {A} P (a : A) : emits P (ret a).
Proof. apply emits_silent. reflexivity. Qed.

Lemma emits_raise {A} P e : emits P (@raise A e).
Proof. apply emits_silent. reflexivity. Qed.

Lemma emits_lift {A} P (r : result A) : emits P (lift r).
Proof. apply emits_silent. reflexivity. Qed.

Lemma emits_emit (P : event -> Prop) e : P e -> emits P (emit e).
Proof. intros H st. exists [e]. simpl. auto. Qed.

Lemma emits_bind {A B} P (c : M A) (k : A -> M B) :
  emits P c -> (forall a, emits P (k a)) -> emits P (bind c k).
Proof.
  intros Hc Hk st. unfold bind. destruct (Hc st) as (e1 & E1 & H1).
  destruct (c st) as [st1 [a|e]]; simpl in E1.
  - destruct (Hk a st1) as (e2 & E2 & H2). exists (e1 ++ e2)%list.
    rewrite E2, E1, app_assoc. split; [reflexivity|]. apply Forall_app. auto.
  - exists e1. auto.
Qed.

Lemma emits_try_except {A} P (c : M A) (h : exn -> M A) :
  emits P c -> (forall e, emits P (h e)) -> emits P (try_except c h).
Proof.
  intros Hc Hh st. unfold try_except. destruct (Hc st) as (e1 & E1 & H1).
  destruct (c st) as [st1 [a|e]]; simpl in E1.
  - exists e1. auto.
  - destruct (Hh e st1) as (e2 & E2 & H2). exists (e1 ++ e2)%list.
    rewrite E2, E1, app_assoc. split; [reflexivity|]. apply Forall_app. auto.
Qed.

Lemma emits_try_except_ValueError {A} P (c h : M A) :
  emits P c -> emits P h -> emits P (try_except_ValueError c h).
Proof.
  intros Hc Hh st. unfold try_except_ValueError. destruct (Hc st) as (e1 & E1 & H1).
  destruct (c st) as [st1 [a|[]]]; simpl in E1; try (exists e1; auto; fail).
  destruct (Hh st1) as (e2 & E2 & H2). exists (e1 ++ e2)%list.
  rewrite E2, E1, app_assoc. split; [reflexivity|]. apply Forall_app. auto.
Qed.

Lemma emits_for_each {A} P (l : list A) (body : A -> M unit) :
  (forall x, emits P (body x)) -> emits P (for_each l body).
Proof.
  intros Hb. induction l as [|x l IH]; simpl.
  - apply emits_ret.
  - apply emits_bind; auto.
Qed.

Lemma emits_if {A} P (b : bool) (c1 c2 : M A) :
  emits P c1 -> emits P c2 -> emits P (if b then c1 else c2).
Proof. destruct b; auto. Qed.

Lemma emits_os_makedirs P p : emits P (os_makedirs p).
Proof.
  apply emits_silent. intros st. unfold os_makedirs.
  destruct (Fs.makedirs (fs st) cwd p). reflexivity.
Qed.

Lemma emits_os_listdir P p : emits P (os_listdir p).
Proof.
  apply emits_silent. intros st. unfold os_listdir.
  destruct (Fs.listdir (fs st) cwd p); reflexivity.
Qed.

Lemma emits_tifffile_imread p : emits quiet (tifffile_imread p).
Proof.
  unfold tifffile_imread. apply emits_bind; [apply emits_emit; exact I|].
  intros _. apply emits_silent. intros st.
  destruct (Fs.read_file (fs st) cwd p); [|reflexivity].
  destruct (decode_tiff s); reflexivity.
Qed.

Lemma emits_Image_save img dest c : emits quiet (Image_save img dest c).
Proof.
  unfold Image_save. apply emits_bind; [apply emits_emit; exact I|].
  intros _. apply emits_silent. intros st.
  destruct (Fs.open_write (fs st) cwd dest); [|reflexivity].
  destruct (encode c img); [reflexivity|].
  destruct (Fs.present (fs st) l); reflexivity.
Qed.

Lemma emits_convert_single_tif file_path dest fmt q ow :
  emits quiet (convert_single_tif file_path dest fmt q ow).
Proof.
  unfold convert_single_tif. apply emits_try_except.
  - apply emits_bind; [apply emits_silent; reflexivity|]. intros present.
    apply emits_if; [apply emits_ret|].
    apply emits_bind; [apply emits_tifffile_imread|]. intros a.
    apply emits_bind.
    { unfold Image_fromarray. apply emits_if; [apply emits_ret|apply emits_raise]. }
    intros img. repeat apply emits_if; try apply emits_Image_save. apply emits_ret.
  - intros e. apply emits_emit. exact I.
Qed.

Lemma emits_run_pool files dest fmt q ow : emits quiet (run_pool files dest fmt q ow).
Proof.
  unfold run_pool. apply emits_bind.
  - apply emits_for_each. intros f. apply emits_emit. exact I.
  - intros _. apply emits_for_each. intros f. apply emits_convert_single_tif.
Qed.

Lemma emits_modulo_filter mv files : emits quiet (modulo_filter mv files).
Proof.
  destruct mv as [v|]; simpl; [|apply emits_ret].
  apply emits_try_except_ValueError.
  - apply emits_bind.
    + unfold int_of. destruct (Py.int v); [apply emits_ret|apply emits_raise].
    + intros m. apply emits_lift.
  - apply emits_bind; [apply emits_emit; exact I|]. intros _. apply emits_ret.
Qed.

Lemma emits_ensure_dest_folder dest : emits quiet (ensure_dest_folder dest).
Proof.
  unfold ensure_dest_folder. apply emits_bind; [apply emits_silent; reflexivity|].
  intros present. apply emits_if; [apply emits_os_makedirs|apply emits_ret].
Qed.

(** A call of [convert_tif] is logged once, at its start. *)
Lemma convert_tif_log src fmt q ow mv out st :
  exists evs,
    log (fst (convert_tif src fmt q ow mv out st))
    = (log st ++ Enter_convert_tif src :: evs)%list
    /\ Forall quiet evs.
Proof.
  assert (H : emits quiet
    (ensure_dest_folder (dest_folder_of src fmt out) ;;
     tif_files <- (names <- os_listdir src ;; ret (tif_files_of src names)) ;;
     tif_files <- modulo_filter mv tif_files ;;
     run_pool (Py.sorted tif_files) (dest_folder_of src fmt out) fmt q ow)).
  { apply emits_bind; [apply emits_ensure_dest_folder|]. intros _.
    apply emits_bind.
    { apply emits_bind; [apply emits_os_listdir|]. intros; apply emits_ret. }
    intros files. apply emits_bind; [apply emits_modulo_filter|].
    intros kept. apply emits_run_pool. }
  destruct (H (mk_state (fs st) (log st ++ [Enter_convert_tif src]))) as (evs & E & Hq).
  exists evs. split; [|exact Hq]. simpl in E. rewrite <- app_assoc in E. simpl in E.
  rewrite <- E. f_equal. unfold convert_tif, candidates, bind, emit, ret.
  destruct (ensure_dest_folder _ _) as [s1 [[]|e]]; [|reflexivity].
  destruct (os_listdir src s1) as [s2 [names|e]]; reflexivity.
Qed.

Lemma calls_app a b : calls (a ++ b) = (calls a ++ calls b)%list.
Proof. apply flat_map_app. Qed.

Lemma visits_app a b : visits (a ++ b) = (visits a ++ visits b)%list.
Proof. apply flat_map_app. Qed.

Lemma quiet_calls evs : Forall quiet evs -> calls evs = [].
Proof.
  induction 1 as [|e evs He _ IH]; [reflexivity|].
  destruct e; simpl in *; auto; contradiction.
Qed.

Lemma quiet_visits evs : Forall quiet evs -> visits evs = [].
Proof.
  induction 1 as [|e evs He _ IH]; [reflexivity|].
  destruct e; simpl in *; auto; contradiction.
Qed.

Lemma calls_cons_print m evs : calls (Print m :: evs) = calls evs.
Proof. reflexivity. Qed.

Lemma calls_cons_enter p evs : calls (Enter_convert_tif p :: evs) = p :: calls evs.
Proof. reflexivity. Qed.

Lemma visits_cons_print m evs : visits (Print m :: evs) = visits evs.
Proof. reflexivity. Qed.

Lemma visits_cons_enter p evs : visits (Enter_convert_tif p :: evs) = visits evs.
Proof. reflexivity. Qed.

End Logs.

(** ** Paths as strings *)

Lemma mem_char_app c a b : mem_char c (a ++ b) = mem_char c a || mem_char c b.
Proof.
  induction a as [|x a IH]; simpl; [reflexivity|]. now rewrite IH, orb_assoc.
Qed.

Lemma substring_0_length s : String.substring 0 (String.length s) s = s.
Proof. induction s as [|c s IH]; simpl; [reflexivity|]. now rewrite IH. Qed.

Lemma substring_skip a : forall n b,
  String.substring (String.length a + n) (String.length b - n) (a ++ b)
  = String.substring n (String.length b - n) b.
Proof. induction a as [|x a IH]; intros n b; simpl; auto. Qed.

Lemma substring_0_app a b : String.substring 0 (String.length a) (a ++ b) = a.
Proof. induction a as [|x a IH]; simpl; [now destruct b|]. now rewrite IH. Qed.

Lemma substring_0_prefix n : forall s, exists suf, s = String.substring 0 n s ++ suf.
Proof.
  induction n as [|n IH]; intros [|c s]; simpl; try (eexists; reflexivity).
  destruct (IH s) as [suf E]. exists suf. now rewrite <- E.
Qed.

Lemma rfind_from_spec c s : forall i, 0 <= i ->
  (OsPath.rfind_from i c s = -1 /\ mem_char c s = false)
  \/ (exists a b, s = a ++ String c b /\ mem_char c b = false
                  /\ OsPath.rfind_from i c s = i + Z.of_nat (String.length a)).
Proof.
  induction s as [|d s IH]; intros i Hi; simpl.
  - left. auto.
  - destruct (IH (i + 1) ltac:(lia)) as [[Hr Hm] | (a & b & -> & Hb & Hr)].
    + rewrite Hr, Hm. simpl. rewrite orb_false_r.
      destruct (Ascii.eqb_spec d c) as [->|].
      * right. exists "", s. simpl. repeat split; auto. lia.
      * left. auto.
    + right. exists (String d a), b. rewrite Hr.
      destruct (Z.leb_spec 0 (i + 1 + Z.of_nat (String.length a))); [|lia].
      repeat split; auto. simpl String.length. lia.
Qed.

(** [basename] takes what follows the last slash. *)
Lemma basename_spec p :
  (mem_char "/" p = false /\ OsPath.basename p = p)
  \/ (exists a, p = a ++ String "/" (OsPath.basename p)
                /\ mem_char "/" (OsPath.basename p) = false).
Proof.
  unfold OsPath.basename, OsPath.rfind, OsPath.slice.
  destruct (rfind_from_spec "/" p 0 ltac:(lia)) as [[Hr Hm] | (a & b & -> & Hb & Hr)].
  - left. rewrite Hr. simpl Z.to_nat. rewrite Z.sub_0_r, Nat2Z.id.
    split; [exact Hm|apply substring_0_length].
  - right. exists a. rewrite Hr.
    replace (Z.to_nat (0 + Z.of_nat (String.length a) + 1))
      with (String.length a + 1)%nat by lia.
    rewrite length_append. simpl String.length.
    replace (Z.to_nat (Z.of_nat (String.length a + S (String.length b))
                       - (0 + Z.of_nat (String.length a) + 1)))
      with (String.length (String "/" b) - 1)%nat by (simpl; lia).
    rewrite substring_skip. simpl. rewrite Nat.sub_0_r, substring_0_length. auto.
Qed.

Lemma basename_no_slash p : mem_char "/" (OsPath.basename p) = false.
Proof.
  destruct (basename_spec p) as [[H ->] | (a & _ & H)]; assumption.
Qed.

Lemma basename_suffix p : exists pre, p = pre ++ OsPath.basename p.
Proof.
  destruct (basename_spec p) as [[_ ->] | (a & E & _)].
  - exists "". reflexivity.
  - exists (a ++ "/"). now rewrite append_assoc.
Qed.

Lemma splitext_prefix x : exists suf, x = fst (OsPath.splitext x) ++ suf.
Proof.
  unfold OsPath.splitext.
  destruct (_ <? _); [|exists ""; now rewrite append_nil_r].
  destruct (forallb _ _); [exists ""; simpl; now rewrite append_nil_r|].
  simpl. unfold OsPath.slice. simpl Z.to_nat. apply substring_0_prefix.
Qed.

Lemma stem_no_slash file_path :
  mem_char "/" (fst (OsPath.splitext (OsPath.basename file_path))) = false.
Proof.
  destruct (splitext_prefix (OsPath.basename file_path)) as [suf E].
  pose proof (basename_no_slash file_path) as H. rewrite E, mem_char_app in H.
  now apply orb_false_iff in H.
Qed.

Lemma last_char_suffix pre s c : last_char s = Some c -> last_char (pre ++ s) = Some c.
Proof.
  destruct s as [|d s]; [discriminate|]. intros H. now rewrite last_char_app_cons.
Qed.

(** A path whose base name is one of the three target types does not end in
    [.zarr]. *)
Lemma target_is_not_zarr root target_types :
  incl target_types ["volumes"; "masked_volumes"; "layers"] ->
  Py.contains target_types (OsPath.basename root) = true ->
  Py.endswith root ".zarr" = false.
Proof.
  intros Hincl Hc. unfold Py.contains in Hc. apply existsb_exists in Hc.
  destruct Hc as (t & Hin & Ht). apply String.eqb_eq in Ht. subst t.
  assert (Hs : last_char (OsPath.basename root) = Some "s"%char).
  { apply Hincl in Hin. simpl in Hin.
    destruct Hin as [<-|[<-|[<-|[]]]]; reflexivity. }
  destruct (basename_suffix root) as [pre E].
  destruct (Py.endswith root ".zarr") eqn:Hz; [|reflexivity].
  apply (endswith_last_char _ _ "r"%char) in Hz; [|reflexivity].
  rewrite E in Hz. rewrite (last_char_suffix _ _ _ Hs) in Hz. discriminate.
Qed.

(** ** The loop body of the Tree Walker *)

Section Visit.

Context {L : Libs}.

Variables (target_types : list string) (output_format : string) (quality : Z)
  (overwrite : bool) (mod_value output_path : option string).

Lemma convert_subfolders_log root dirs : forall st,
  exists evs,
    log (fst (convert_subfolders output_format quality overwrite mod_value
                output_path root dirs st))
    = (log st ++ evs)%list
    /\ visits evs = []
    /\ (exists rest, source_subfolders root dirs = (calls evs ++ rest)%list)
    /\ (snd (convert_subfolders output_format quality overwrite mod_value
               output_path root dirs st) = Ok tt ->
        calls evs = source_subfolders root dirs).
Proof.
  unfold convert_subfolders, source_subfolders.
  induction dirs as [|d dirs IH]; intros st.
  - exists []. simpl. rewrite app_nil_r. repeat split; auto. now exists [].
  - rewrite for_each_cons. cbv beta. cbn [filter].
    destruct (negb (Py.endswith_any d ["_jpg"; "_png"])) eqn:Hk.
    + set (p := Processing_folder _ _ _).
      set (st0 := mk_state (fs st) (log st ++ [Print p])).
      change ((print p ;; convert_tif (OsPath.join root d) output_format quality
                            overwrite mod_value output_path) st)
        with (convert_tif (OsPath.join root d) output_format quality
                overwrite mod_value output_path st0).
      destruct (convert_tif_log (OsPath.join root d) output_format quality overwrite
                  mod_value output_path st0) as (e1 & E1 & Q1).
      destruct (convert_tif _ _ _ _ _ _ st0) as [st1 [[]|e]]; simpl in E1.
      * destruct (IH st1) as (e2 & E2 & V2 & [rest R2] & O2).
        exists (Print p :: Enter_convert_tif (OsPath.join root d) :: e1 ++ e2)%list.
        rewrite visits_cons_print, visits_cons_enter, calls_cons_print,
          calls_cons_enter, visits_app, calls_app, (quiet_visits _ Q1),
          (quiet_calls _ Q1).
        cbn [map app]. split; [|split; [|split]].
        -- rewrite E2, E1. subst st0. simpl. now rewrite <- !app_assoc.
        -- exact V2.
        -- exists rest. now rewrite <- R2.
        -- intros HO. f_equal. now apply O2.
      * exists (Print p :: Enter_convert_tif (OsPath.join root d) :: e1).
        rewrite visits_cons_print, visits_cons_enter, calls_cons_print,
          calls_cons_enter, (quiet_visits _ Q1), (quiet_calls _ Q1).
        cbn [map app]. split; [|split; [|split]].
        -- simpl fst. rewrite E1. now rewrite <- !app_assoc.
        -- reflexivity.
        -- eexists. reflexivity.
        -- simpl. discriminate.
    + simpl ret. cbv beta iota. apply IH.
Qed.

Lemma visit_unfold root dirs st :
  Py.endswith root ".zarr" = false ->
  Py.contains target_types (OsPath.basename root) = true ->
  visit target_types output_format quality overwrite mod_value output_path root dirs st
  = ((if negb (String.eqb (OsPath.basename root) "layers")
      then convert_subfolders output_format quality overwrite mod_value output_path root dirs
      else convert_tif root output_format quality overwrite mod_value output_path) ;;
     print Time_to_complete_folder ;; ret dirs)
      (mk_state (fs st) (log st ++ [Visit root])).
Proof.
  intros Hz Hc. unfold visit. unfold bind at 1, emit at 1. now rewrite Hz, Hc.
Qed.

End Visit.




(** ** Pruning at [.zarr] directories *)

Section Pruning.

Context {L : Libs}.

Variables (target_types : list string) (output_format : string) (quality : Z)
  (overwrite : bool) (mod_value output_path : option string).

Lemma emits_for_each_in {A} P (l : list A) (body : A -> M unit) :
  (forall x, In x l -> emits P (body x)) -> emits P (for_each l body).
Proof.
  induction l as [|x l IH]; intros Hb; simpl; [apply emits_ret|].
  apply emits_bind; [apply Hb; now left|]. intros _. apply IH.
  intros y Hy. apply Hb. now right.
Qed.

Lemma emits_convert_tif src :
  emits (fun e => e = Enter_convert_tif src \/ quiet e)
    (convert_tif src output_format quality overwrite mod_value output_path).
Proof.
  intros st. destruct (convert_tif_log src output_format quality overwrite
                         mod_value output_path st) as (evs & E & Q).
  exists (Enter_convert_tif src :: evs). split; [exact E|].
  constructor; [now left|]. eapply Forall_impl; [|exact Q]. intros e He. now right.
Qed.

Lemma quiet_visit_event root dirs e : quiet e -> visit_event root dirs e.
Proof. destruct e; simpl; auto; contradiction. Qed.

Lemma emits_visit root dirs :
  emits (visit_event root dirs)
    (visit target_types output_format quality overwrite mod_value output_path
       root dirs).
Proof.
  unfold visit. apply emits_bind; [now apply emits_emit|]. intros _.
  destruct (Py.endswith root ".zarr") eqn:Hz; [apply emits_ret|].
  apply emits_if; [|apply emits_ret].
  apply emits_bind.
  - apply emits_if.
    + apply emits_for_each_in. intros d Hd. apply emits_if; [|apply emits_ret].
      apply emits_bind; [now apply emits_emit|]. intros _.
      eapply emits_weaken; [|apply emits_convert_tif].
      intros e [->|Hq]; [|now apply quiet_visit_event].
      simpl. split; [exact Hz|]. right. now exists d.
    + eapply emits_weaken; [|apply emits_convert_tif].
      intros e [->|Hq]; [|now apply quiet_visit_event].
      simpl. split; [exact Hz|]. now left.
  - intros _. apply emits_bind; [now apply emits_emit|]. intros _. apply emits_ret.
Qed.

Lemma visit_result root dirs st dirs' :
  snd (visit target_types output_format quality overwrite mod_value output_path
         root dirs st) = Ok dirs' ->
  if Py.endswith root ".zarr" then dirs' = [] else dirs' = dirs.
Proof.
  unfold visit. unfold bind at 1, emit at 1.
  destruct (Py.endswith root ".zarr"); [simpl; congruence|].
  destruct (Py.contains _ _); [|simpl; congruence].
  unfold bind. destruct (if negb _ then _ else _) as [st1 [[]|e]]; simpl; congruence.
Qed.

Lemma reached_root root : reached_outside_zarr root root.
Proof.
  exists []. split; [reflexivity|]. split; [constructor|]. simpl. intros k Hk. lia.
Qed.

Lemma reached_child root top d :
  reached_outside_zarr root top ->
  Py.endswith top ".zarr" = false ->
  slash_free d = true ->
  reached_outside_zarr root (OsPath.join top d).
Proof.
  intros (comps & -> & F & H) Hz Hd. exists (comps ++ [d])%list. split; [|split].
  - unfold under. now rewrite fold_left_app.
  - apply Forall_app. split; [exact F|]. now constructor.
  - intros k Hk. rewrite length_app in Hk. simpl in Hk.
    destruct (Nat.eq_dec k (List.length comps)) as [->|Hne].
    + rewrite firstn_app, Nat.sub_diag, firstn_all. simpl. now rewrite app_nil_r.
    + rewrite firstn_app. replace (k - List.length comps)%nat with 0%nat by lia.
      simpl. rewrite app_nil_r. apply H. lia.
Qed.

Lemma visit_event_traced root top dirs e :
  reached_outside_zarr root top ->
  Forall (fun d => slash_free d = true) dirs ->
  visit_event top dirs e -> traced_outside_zarr root e.
Proof.
  intros Ht Hd. destruct e; simpl; auto.
  - intros [Hz [->|(d & Hin & ->)]]; [exact Ht|].
    apply reached_child; auto. rewrite Forall_forall in Hd. now apply Hd.
  - now intros ->.
Qed.

End Pruning.

(** C8.  The tree [foo.zarr/bar/layers/0.tif] walked from the root
    ["foo.zarr/"]: the path of the root does not end in [.zarr], line 101
    does not prune, and [layers] inside [foo.zarr] is visited and converted.
    From the root ["foo.zarr"] the same tree is pruned. *)
Theorem zarr_root_with_trailing_slash_is_walked :
  let run root :=
    @process_specific_folders Sample.toy 3 root ["layers"] "jpg" 95 false None None
      (Sample.initial Sample.zarr_tree) in
  snd (run "foo.zarr/") = Some (Ok tt)
  /\ visits (log (fst (run "foo.zarr/")))
     = ["foo.zarr/"; "foo.zarr/bar"; "foo.zarr/bar/layers"]
  /\ calls (log (fst (run "foo.zarr/"))) = ["foo.zarr/bar/layers"]
  /\ Fs.listdir (fs (fst (run "foo.zarr/"))) [] "foo.zarr/bar/layers_jpg"
     = Some ["0.jpg"]
  /\ run "foo.zarr"
     = (mk_state Sample.zarr_tree [Visit "foo.zarr"], Some (Ok tt)).
Proof. repeat split. Qed.

(** ** Trees: lookups after an update *)

Module FsFacts.

Import Fs.
Local Open Scope list_scope.

Lemma find_put_entry es c x c0 :
  find_entry (put_entry es c x) c0
  = if String.eqb c c0 then Some x else find_entry es c0.
Proof.
  induction es as [|[n y] es IH]; simpl.
  - reflexivity.
  - destruct (String.eqb_spec n c) as [->|Hn]; simpl.
    + destruct (String.eqb_spec c c0); reflexivity.
    + destruct (String.eqb_spec n c0) as [->|Hn0]; [|exact IH].
      destruct (String.eqb_spec c c0); [congruence|reflexivity].
Qed.

Lemma names_put_entry es c x :
  map fst (put_entry es c x)
  = match find_entry es c with
    | Some _ => map fst es
    | None => (map fst es ++ [c])%list
    end.
Proof.
  induction es as [|[n y] es IH]; simpl; [reflexivity|].
  destruct (String.eqb_spec n c) as [->|Hn]; simpl; [reflexivity|].
  rewrite IH. now destruct (find_entry es c).
Qed.

Lemma lookup_leaf x c q : leaf x -> lookup x (c :: q) = None.
Proof. destruct x as [b|es]; simpl; [reflexivity|]. now intros ->. Qed.

Lemma lookup_app t p q :
  lookup t (p ++ q) = match lookup t p with
                       | Some y => lookup y q
                       | None => None
                       end.
Proof.
  revert t. induction p as [|c p IH]; intros t; simpl; [reflexivity|].
  destruct t as [b|es]; [reflexivity|].
  destruct (find_entry es c); [apply IH|reflexivity].
Qed.

(** The tree after a leaf was put at a location [p ++ [c]] that was free, in
    a directory [p]: location by location. *)
Lemma lookup_set_fresh x c : leaf x -> forall p t,
  is_dir t p = true ->
  present t (p ++ [c]) = false ->
  forall q,
    match lookup t q with
    | Some (File b) => lookup (set_at t (p ++ [c]) x) q = Some (File b)
    | Some (Dir es) =>
        exists es',
          lookup (set_at t (p ++ [c]) x) q = Some (Dir es')
          /\ (map fst es' = map fst es
              \/ (q = p /\ map fst es' = (map fst es ++ [c])%list))
    | None =>
        (q = (p ++ [c])%list /\ lookup (set_at t (p ++ [c]) x) q = Some x)
        \/ lookup (set_at t (p ++ [c]) x) q = None
    end.
Proof.
  intros Hx. induction p as [|d p IH]; intros t Hd Hf q.
  - (* the directory is [t] itself *)
    unfold is_dir in Hd. simpl in Hd. destruct t as [b|es]; [discriminate|].
    unfold present in Hf. simpl in Hf.
    destruct (find_entry es c) as [y|] eqn:Ec; [discriminate|].
    simpl. rewrite Ec. destruct q as [|c0 q]; simpl.
    + eexists. split; [reflexivity|]. right. split; [reflexivity|].
      now rewrite names_put_entry, Ec.
    + rewrite find_put_entry. destruct (String.eqb_spec c c0) as [<-|Hne].
      * rewrite Ec. destruct q as [|c1 q]; [left; auto|].
        right. now apply lookup_leaf.
      * destruct (find_entry es c0) as [y|]; [|now right].
        destruct (lookup y q) as [[b|es']|]; auto.
        eexists. split; [reflexivity|]. now left.
  - unfold is_dir in Hd. simpl in Hd. destruct t as [b|es]; [discriminate|].
    destruct (find_entry es d) as [y|] eqn:Ed; [|discriminate].
    unfold present in Hf. simpl in Hf. rewrite Ed in Hf.
    specialize (IH y Hd Hf).
    simpl. rewrite Ed. destruct q as [|c0 q]; simpl.
    + eexists. split; [reflexivity|]. left. now rewrite names_put_entry, Ed.
    + rewrite find_put_entry. destruct (String.eqb_spec d c0) as [<-|Hne].
      * rewrite Ed. specialize (IH q).
        destruct (lookup y q) as [[b|es']|].
        -- exact IH.
        -- destruct IH as (es'' & E & [H|[-> H]]); exists es''; split; auto.
        -- destruct IH as [[-> H]|H]; auto.
      * destruct (find_entry es c0) as [y0|]; [|now right].
        destruct (lookup y0 q) as [[b|es']|]; auto.
        eexists. split; [reflexivity|]. now left.
Qed.

Lemma lookup_set_fresh_same x c p t :
  is_dir t p = true ->
  present t (p ++ [c]) = false ->
  lookup (set_at t (p ++ [c]) x) (p ++ [c]) = Some x.
Proof.
  revert t. induction p as [|d p IH]; intros t Hd Hf.
  - unfold is_dir in Hd. simpl in Hd. destruct t as [b|es]; [discriminate|].
    unfold present in Hf. simpl in Hf.
    destruct (find_entry es c) as [y|] eqn:Ec; [discriminate|].
    simpl. rewrite Ec. simpl. now rewrite find_put_entry, String.eqb_refl.
  - unfold is_dir in Hd. simpl in Hd. destruct t as [b|es]; [discriminate|].
    destruct (find_entry es d) as [y|] eqn:Ed; [|discriminate].
    unfold present in Hf. simpl in Hf. rewrite Ed in Hf.
    simpl. rewrite Ed. simpl. rewrite find_put_entry, String.eqb_refl.
    now apply IH.
Qed.

(** Resolution only looks at which locations are directories. *)
Lemma canon_ext t t' comps : forall cur,
  (forall q, is_dir t' q = is_dir t q) ->
  canon t' cur comps = canon t cur comps.
Proof.
  induction comps as [|c comps IH]; intros cur H; simpl; [reflexivity|].
  rewrite H. destruct (is_dir t cur); simpl; [|reflexivity].
  destruct (is_dot c); [now apply IH|].
  destruct (String.eqb c ".."); now apply IH.
Qed.

Lemma resolve_ext t t' cwd0 p :
  (forall q, is_dir t' q = is_dir t q) ->
  resolve t' cwd0 p = resolve t cwd0 p.
Proof.
  intros H. unfold resolve. destruct (String.eqb p ""); [reflexivity|].
  now apply canon_ext.
Qed.

Lemma canon_snoc t c : regular c = true -> forall comps cur l,
  canon t cur (comps ++ [c]) = Some l ->
  exists parent, l = (parent ++ [c])%list /\ is_dir t parent = true.
Proof.
  intros Hc. unfold regular in Hc. apply andb_true_iff in Hc.
  destruct Hc as [H1 H2]. apply negb_true_iff in H1, H2.
  induction comps as [|d comps IH]; intros cur l; simpl.
  - rewrite H1, H2. destruct (is_dir t cur) eqn:Hd; simpl; [|discriminate].
    intros H. injection H as <-. eauto.
  - destruct (is_dir t cur); simpl; [|discriminate].
    destruct (is_dot d); [apply IH|]. destruct (String.eqb d ".."); apply IH.
Qed.

End FsFacts.

(** ** [os.makedirs] *)

Module MakedirsFacts.

Import Fs FsFacts.
Local Open Scope list_scope.

Lemma set_dir_is_dir t p c q :
  is_dir t p = true ->
  present t (p ++ [c]) = false ->
  is_dir t q = true ->
  is_dir (set_at t (p ++ [c]) (Dir [])) q = true.
Proof.
  intros Hd Hf Hq. unfold is_dir in Hq |- *.
  pose proof (lookup_set_fresh (Dir []) c eq_refl p t Hd Hf q) as H.
  destruct (lookup t q) as [[b|es]|]; try discriminate.
  destruct H as (es' & -> & _). reflexivity.
Qed.

Lemma set_dir_new t p c :
  is_dir t p = true ->
  present t (p ++ [c]) = false ->
  is_dir (set_at t (p ++ [c]) (Dir [])) (p ++ [c]) = true.
Proof.
  intros Hd Hf. unfold is_dir. now rewrite lookup_set_fresh_same.
Qed.

Lemma mkdirs_monotone comps : forall t cur fr t' b,
  mkdirs t cur fr comps = (t', b) ->
  forall q, is_dir t q = true -> is_dir t' q = true.
Proof.
  induction comps as [|c comps IH]; intros t cur fr t' b; simpl.
  - intros H. injection H as <- _. auto.
  - destruct (is_dir t cur) eqn:Hd; simpl; [|intros H; injection H as <- _; auto].
    destruct (is_dot c); [apply IH|].
    destruct (String.eqb c ".."); [apply IH|].
    destruct (present t (cur ++ [c])) eqn:Hp; [apply IH|].
    intros H q Hq. eapply IH; [exact H|]. now apply set_dir_is_dir.
Qed.

(** When [mkdirs] succeeds, the path resolves and what it names is there. *)
Lemma mkdirs_post comps : forall t cur fr t',
  (fr = true -> is_dir t cur = true) ->
  mkdirs t cur fr comps = (t', true) ->
  exists l, canon t' cur comps = Some l /\ present t' l = true.
Proof.
  induction comps as [|c comps IH]; intros t cur fr t' Hfr; simpl.
  - intros H. injection H as <- ->. exists cur. split; [reflexivity|].
    specialize (Hfr eq_refl). unfold is_dir in Hfr. unfold present.
    now destruct (lookup t cur).
  - destruct (is_dir t cur) eqn:Hd; simpl; [|discriminate].
    intros H.
    assert (Hd' : is_dir t' cur = true).
    { destruct (is_dot c); [eapply mkdirs_monotone; eauto|].
      destruct (String.eqb c ".."); [eapply mkdirs_monotone; eauto|].
      destruct (present t (cur ++ [c])) eqn:Hp; [eapply mkdirs_monotone; eauto|].
      eapply mkdirs_monotone; [exact H|]. now apply set_dir_is_dir. }
    rewrite Hd'. simpl.
    destruct (is_dot c); [now apply (IH t cur fr)|].
    destruct (String.eqb c ".."); [apply (IH t _ false); [discriminate|exact H]|].
    destruct (present t (cur ++ [c])) eqn:Hp.
    + apply (IH t _ false); [discriminate|exact H].
    + apply (IH (set_at t (cur ++ [c]) (Dir [])) _ true); [|exact H].
      intros _. now apply set_dir_new.
Qed.

Lemma makedirs_exists t cwd0 p t' :
  makedirs t cwd0 p = (t', true) -> path_exists t' cwd0 p = true.
Proof.
  unfold makedirs, path_exists, resolve.
  destruct (String.eqb p ""); [discriminate|].
  intros H. apply mkdirs_post in H; [|discriminate].
  destruct H as (l & -> & Hl). exact Hl.
Qed.

End MakedirsFacts.

Example makedirs_examples :
  let t := Fs.Dir [("out_jpg", Fs.Dir []); ("f", Fs.File "")] in
  Fs.path_exists t [] "new/../out_jpg" = false
  /\ Fs.makedirs t [] "new/../out_jpg"
     = (Fs.Dir [("out_jpg", Fs.Dir []); ("f", Fs.File ""); ("new", Fs.Dir [])], false)
  /\ Fs.makedirs t [] "gone/../d_jpg"
     = (Fs.Dir [("out_jpg", Fs.Dir []); ("f", Fs.File ""); ("gone", Fs.Dir []);
                ("d_jpg", Fs.Dir [])], true)
  /\ snd (Fs.makedirs t [] "a/.") = true
  /\ snd (Fs.makedirs t [] "out_jpg/.") = false
  /\ Fs.makedirs t [] "b/c/"
     = (Fs.Dir [("out_jpg", Fs.Dir []); ("f", Fs.File ""); ("b", Fs.Dir [("c", Fs.Dir [])])],
        true)
  /\ Fs.makedirs t [] "f/x" = (t, false)
  /\ Fs.makedirs t [] "f" = (t, false)
  /\ Fs.makedirs t [] "f/../zz" = (t, false)
  /\ Fs.makedirs t [] "x/../f/y"
     = (Fs.Dir [("out_jpg", Fs.Dir []); ("f", Fs.File ""); ("x", Fs.Dir [])], false).
Proof. repeat split. Qed.

(** ** The last name of a resolved path *)

Lemma join_suffix a b : exists pre, OsPath.join a b = pre ++ b.
Proof.
  unfold OsPath.join. destruct (Py.startswith b "/"); [now exists ""|].
  destruct (_ || _); [now exists a|]. exists (a ++ "/"). now rewrite append_assoc.
Qed.

Lemma last_char_join a b c :
  last_char b = Some c -> last_char (OsPath.join a b) = Some c.
Proof.
  intros H. destruct (join_suffix a b) as [pre ->]. now apply last_char_suffix.
Qed.

Lemma split_on_nonempty sep s : OsPath.split_on sep s <> [].
Proof.
  destruct s as [|c s]; simpl; [discriminate|].
  destruct (Ascii.eqb c sep); [discriminate|].
  destruct (OsPath.split_on sep s); discriminate.
Qed.

Lemma split_on_cons sep c s :
  OsPath.split_on sep (String c s)
  = if Ascii.eqb c sep then EmptyString :: OsPath.split_on sep s
    else match OsPath.split_on sep s with
         | h :: t => String c h :: t
         | [] => [String c EmptyString]
         end.
Proof. reflexivity. Qed.

Lemma last_char_cons c h x : last_char h = Some x -> last_char (String c h) = Some x.
Proof. destruct h; [discriminate|]. auto. Qed.

(** The last component of a path ends like the path. *)
Lemma last_component_last_char p : forall x,
  last_char p = Some x -> x <> "/"%char ->
  last_char (last (OsPath.split_on "/" p) "") = Some x.
Proof.
  induction p as [|c p IH]; intros x Hx Hne; [discriminate|].
  destruct p as [|d p].
  - simpl in Hx. injection Hx as ->. simpl.
    destruct (Ascii.eqb_spec x "/"); [contradiction|]. reflexivity.
  - change (last_char (String d p) = Some x) in Hx. specialize (IH x Hx Hne).
    pose proof (split_on_nonempty "/" (String d p)) as Hn.
    rewrite (split_on_cons "/" c (String d p)).
    destruct (OsPath.split_on "/" (String d p)) as [|h t]; [contradiction|].
    destruct (Ascii.eqb c "/").
    + exact IH.
    + destruct t as [|h' t]; [|exact IH]. simpl in IH |- *. now apply last_char_cons.
Qed.

Lemma regular_last_char c x :
  last_char c = Some x -> x <> "."%char -> regular c = true.
Proof.
  intros Hx Hne. unfold regular, Fs.is_dot.
  destruct (String.eqb_spec c "") as [->|_]; [discriminate|].
  destruct (String.eqb_spec c ".") as [->|_];
    [simpl in Hx; injection Hx as <-; contradiction|].
  destruct (String.eqb_spec c "..") as [->|_];
    [simpl in Hx; injection Hx as <-; contradiction|]. reflexivity.
Qed.

Lemma resolve_last t cwd0 p l x :
  Fs.resolve t cwd0 p = Some l ->
  last_char p = Some x -> x <> "/"%char -> x <> "."%char ->
  exists parent c,
    l = (parent ++ [c])%list /\ Fs.is_dir t parent = true /\ last_char c = Some x.
Proof.
  unfold Fs.resolve. destruct (String.eqb p ""); [discriminate|].
  intros Hr Hx H1 H2.
  pose proof (last_component_last_char p x Hx H1) as Hc.
  rewrite (app_removelast_last "" (split_on_nonempty "/" p)) in Hr.
  apply FsFacts.canon_snoc in Hr; [|eapply regular_last_char; eauto].
  destruct Hr as (parent & -> & Hd). eauto.
Qed.

Lemma lower_ascii_f x : Py.lower_ascii x = "f"%char -> x = "f"%char \/ x = "F"%char.
Proof.
  destruct x as [[] [] [] [] [] [] [] []]; vm_compute; intros H;
    try discriminate; auto.
Qed.

Lemma tif_name_last_char f :
  is_tif_name f = true -> last_char f = Some "f"%char \/ last_char f = Some "F"%char.
Proof.
  unfold is_tif_name, Py.endswith_any. simpl. rewrite orb_false_r.
  intros H. apply andb_true_iff in H. destruct H as [H _].
  assert (Hl : last_char (Py.lower f) = Some "f"%char).
  { apply orb_true_iff in H. destruct H as [H|H];
      eapply endswith_last_char; eauto; reflexivity. }
  rewrite last_char_lower in Hl. destruct (last_char f) as [x|]; [|discriminate].
  simpl in Hl. injection Hl as Hl. apply lower_ascii_f in Hl. destruct Hl as [->| ->]; auto.
Qed.

Lemma not_tif_name c : last_char c = Some "g"%char -> is_tif_name c = false.
Proof.
  intros H. destruct (is_tif_name c) eqn:E; [|reflexivity].
  apply tif_name_last_char in E. destruct E as [E|E]; congruence.
Qed.

(** ** Trees that differ by converted files *)

Module Grows.

Import Fs FsFacts.
Local Open Scope list_scope.

Lemma grows_refl t : grows t t.
Proof.
  intros q. destruct (lookup t q) as [[b|es]|]; eauto.
Qed.

Lemma grows_trans t1 t2 t3 : grows t1 t2 -> grows t2 t3 -> grows t1 t3.
Proof.
  intros H12 H23 q. specialize (H12 q). specialize (H23 q).
  destruct (lookup t1 q) as [[b|es]|].
  - now rewrite H12 in H23.
  - destruct H12 as (es' & E & F). rewrite E in H23.
    destruct H23 as (es'' & E' & F'). exists es''. split; [exact E'|congruence].
  - destruct H12 as [E|(b & E & G)]; rewrite E in H23; [exact H23|].
    right. eauto.
Qed.

Lemma grows_is_dir t t' q : grows t t' -> is_dir t' q = is_dir t q.
Proof.
  intros H. specialize (H q). unfold is_dir.
  destruct (lookup t q) as [[b|es]|].
  - now rewrite H.
  - destruct H as (es' & -> & _). reflexivity.
  - destruct H as [->|(b & -> & _)]; reflexivity.
Qed.

Lemma grows_present t t' q : grows t t' -> present t q = true -> present t' q = true.
Proof.
  intros H. specialize (H q). unfold present.
  destruct (lookup t q) as [[b|es]|]; [| |discriminate]; intros _.
  - now rewrite H.
  - destruct H as (es' & -> & _). reflexivity.
Qed.

Lemma grows_resolve t t' cwd0 p : grows t t' -> resolve t' cwd0 p = resolve t cwd0 p.
Proof. intros H. apply resolve_ext. intros q. now apply grows_is_dir. Qed.

Lemma grows_path_exists t t' cwd0 p :
  grows t t' -> path_exists t cwd0 p = true -> path_exists t' cwd0 p = true.
Proof.
  intros H. unfold path_exists. rewrite (grows_resolve _ _ _ _ H).
  destruct (resolve t cwd0 p); [|discriminate]. now apply grows_present.
Qed.

(** Writing a new file whose name ends in [g]. *)
Lemma grows_write t p c b :
  is_dir t p = true ->
  present t (p ++ [c]) = false ->
  last_char c = Some "g"%char ->
  grows t (set_at t (p ++ [c]) (File b)).
Proof.
  intros Hd Hf Hg q.
  pose proof (lookup_set_fresh (File b) c I p t Hd Hf q) as H.
  destruct (lookup t q) as [[b0|es]|].
  - exact H.
  - destruct H as (es' & E & [F|[-> F]]); exists es'; split; auto; rewrite F; auto.
    rewrite filter_app. simpl. rewrite (not_tif_name _ Hg). now rewrite app_nil_r.
  - destruct H as [[-> E]|E]; [|now left]. right. exists b. split; [exact E|].
    now rewrite last_last.
Qed.

(** The entries of a directory that are TIFF names do not change. *)
Lemma grows_listdir t t' cwd0 p :
  grows t t' ->
  match listdir t cwd0 p with
  | Some names =>
      exists names', listdir t' cwd0 p = Some names'
                     /\ filter is_tif_name names' = filter is_tif_name names
  | None => listdir t' cwd0 p = None
  end.
Proof.
  intros H. unfold listdir. rewrite (grows_resolve _ _ _ _ H).
  destruct (resolve t cwd0 p) as [l|]; [|reflexivity].
  specialize (H l). destruct (lookup t l) as [[b|es]|].
  - now rewrite H.
  - destruct H as (es' & -> & F). eauto.
  - destruct H as [->|(b & -> & _)]; reflexivity.
Qed.

(** A file whose name does not end in [g] reads the same. *)
Lemma grows_read_file t t' cwd0 p x :
  grows t t' ->
  last_char p = Some x -> x <> "/"%char -> x <> "."%char -> x <> "g"%char ->
  read_file t' cwd0 p = read_file t cwd0 p.
Proof.
  intros H Hx H1 H2 H3. unfold read_file. rewrite (grows_resolve _ _ _ _ H).
  destruct (resolve t cwd0 p) as [l|] eqn:Hr; [|reflexivity].
  destruct (resolve_last _ _ _ _ _ Hr Hx H1 H2) as (parent & c & -> & _ & Hc).
  specialize (H (parent ++ [c])). destruct (lookup t (parent ++ [c])) as [[b|es]|].
  - now rewrite H.
  - destruct H as (es' & -> & _). reflexivity.
  - destruct H as [->|(b & _ & G)]; [reflexivity|].
    rewrite last_last in G. congruence.
Qed.

End Grows.

(** ** What the Folder Converter does to the file system *)

Section Jobs.

Context {L : Libs}.

Variables (dest_folder output_format : string) (quality : Z).

Local Abbreviation codec_of := (codec_of output_format quality).
Local Abbreviation job_write := (job_write dest_folder output_format quality).
Local Abbreviation job := (job dest_folder output_format quality).
Local Abbreviation run_jobs := (run_jobs dest_folder output_format quality).

Lemma open_write_fresh t d l :
  Fs.path_exists t cwd d = false ->
  Fs.open_write t cwd d = Some l ->
  Fs.resolve t cwd d = Some l /\ Fs.present t l = false.
Proof.
  unfold Fs.path_exists, Fs.open_write, Fs.present.
  destruct (Fs.resolve t cwd d) as [l'|]; [|intros _ H; discriminate H].
  destruct (Fs.lookup t l') as [[b|es]|] eqn:El; intros He Ho; try discriminate.
  injection Ho as <-. now rewrite El.
Qed.

Lemma Image_save_fs img d c st :
  Fs.path_exists (fs st) cwd d = false ->
  fs (fst (Image_save img d c st))
  = match Fs.open_write (fs st) cwd d with
    | Some l =>
        match encode c img with
        | Some b => Fs.set_at (fs st) l (Fs.File b)
        | None => fs st
        end
    | None => fs st
    end.
Proof.
  intros He. unfold Image_save, bind, emit. simpl.
  destruct (Fs.open_write (fs st) cwd d) as [l|] eqn:Ho; [|reflexivity].
  destruct (encode c img); [reflexivity|].
  destruct (open_write_fresh _ _ _ He Ho) as [_ ->]. reflexivity.
Qed.

Lemma convert_single_tif_fs file_path st :
  fs (fst (convert_single_tif file_path dest_folder output_format quality false st))
  = job (fs st) file_path.
Proof.
  unfold job, job_write, convert_single_tif, try_except, codec_of.
  unfold bind at 1, os_path_exists at 1. cbn [negb andb].
  destruct (Fs.path_exists (fs st) cwd
              (dest_file_path_of file_path dest_folder output_format)) eqn:He;
    [reflexivity|].
  unfold bind at 1, tifffile_imread at 1, bind at 1, emit at 1. cbn [fs].
  destruct (Fs.read_file (fs st) cwd file_path) as [bytes|]; [|reflexivity].
  destruct (decode_tiff bytes) as [a|]; [|reflexivity].
  unfold bind at 1, Image_fromarray at 1.
  destruct (fromarray_ok (to_8bit a)); [|reflexivity].
  unfold ret at 1.
  set (st' := mk_state (fs st) (log st ++ [Imread file_path])).
  assert (He' : Fs.path_exists (fs st') cwd
                  (dest_file_path_of file_path dest_folder output_format) = false)
    by exact He.
  destruct (String.eqb output_format "jpg").
  - pose proof (Image_save_fs (to_8bit a) _ (JPEG quality) st' He') as H.
    destruct (Image_save _ _ _ st') as [s2 [[]|e]]; simpl in H |- *; rewrite H;
      cbn [fs st']; destruct (Fs.open_write (fs st) cwd _); try reflexivity;
      destruct (encode _ _); reflexivity.
  - destruct (String.eqb output_format "png"); [|reflexivity].
    pose proof (Image_save_fs (to_8bit a) _ PNG st' He') as H.
    destruct (Image_save _ _ _ st') as [s2 [[]|e]]; simpl in H |- *; rewrite H;
      cbn [fs st']; destruct (Fs.open_write (fs st) cwd _); try reflexivity;
      destruct (encode _ _); reflexivity.
Qed.

Lemma for_each_submit_fs files st :
  fs (fst (for_each files (fun f => emit (Submit f)) st)) = fs st
  /\ snd (for_each files (fun f => emit (Submit f)) st) = Ok tt.
Proof.
  revert st. induction files as [|f files IH]; intros st; [auto|].
  rewrite for_each_cons.
  destruct (IH (mk_state (fs st) (log st ++ [Submit f]))) as [H1 H2].
  split; [exact H1|exact H2].
Qed.

Lemma for_each_jobs_fs files : forall st,
  fs (fst (for_each files (fun f =>
             convert_single_tif f dest_folder output_format quality false) st))
  = run_jobs (fs st) files.
Proof.
  induction files as [|f files IH]; intros st; [reflexivity|].
  rewrite for_each_cons.
  pose proof (convert_single_tif_returns f dest_folder output_format quality false st) as Hr.
  pose proof (convert_single_tif_fs f st) as Hf.
  destruct (convert_single_tif _ _ _ _ _ st) as [st' r]. simpl in Hr, Hf. subst r.
  rewrite IH, Hf. reflexivity.
Qed.

Lemma run_pool_fs files st :
  fs (fst (run_pool files dest_folder output_format quality false st))
  = run_jobs (fs st) files.
Proof.
  unfold run_pool, bind. destruct (for_each_submit_fs files st) as [Hf Hr].
  destruct (for_each files _ st) as [st' r]. simpl in Hf, Hr. subst r.
  now rewrite for_each_jobs_fs, Hf.
Qed.

Lemma last_char_dest file_path c :
  codec_of = Some c ->
  last_char (dest_file_path_of file_path dest_folder output_format) = Some "g"%char.
Proof.
  unfold codec_of, dest_file_path_of. intros H. apply last_char_join.
  destruct (String.eqb_spec output_format "jpg") as [->|_].
  - rewrite <- append_assoc. apply last_char_suffix. reflexivity.
  - destruct (String.eqb_spec output_format "png") as [->|_]; [|discriminate].
    rewrite <- append_assoc. apply last_char_suffix. reflexivity.
Qed.

Lemma job_write_grows t file_path l b :
  job_write t file_path = Some (l, b) ->
  grows t (Fs.set_at t l (Fs.File b))
  /\ Fs.path_exists (Fs.set_at t l (Fs.File b)) cwd
       (dest_file_path_of file_path dest_folder output_format) = true.
Proof.
  unfold job_write.
  destruct (Fs.path_exists t cwd
              (dest_file_path_of file_path dest_folder output_format)) eqn:He;
    [discriminate|].
  destruct (Fs.read_file t cwd file_path) as [bytes|]; [|discriminate].
  destruct (decode_tiff bytes) as [a|]; [|discriminate].
  destruct (fromarray_ok (to_8bit a)); [|discriminate].
  destruct codec_of as [c|] eqn:Hc; [|discriminate].
  destruct (Fs.open_write t cwd
              (dest_file_path_of file_path dest_folder output_format))
    as [l'|] eqn:Ho; [|discriminate].
  destruct (encode c (to_8bit a)) as [b'|]; [|discriminate].
  intros H. injection H as -> ->.
  destruct (open_write_fresh _ _ _ He Ho) as [Hr Hp].
  destruct (resolve_last _ _ _ _ "g"%char Hr (last_char_dest file_path c Hc))
    as (parent & n & -> & Hd & Hn); try discriminate.
  assert (G : grows t (Fs.set_at t (parent ++ [n])%list (Fs.File b)))
    by now apply Grows.grows_write.
  split; [exact G|]. unfold Fs.path_exists.
  rewrite (Grows.grows_resolve _ _ _ _ G), Hr. unfold Fs.present.
  now rewrite FsFacts.lookup_set_fresh_same.
Qed.

Lemma job_grows t file_path : grows t (job t file_path).
Proof.
  unfold job. destruct (job_write t file_path) as [[l b]|] eqn:E.
  - now apply job_write_grows in E.
  - apply Grows.grows_refl.
Qed.

Lemma run_jobs_grows files : forall t, grows t (run_jobs t files).
Proof.
  induction files as [|f files IH]; intros t; [apply Grows.grows_refl|].
  eapply Grows.grows_trans; [apply job_grows|apply IH].
Qed.

(** A job that writes nothing still writes nothing after other files were
    converted. *)
Lemma job_write_stable t t' file_path :
  grows t t' -> tif_path file_path ->
  job_write t file_path = None -> job_write t' file_path = None.
Proof.
  intros G Hp. unfold job_write.
  destruct (Fs.path_exists t' cwd
              (dest_file_path_of file_path dest_folder output_format)) eqn:He';
    [reflexivity|].
  destruct (Fs.path_exists t cwd (dest_file_path_of file_path dest_folder output_format)) eqn:He;
    [apply (Grows.grows_path_exists _ _ _ _ G) in He; congruence|].
  assert (Hread : Fs.read_file t' cwd file_path = Fs.read_file t cwd file_path).
  { destruct Hp as [Hp|Hp]; eapply Grows.grows_read_file; eauto; discriminate. }
  rewrite Hread.
  destruct (Fs.read_file t cwd file_path) as [bytes|]; [|reflexivity].
  destruct (decode_tiff bytes) as [a|]; [|reflexivity].
  destruct (fromarray_ok (to_8bit a)); [|reflexivity].
  destruct codec_of as [c|]; [|reflexivity].
  destruct (encode c (to_8bit a)) as [b|].
  - destruct (Fs.open_write t cwd _) as [l|] eqn:Ho; [discriminate|].
    intros _.
    assert (Hr : Fs.resolve t cwd
                   (dest_file_path_of file_path dest_folder output_format) = None).
    { unfold Fs.open_write in Ho. unfold Fs.path_exists, Fs.present in He.
      destruct (Fs.resolve t cwd _) as [l|]; [|reflexivity].
      destruct (Fs.lookup t l) as [[b0|es]|]; discriminate. }
    unfold Fs.open_write. now rewrite (Grows.grows_resolve _ _ _ _ G), Hr.
  - intros _. now destruct (Fs.open_write t' cwd _).
Qed.

Lemma job_stable t t' file_path :
  tif_path file_path -> grows (job t file_path) t' ->
  job_write t' file_path = None.
Proof.
  intros Hp G. unfold job in G. destruct (job_write t file_path) as [[l b]|] eqn:E.
  - apply job_write_grows in E. destruct E as [_ E].
    apply (Grows.grows_path_exists _ _ _ _ G) in E. unfold job_write. now rewrite E.
  - eapply job_write_stable; eauto.
Qed.

Lemma run_jobs_stable files : forall t,
  Forall tif_path files ->
  Forall (fun f => job_write (run_jobs t files) f = None) files.
Proof.
  induction files as [|f files IH]; intros t Hp; [constructor|].
  inversion Hp as [|? ? Hf Hrest]; subst. constructor.
  - apply (job_stable t); [exact Hf|]. apply (run_jobs_grows files (job t f)).
  - apply (IH (job t f) Hrest).
Qed.

Lemma run_jobs_noop files t :
  Forall (fun f => job_write t f = None) files -> run_jobs t files = t.
Proof.
  induction 1 as [|f files Hf _ IH]; [reflexivity|].
  unfold run_jobs in *. simpl. unfold job at 2. now rewrite Hf.
Qed.

(** A second pass over the same files changes nothing. *)
Lemma run_jobs_twice files t :
  Forall tif_path files ->
  run_jobs (run_jobs t files) files = run_jobs t files.
Proof. intros H. now apply run_jobs_noop, run_jobs_stable. Qed.

End Jobs.

(** ** Running the Folder Converter twice *)

Section Twice.

Context {L : Libs}.

Variables (source_folder output_format : string) (quality : Z)
  (mod_value output_path : option string).

Local Abbreviation ensured := (ensured source_folder output_format output_path).
Local Abbreviation filtered := (filtered mod_value).
Local Abbreviation convert_pure :=
  (convert_pure source_folder output_format quality mod_value output_path).

Lemma ensure_dest_folder_pure st :
  ensure_dest_folder (dest_folder_of source_folder output_format output_path) st
  = (mk_state (fst (ensured (fs st))) (log st),
     if snd (ensured (fs st)) then Ok tt else Raise OSError).
Proof.
  unfold ensure_dest_folder, ensured, bind, os_path_exists, os_makedirs.
  destruct (Fs.path_exists (fs st) cwd _); simpl.
  - now destruct st.
  - now destruct (Fs.makedirs (fs st) cwd _).
Qed.

Lemma modulo_filter_pure files st :
  fs (fst (modulo_filter mod_value files st)) = fs st
  /\ snd (modulo_filter mod_value files st) = filtered files.
Proof.
  unfold modulo_filter, filtered. destruct mod_value as [v|]; [|auto].
  unfold try_except_ValueError, bind, int_of, lift.
  destruct (Py.int v) as [m|]; simpl; [|auto].
  destruct (keep_multiples m files) as [kept|[]]; simpl; auto.
Qed.

Lemma candidates_pure st :
  candidates source_folder output_format output_path st
  = (mk_state (fst (ensured (fs st))) (log st ++ [Enter_convert_tif source_folder]),
     if snd (ensured (fs st)) then
       match Fs.listdir (fst (ensured (fs st))) cwd source_folder with
       | Some names => Ok (tif_files_of source_folder names)
       | None => Raise OSError
       end
     else Raise OSError).
Proof.
  unfold candidates. unfold bind at 1, emit at 1. unfold bind at 1.
  rewrite ensure_dest_folder_pure. cbn [fs log].
  destruct (ensured (fs st)) as [t1 ok]. cbn [fst snd].
  destruct ok; [|reflexivity].
  unfold bind, os_listdir, ret. cbn [fs].
  destruct (Fs.listdir t1 cwd source_folder) as [names|]; reflexivity.
Qed.

Lemma convert_tif_pure st :
  (fs (fst (convert_tif source_folder output_format quality false mod_value
              output_path st)),
   snd (convert_tif source_folder output_format quality false mod_value
          output_path st))
  = convert_pure (fs st).
Proof.
  rewrite convert_tif_unfold, candidates_pure. unfold convert_pure.
  destruct (ensured (fs st)) as [t1 ok]. cbn [fst snd].
  destruct ok; [|reflexivity].
  destruct (Fs.listdir t1 cwd source_folder) as [names|]; [|reflexivity].
  set (st1 := mk_state t1 _).
  destruct (modulo_filter_pure (tif_files_of source_folder names) st1) as [Hf Hr].
  destruct (modulo_filter _ _ st1) as [st2 r]. simpl in Hf, Hr. subst r.
  destruct (filtered _) as [kept|e]; [|simpl; now rewrite Hf].
  rewrite run_pool_fs, Hf. f_equal. apply run_pool_returns.
Qed.

Lemma ensured_exists t :
  snd (ensured t) = true ->
  Fs.path_exists (fst (ensured t)) cwd
    (dest_folder_of source_folder output_format output_path) = true.
Proof.
  unfold ensured.
  destruct (Fs.path_exists t cwd _) eqn:E; [intros _; exact E|].
  destruct (Fs.makedirs t cwd _) as [t1 ok] eqn:Em. simpl. intros ->.
  now apply MakedirsFacts.makedirs_exists in Em.
Qed.

Lemma ensured_again t :
  Fs.path_exists t cwd (dest_folder_of source_folder output_format output_path) = true ->
  ensured t = (t, true).
Proof. unfold ensured. now intros ->. Qed.

Lemma keep_multiples_incl m files kept :
  keep_multiples m files = Ok kept -> incl kept files.
Proof.
  revert kept. induction files as [|f files IH]; intros kept; simpl.
  - intros H. injection H as <-. apply incl_refl.
  - destruct (Py.int (stem f)) as [n|]; [|discriminate].
    destruct (m =? 0); [discriminate|].
    destruct (keep_multiples m files) as [k|]; [|discriminate].
    intros H. injection H as <-. specialize (IH k eq_refl).
    destruct (n mod m =? 0); [|now apply incl_tl].
    intros x [<-|Hx]; [now left|right; now apply IH].
Qed.

Lemma filtered_incl files kept : filtered files = Ok kept -> incl kept files.
Proof.
  unfold filtered. destruct mod_value as [v|];
    [|intros H; injection H as <-; apply incl_refl].
  destruct (Py.int v) as [m|]; [|intros H; injection H as <-; apply incl_refl].
  destruct (keep_multiples m files) as [k|[]] eqn:E; try discriminate;
    intros H; injection H as <-; [now apply keep_multiples_incl in E|apply incl_refl].
Qed.

Lemma tif_files_are_tif_paths names :
  Forall tif_path (tif_files_of source_folder names).
Proof.
  apply Forall_forall. intros p Hp. unfold tif_files_of in Hp.
  rewrite sorted_In, in_map_iff in Hp. destruct Hp as (f & <- & Hf).
  apply filter_In in Hf. destruct Hf as [_ Hf]. apply tif_name_last_char in Hf.
  destruct Hf as [Hf|Hf]; [left|right]; now apply last_char_join.
Qed.

Lemma kept_are_tif_paths names kept :
  filtered (tif_files_of source_folder names) = Ok kept ->
  Forall tif_path (Py.sorted kept).
Proof.
  intros H. apply filtered_incl in H. apply Forall_forall. intros p Hp.
  rewrite sorted_In in Hp. apply H in Hp.
  pose proof (tif_files_are_tif_paths names) as Ht. rewrite Forall_forall in Ht. auto.
Qed.

Lemma convert_pure_twice t :
  snd (ensured t) = true ->
  convert_pure (fst (convert_pure t)) = convert_pure t.
Proof.
  intros Hok. pose proof (ensured_exists t Hok) as He.
  unfold convert_pure at 2 3. destruct (ensured t) as [t1 ok]. simpl in Hok, He.
  subst ok.
  destruct (Fs.listdir t1 cwd source_folder) as [names|] eqn:El.
  - destruct (filtered (tif_files_of source_folder names)) as [kept|e] eqn:Ef.
    + cbn [fst].
      set (dest := dest_folder_of source_folder output_format output_path) in *.
      pose proof (run_jobs_grows dest output_format quality (Py.sorted kept) t1) as G.
      set (t2 := run_jobs dest output_format quality t1 (Py.sorted kept)) in *.
      unfold convert_pure.
      rewrite (ensured_again t2 (Grows.grows_path_exists _ _ _ _ G He)).
      pose proof (Grows.grows_listdir _ _ cwd source_folder G) as Hl.
      rewrite El in Hl. destruct Hl as (names' & -> & Hn).
      assert (Et : tif_files_of source_folder names' = tif_files_of source_folder names)
        by (unfold tif_files_of; now rewrite Hn).
      rewrite Et, Ef. f_equal. subst t2.
      apply run_jobs_twice. eapply kept_are_tif_paths; eauto.
    + cbn [fst]. unfold convert_pure. rewrite (ensured_again t1 He).
      now rewrite El, Ef.
  - cbn [fst]. unfold convert_pure. rewrite (ensured_again t1 He). now rewrite El.
Qed.

End Twice.




(** * Further properties *)

(** ** [str] and [int] *)

Example range_helper_examples :
  map Builtins.str [0; 7; 14400; -35] = ["0"; "7"; "14400"; "-35"]
  /\ Builtins.range 0 10 3 = Some [0; 3; 6; 9]
  /\ Builtins.range 0 9 3 = Some [0; 3; 6]
  /\ Builtins.range 0 0 3 = Some []
  /\ Builtins.range 0 (-7) (-3) = Some [0; -3; -6]
  /\ Builtins.range 0 7 (-3) = Some []
  /\ Builtins.range 0 7 0 = None
  /\ Builtins.join "," ["a"; "b"; "c"] = "a,b,c"
  /\ map Builtins.drop_last ["[0,"; "["; ""] = ["[0"; ""; ""].
Proof. repeat split. Qed.

(** ** Trees: nothing is removed *)

Module Keeps.

Import Fs FsFacts.
Local Open Scope list_scope.

(** The tree after the bytes of a regular file were replaced. *)
Lemma lookup_set_existing b l : forall t b0,
  lookup t l = Some (File b0) ->
  forall q,
    match lookup t q with
    | Some (File b') =>
        (q = l /\ lookup (set_at t l (File b)) q = Some (File b))
        \/ lookup (set_at t l (File b)) q = Some (File b')
    | Some (Dir es) =>
        exists es', lookup (set_at t l (File b)) q = Some (Dir es')
                    /\ map fst es' = map fst es
    | None => lookup (set_at t l (File b)) q = None
    end.
Proof.
  induction l as [|c l IH]; intros t b0 Hl q.
  - simpl in Hl. injection Hl as ->. simpl.
    destruct q as [|c0 q]; simpl; auto.
  - simpl in Hl. destruct t as [b1|es]; [discriminate|].
    destruct (find_entry es c) as [y|] eqn:Ec; [|discriminate].
    specialize (IH y b0 Hl). simpl. rewrite Ec.
    destruct q as [|c0 q]; simpl.
    + eexists. split; [reflexivity|]. now rewrite names_put_entry, Ec.
    + rewrite find_put_entry. destruct (String.eqb_spec c c0) as [<-|Hne].
      * rewrite Ec. specialize (IH q). destruct (lookup y q) as [[b'|es']|]; auto.
        destruct IH as [[-> H]|H]; auto.
      * destruct (find_entry es c0) as [y0|]; [|reflexivity].
        destruct (lookup y0 q) as [[b'|es']|]; eauto.
Qed.

Lemma keeps_refl t : keeps t t.
Proof.
  intros q. destruct (lookup t q) as [[b|es]|]; eauto using incl_refl.
Qed.

Lemma keeps_trans t1 t2 t3 : keeps t1 t2 -> keeps t2 t3 -> keeps t1 t3.
Proof.
  intros H12 H23 q. specialize (H12 q). specialize (H23 q).
  destruct (lookup t1 q) as [[b|es]|]; [| |exact I].
  - destruct H12 as (b2 & E & H). rewrite E in H23.
    destruct H23 as (b3 & E' & H'). exists b3. split; [exact E'|].
    destruct H as [->|H]; [exact H'|now right].
  - destruct H12 as (es2 & E & H). rewrite E in H23.
    destruct H23 as (es3 & E' & H'). exists es3. split; [exact E'|].
    eapply incl_tran; eauto.
Qed.

Lemma keeps_fresh x c p t :
  leaf x -> is_dir t p = true -> present t (p ++ [c]) = false ->
  keeps t (set_at t (p ++ [c]) x).
Proof.
  intros Hx Hd Hf q. pose proof (lookup_set_fresh x c Hx p t Hd Hf q) as H.
  destruct (lookup t q) as [[b|es]|]; [eauto| |exact I].
  destruct H as (es' & E & [F|[_ F]]); exists es'; split; auto; rewrite F.
  - apply incl_refl.
  - now apply incl_appl, incl_refl.
Qed.

Lemma keeps_replace t l b0 b :
  lookup t l = Some (File b0) ->
  last_char (last l "") = Some "g"%char ->
  keeps t (set_at t l (File b)).
Proof.
  intros Hl Hg q. pose proof (lookup_set_existing b l t b0 Hl q) as H.
  destruct (lookup t q) as [[b'|es]|]; [| |exact I].
  - destruct H as [[-> H]|H]; eauto.
  - destruct H as (es' & E & F). exists es'. split; [exact E|].
    rewrite F. apply incl_refl.
Qed.

Lemma keeps_is_dir t t' q : keeps t t' -> is_dir t q = true -> is_dir t' q = true.
Proof.
  intros H. specialize (H q). unfold is_dir.
  destruct (lookup t q) as [[b|es]|]; try discriminate.
  destruct H as (es' & -> & _). reflexivity.
Qed.

Lemma keeps_present t t' q : keeps t t' -> present t q = true -> present t' q = true.
Proof.
  intros H. specialize (H q). unfold present.
  destruct (lookup t q) as [[b|es]|]; try discriminate; intros _.
  - destruct H as (b' & -> & _). reflexivity.
  - destruct H as (es' & -> & _). reflexivity.
Qed.

(** A path that resolves still resolves, to the same location. *)
Lemma keeps_canon t t' comps : forall cur l,
  keeps t t' -> canon t cur comps = Some l -> canon t' cur comps = Some l.
Proof.
  induction comps as [|c comps IH]; intros cur l K; simpl; [auto|].
  destruct (is_dir t cur) eqn:Hd; simpl; [|discriminate].
  rewrite (keeps_is_dir _ _ _ K Hd). simpl.
  destruct (is_dot c); [now apply IH|].
  destruct (String.eqb c ".."); now apply IH.
Qed.

Lemma keeps_resolve t t' cwd0 p l :
  keeps t t' -> resolve t cwd0 p = Some l -> resolve t' cwd0 p = Some l.
Proof.
  intros K. unfold resolve. destruct (String.eqb p ""); [discriminate|].
  now apply keeps_canon.
Qed.

Lemma keeps_path_exists t t' cwd0 p :
  keeps t t' -> path_exists t cwd0 p = true -> path_exists t' cwd0 p = true.
Proof.
  intros K. unfold path_exists.
  destruct (resolve t cwd0 p) as [l|] eqn:Hr; [|discriminate].
  rewrite (keeps_resolve _ _ _ _ _ K Hr). now apply keeps_present.
Qed.

Lemma keeps_path_isdir t t' cwd0 p :
  keeps t t' -> path_isdir t cwd0 p = true -> path_isdir t' cwd0 p = true.
Proof.
  intros K. unfold path_isdir.
  destruct (resolve t cwd0 p) as [l|] eqn:Hr; [|discriminate].
  rewrite (keeps_resolve _ _ _ _ _ K Hr). now apply keeps_is_dir.
Qed.

(** A file whose name does not end in [g] reads as before. *)
Lemma keeps_read_file t t' cwd0 p b x :
  keeps t t' ->
  read_file t cwd0 p = Some b ->
  last_char p = Some x -> x <> "/"%char -> x <> "."%char -> x <> "g"%char ->
  read_file t' cwd0 p = Some b.
Proof.
  intros K Hread Hx H1 H2 H3. unfold read_file in *.
  destruct (resolve t cwd0 p) as [l|] eqn:Hr; [|discriminate].
  rewrite (keeps_resolve _ _ _ _ _ K Hr).
  destruct (resolve_last _ _ _ _ _ Hr Hx H1 H2) as (parent & c & -> & _ & Hc).
  specialize (K (parent ++ [c])).
  destruct (lookup t (parent ++ [c])) as [[b0|es]|]; try discriminate.
  injection Hread as ->. destruct K as (b' & -> & [->|G]); [reflexivity|].
  rewrite last_last in G. congruence.
Qed.

Lemma mkdirs_keeps comps : forall t cur fr,
  keeps t (fst (mkdirs t cur fr comps)).
Proof.
  induction comps as [|c comps IH]; intros t cur fr; simpl; [apply keeps_refl|].
  destruct (is_dir t cur) eqn:Hd; simpl; [|apply keeps_refl].
  destruct (is_dot c); [apply IH|].
  destruct (String.eqb c ".."); [apply IH|].
  destruct (present t (cur ++ [c])) eqn:Hp; [apply IH|].
  eapply keeps_trans; [|apply IH]. now apply keeps_fresh.
Qed.

Lemma makedirs_keeps t cwd0 p : keeps t (fst (makedirs t cwd0 p)).
Proof.
  unfold makedirs. destruct (String.eqb p ""); [apply keeps_refl|apply mkdirs_keeps].
Qed.

End Keeps.

(** ** Relating the state after a computation to the state before *)

Section Relates.

Context {L : Libs}.

Variable R : state -> state -> Prop.
Hypothesis R_refl : forall st, R st st.
Hypothesis R_trans : forall s1 s2 s3, R s1 s2 -> R s2 s3 -> R s1 s3.

Lemma relates_ret {A} (a : A) : relates R (ret a).
Proof. intros st. apply R_refl. Qed.

Lemma relates_raise {A} e : relates R (@raise A e).
Proof. intros st. apply R_refl. Qed.

Lemma relates_lift {A} (r : result A) : relates R (lift r).
Proof. intros st. apply R_refl. Qed.

Lemma relates_bind {A B} (c : M A) (k : A -> M B) :
  relates R c -> (forall a, relates R (k a)) -> relates R (bind c k).
Proof.
  intros Hc Hk st. unfold bind. specialize (Hc st).
  destruct (c st) as [st1 [a|e]]; simpl in Hc; [|exact Hc].
  eapply R_trans; [exact Hc|apply Hk].
Qed.

Lemma relates_try_except {A} (c : M A) (h : exn -> M A) :
  relates R c -> (forall e, relates R (h e)) -> relates R (try_except c h).
Proof.
  intros Hc Hh st. unfold try_except. specialize (Hc st).
  destruct (c st) as [st1 [a|e]]; simpl in Hc; [exact Hc|].
  eapply R_trans; [exact Hc|apply Hh].
Qed.

Lemma relates_try_except_ValueError {A} (c h : M A) :
  relates R c -> relates R h -> relates R (try_except_ValueError c h).
Proof.
  intros Hc Hh st. unfold try_except_ValueError. specialize (Hc st).
  destruct (c st) as [st1 [a|[]]]; simpl in Hc; try exact Hc.
  eapply R_trans; [exact Hc|apply Hh].
Qed.

Lemma relates_for_each {A} (l : list A) (body : A -> M unit) :
  (forall x, relates R (body x)) -> relates R (for_each l body).
Proof.
  intros Hb. induction l as [|x l IH]; simpl.
  - apply relates_ret.
  - apply relates_bind; auto.
Qed.

Lemma relates_if {A} (b : bool) (c1 c2 : M A) :
  relates R c1 -> relates R c2 -> relates R (if b then c1 else c2).
Proof. destruct b; auto. Qed.

Lemma relates_walk body :
  (forall top dirs, relates R (body top dirs)) ->
  forall fuel stack st, R st (fst (walk fuel stack body st)).
Proof.
  intros Hb. induction fuel as [|fuel IH]; intros stack st.
  - destruct stack; apply R_refl.
  - destruct stack as [|top stack]; [apply R_refl|]. cbn [walk].
    destruct (Fs.scandir (fs st) cwd top) as [[dirs files]|]; [|apply IH].
    specialize (Hb top dirs st).
    destruct (body top dirs st) as [st1 [dirs'|e]]; simpl in Hb; [|exact Hb].
    eapply R_trans; [exact Hb|apply IH].
Qed.

End Relates.

(** ** No file is removed, no source file is changed *)

Section KeepsFiles.

Context {L : Libs}.

Lemma keeps_fs_refl st : keeps_fs st st.
Proof. apply Keeps.keeps_refl. Qed.

Lemma keeps_fs_trans s1 s2 s3 : keeps_fs s1 s2 -> keeps_fs s2 s3 -> keeps_fs s1 s3.
Proof. apply Keeps.keeps_trans. Qed.

Lemma keeps_same_fs {A} (c : M A) :
  (forall st, fs (fst (c st)) = fs st) -> relates keeps_fs c.
Proof. intros H st. unfold keeps_fs. rewrite H. apply Keeps.keeps_refl. Qed.

Lemma keeps_emit e : relates keeps_fs (emit e).
Proof. apply keeps_same_fs. reflexivity. Qed.

Lemma keeps_os_makedirs p : relates keeps_fs (os_makedirs p).
Proof.
  intros st. unfold keeps_fs, os_makedirs.
  pose proof (Keeps.makedirs_keeps (fs st) cwd p) as H.
  destruct (Fs.makedirs (fs st) cwd p). exact H.
Qed.

Lemma keeps_os_listdir p : relates keeps_fs (os_listdir p).
Proof.
  apply keeps_same_fs. intros st. unfold os_listdir.
  now destruct (Fs.listdir (fs st) cwd p).
Qed.

Lemma keeps_tifffile_imread p : relates keeps_fs (tifffile_imread p).
Proof.
  apply keeps_same_fs. intros st. unfold tifffile_imread, bind, emit. simpl.
  destruct (Fs.read_file (fs st) cwd p); [|reflexivity].
  now destruct (decode_tiff s).
Qed.

(** [Image.save] to a path that ends in [g]. *)
Lemma keeps_Image_save img dest c :
  last_char dest = Some "g"%char -> relates keeps_fs (Image_save img dest c).
Proof.
  intros Hg st. unfold keeps_fs, Image_save, bind, emit. simpl.
  destruct (Fs.open_write (fs st) cwd dest) as [l|] eqn:Ho; [|apply Keeps.keeps_refl].
  assert (Hl : exists parent n,
             l = (parent ++ [n])%list /\ Fs.is_dir (fs st) parent = true
             /\ last_char n = Some "g"%char
             /\ (Fs.lookup (fs st) l = None
                 \/ exists b0, Fs.lookup (fs st) l = Some (Fs.File b0))).
  { unfold Fs.open_write in Ho.
    destruct (Fs.resolve (fs st) cwd dest) as [l'|] eqn:Hr; [|discriminate].
    destruct (resolve_last _ _ _ _ "g"%char Hr Hg) as (parent & n & -> & Hd & Hn);
      try discriminate.
    destruct (Fs.lookup (fs st) (parent ++ [n])%list) as [[b0|es]|] eqn:El;
      try discriminate; injection Ho as <-; exists parent, n; rewrite El; eauto 8. }
  destruct Hl as (parent & n & -> & Hd & Hn & Hl).
  assert (K : forall b, keeps (fs st) (Fs.set_at (fs st) (parent ++ [n])%list (Fs.File b))).
  { intros b. destruct Hl as [El|[b0 El]].
    - apply Keeps.keeps_fresh; [exact I|exact Hd|]. unfold Fs.present. now rewrite El.
    - eapply Keeps.keeps_replace; [exact El|]. now rewrite last_last. }
  destruct (encode c img) as [bytes|]; simpl; [apply K|].
  destruct (Fs.present (fs st) (parent ++ [n])%list); simpl;
    [apply K|apply Keeps.keeps_refl].
Qed.

Lemma last_char_dest_jpg file_path dest_folder :
  last_char (dest_file_path_of file_path dest_folder "jpg") = Some "g"%char.
Proof.
  unfold dest_file_path_of. apply last_char_join.
  rewrite <- append_assoc. now apply last_char_suffix.
Qed.

Lemma last_char_dest_png file_path dest_folder :
  last_char (dest_file_path_of file_path dest_folder "png") = Some "g"%char.
Proof.
  unfold dest_file_path_of. apply last_char_join.
  rewrite <- append_assoc. now apply last_char_suffix.
Qed.

Ltac keeps_step :=
  first [ apply (relates_ret keeps_fs keeps_fs_refl)
        | apply (relates_raise keeps_fs keeps_fs_refl)
        | apply (relates_lift keeps_fs keeps_fs_refl)
        | apply keeps_emit
        | apply keeps_os_makedirs
        | apply keeps_os_listdir
        | apply keeps_tifffile_imread
        | apply (relates_bind keeps_fs keeps_fs_trans)
        | apply (relates_try_except_ValueError keeps_fs keeps_fs_trans)
        | apply (relates_try_except keeps_fs keeps_fs_trans)
        | apply (relates_for_each keeps_fs keeps_fs_refl keeps_fs_trans)
        | apply (relates_if keeps_fs)
        | intro ].

Lemma keeps_convert_single_tif file_path dest_folder fmt q ow :
  relates keeps_fs (convert_single_tif file_path dest_folder fmt q ow).
Proof.
  unfold convert_single_tif. keeps_step; [|intros e; apply keeps_emit].
  keeps_step; [apply keeps_same_fs; reflexivity|]. intros present.
  keeps_step; [keeps_step|]. keeps_step; [keeps_step|]. intros a.
  keeps_step; [unfold Image_fromarray; repeat keeps_step|]. intros img.
  destruct (String.eqb_spec fmt "jpg") as [->|_].
  - apply keeps_Image_save, last_char_dest_jpg.
  - destruct (String.eqb_spec fmt "png") as [->|_].
    + apply keeps_Image_save, last_char_dest_png.
    + keeps_step.
Qed.

Lemma keeps_run_pool files dest fmt q ow :
  relates keeps_fs (run_pool files dest fmt q ow).
Proof.
  unfold run_pool. keeps_step; [repeat keeps_step|]. intros _.
  keeps_step. intros f. apply keeps_convert_single_tif.
Qed.

Lemma keeps_modulo_filter mv files : relates keeps_fs (modulo_filter mv files).
Proof.
  destruct mv as [v|]; simpl; [|keeps_step].
  apply (relates_try_except_ValueError keeps_fs keeps_fs_trans);
    [|apply (relates_bind keeps_fs keeps_fs_trans); [apply keeps_emit|intros _; keeps_step]].
  apply (relates_bind keeps_fs keeps_fs_trans); [|intros m; keeps_step].
  unfold int_of. destruct (Py.int v); keeps_step.
Qed.

Lemma keeps_ensure_dest_folder dest : relates keeps_fs (ensure_dest_folder dest).
Proof.
  unfold ensure_dest_folder. keeps_step; [apply keeps_same_fs; reflexivity|].
  intros present. repeat keeps_step.
Qed.

Lemma keeps_convert_tif src fmt q ow mv out :
  relates keeps_fs (convert_tif src fmt q ow mv out).
Proof.
  unfold convert_tif, candidates. keeps_step.
  - keeps_step; [keeps_step|]. intros _.
    keeps_step; [apply keeps_ensure_dest_folder|]. repeat keeps_step.
  - intros files. keeps_step; [apply keeps_modulo_filter|].
    intros kept. apply keeps_run_pool.
Qed.

Lemma keeps_visit targets fmt q ow mv out root dirs :
  relates keeps_fs (visit targets fmt q ow mv out root dirs).
Proof.
  unfold visit. keeps_step; [keeps_step|]. intros _.
  keeps_step; [keeps_step|]. keeps_step; [|keeps_step].
  keeps_step; [|repeat keeps_step].
  keeps_step; [|apply keeps_convert_tif].
  unfold convert_subfolders. keeps_step. intros d.
  keeps_step; [|keeps_step]. keeps_step; [keeps_step|].
  intros _. apply keeps_convert_tif.
Qed.

Lemma keeps_process_specific_folders fuel root targets fmt q ow mv out st :
  keeps (fs st)
    (fs (fst (process_specific_folders fuel root targets fmt q ow mv out st))).
Proof.
  unfold process_specific_folders.
  apply (relates_walk keeps_fs keeps_fs_refl keeps_fs_trans).
  intros top dirs. apply keeps_visit.
Qed.

End KeepsFiles.

(** ** One job: what it writes *)

Section SingleFile.

Context {L : Libs}.

Lemma lookup_set_existing_same x l : forall t y,
  Fs.lookup t l = Some y -> Fs.lookup (Fs.set_at t l x) l = Some x.
Proof.
  induction l as [|c l IH]; intros t y Hl; [reflexivity|].
  simpl in Hl. destruct t as [b|es]; [discriminate|].
  destruct (Fs.find_entry es c) as [y0|] eqn:Ec; [|discriminate].
  simpl. rewrite Ec. simpl. rewrite FsFacts.find_put_entry, String.eqb_refl.
  now apply (IH y0 y).
Qed.

(** Where a file whose name ends in [g] is opened for writing. *)
Lemma open_write_location t d l :
  last_char d = Some "g"%char ->
  Fs.open_write t cwd d = Some l ->
  Fs.resolve t cwd d = Some l
  /\ exists parent n,
       l = (parent ++ [n])%list /\ Fs.is_dir t parent = true
       /\ last_char n = Some "g"%char
       /\ (Fs.lookup t l = None \/ exists b0, Fs.lookup t l = Some (Fs.File b0)).
Proof.
  intros Hg Ho. unfold Fs.open_write in Ho.
  destruct (Fs.resolve t cwd d) as [l'|] eqn:Hr; [|discriminate].
  destruct (resolve_last _ _ _ _ "g"%char Hr Hg) as (parent & n & -> & Hd & Hn);
    try discriminate.
  destruct (Fs.lookup t (parent ++ [n])%list) as [[b0|es]|] eqn:El;
    try discriminate; injection Ho as <-; (split; [reflexivity|]);
    exists parent, n; rewrite El; eauto 8.
Qed.

Lemma write_then_read t d l b :
  last_char d = Some "g"%char ->
  Fs.open_write t cwd d = Some l ->
  Fs.read_file (Fs.set_at t l (Fs.File b)) cwd d = Some b.
Proof.
  intros Hg Ho.
  destruct (open_write_location t d l Hg Ho) as (Hr & parent & n & -> & Hd & Hn & Hl).
  assert (K : keeps t (Fs.set_at t (parent ++ [n])%list (Fs.File b))).
  { destruct Hl as [El|[b0 El]].
    - apply Keeps.keeps_fresh; [exact I|exact Hd|]. unfold Fs.present. now rewrite El.
    - eapply Keeps.keeps_replace; [exact El|]. now rewrite last_last. }
  unfold Fs.read_file. rewrite (Keeps.keeps_resolve _ _ _ _ _ K Hr).
  destruct Hl as [El|[b0 El]].
  - rewrite FsFacts.lookup_set_fresh_same; [reflexivity|exact Hd|].
    unfold Fs.present. now rewrite El.
  - now rewrite (lookup_set_existing_same _ _ _ _ El).
Qed.

Lemma keep_multiples_raises m files e :
  keep_multiples m files = Raise e ->
  e = ValueError \/ (e = ZeroDivisionError /\ m = 0).
Proof.
  induction files as [|f files IH]; simpl; [discriminate|].
  destruct (Py.int (stem f)) as [n|]; [|intros [= <-]; now left].
  destruct (Z.eqb_spec m 0) as [->|_]; [intros [= <-]; now right|].
  destruct (keep_multiples m files) as [kept|e0]; [discriminate|].
  intros [= <-]. now apply IH.
Qed.

End SingleFile.

(** X1.  A job changes at most one file, its destination, and only for the
    formats [jpg] and [png]; every other file and every directory is as
    before. *)
Theorem convert_single_tif_writes_at_most_its_destination {L : Libs}
    (file_path dest_folder output_format : string) (quality : Z)
    (overwrite : bool) (st : state) :
  let dest_file_path := dest_file_path_of file_path dest_folder output_format in
  let st' := fst (convert_single_tif file_path dest_folder output_format quality
                    overwrite st) in
  fs st' = fs st
  \/ ((output_format = "jpg" \/ output_format = "png")
      /\ exists l b,
           Fs.open_write (fs st) cwd dest_file_path = Some l
           /\ fs st' = Fs.set_at (fs st) l (Fs.File b)).
Proof.
  unfold convert_single_tif, try_except, os_path_exists, tifffile_imread,
    Image_fromarray, print, emit, ret, raise, bind. simpl.
  destruct (negb overwrite && _); [now left|]. simpl.
  destruct (Fs.read_file (fs st) cwd file_path) as [bytes|]; [|now left].
  destruct (decode_tiff bytes) as [a|]; [|now left].
  destruct (fromarray_ok (to_8bit a)); [|now left].
  assert (H : forall c st0, fs st0 = fs st ->
            let st1 := fst (Image_save (to_8bit a)
                              (dest_file_path_of file_path dest_folder output_format)
                              c st0) in
            fs st1 = fs st
            \/ exists l b,
                 Fs.open_write (fs st) cwd
                   (dest_file_path_of file_path dest_folder output_format) = Some l
                 /\ fs st1 = Fs.set_at (fs st) l (Fs.File b)).
  { intros c st0 E. unfold Image_save, bind, emit. simpl. rewrite E.
    destruct (Fs.open_write (fs st) cwd _) as [l|]; [|now left].
    destruct (encode c (to_8bit a)) as [out|]; simpl; [right; eauto|].
    destruct (Fs.present (fs st) l); simpl; [right; eauto|now left]. }
  destruct (String.eqb_spec output_format "jpg") as [->|_].
  - specialize (H (JPEG quality) (mk_state (fs st) (log st ++ [Imread file_path])%list)
                  eq_refl).
    simpl in H.
    destruct (Image_save _ _ _ _) as [st1 [[]|e]]; simpl in *;
      (destruct H as [H|H]; [now left|right; split; [now left|exact H]]).
  - destruct (String.eqb_spec output_format "png") as [->|_]; [|now left].
    specialize (H PNG (mk_state (fs st) (log st ++ [Imread file_path])%list) eq_refl).
    simpl in H.
    destruct (Image_save _ _ _ _) as [st1 [[]|e]]; simpl in *;
      (destruct H as [H|H]; [now left|right; split; [now right|exact H]]).
Qed.

(** A job that reads, decodes, converts and encodes without failure: what it
    returns, logs and leaves at the destination. *)
Lemma convert_single_tif_saves {L : Libs}
    (file_path dest_folder output_format : string) (quality : Z)
    (overwrite : bool) (st : state)
    (bytes : string) (a : Numpy.ndarray) (c : codec) (out : string) :
  let dest_file_path := dest_file_path_of file_path dest_folder output_format in
  let run := convert_single_tif file_path dest_folder output_format quality
               overwrite st in
  (overwrite = true \/ Fs.path_exists (fs st) cwd dest_file_path = false) ->
  Fs.read_file (fs st) cwd file_path = Some bytes ->
  decode_tiff bytes = Some a ->
  fromarray_ok (to_8bit a) = true ->
  codec_of output_format quality = Some c ->
  encode c (to_8bit a) = Some out ->
  Fs.open_write (fs st) cwd dest_file_path <> None ->
  snd run = Ok tt
  /\ log (fst run) = (log st ++ [Imread file_path; Save dest_file_path])%list
  /\ Fs.read_file (fs (fst run)) cwd dest_file_path = Some out.
Proof.
  intros d run Hskip Hread Hdec Hok Hc Henc Hopen.
  destruct (Fs.open_write (fs st) cwd d) as [l|] eqn:Ho; [|congruence].
  assert (Hg : last_char d = Some "g"%char) by (eapply last_char_dest; exact Hc).
  assert (S : Image_save (to_8bit a) d c
                (mk_state (fs st) (log st ++ [Imread file_path])%list)
              = (mk_state (Fs.set_at (fs st) l (Fs.File out))
                   (log st ++ [Imread file_path; Save d])%list,
                 Ok tt)).
  { unfold Image_save, bind, emit. simpl.
    rewrite Ho, Henc, <- app_assoc. reflexivity. }
  assert (E : run = (mk_state (Fs.set_at (fs st) l (Fs.File out))
                       (log st ++ [Imread file_path; Save d])%list,
                     Ok tt)).
  { unfold run, convert_single_tif, try_except, os_path_exists,
      tifffile_imread, Image_fromarray, emit, ret, bind. simpl. fold d.
    replace (negb overwrite && _) with false
      by (destruct Hskip as [-> | ->]; [reflexivity|now rewrite andb_false_r]).
    simpl. rewrite Hread, Hdec, Hok.
    unfold codec_of in Hc.
    destruct (String.eqb output_format "jpg"); [injection Hc as <-; now rewrite S|].
    destruct (String.eqb output_format "png"); [injection Hc as <-; now rewrite S|].
    discriminate. }
  rewrite E. simpl. repeat split. now apply write_then_read.
Qed.

(** X2.  For a source path without [*] and [?], which tifffile would
    expand as a glob pattern: when the source file is read and decoded, PIL
    accepts the array and encodes it, and the destination can be opened, a
    job that is not skipped returns normally, reads and saves once, prints
    nothing, and leaves at the destination path the encoding of the 8-bit
    array. *)
Theorem converted_file_holds_the_encoded_image {L : Libs}
    (file_path dest_folder output_format : string) (quality : Z)
    (overwrite : bool) (st : state)
    (bytes : string) (a : Numpy.ndarray) (c : codec) (out : string) :
  let dest_file_path := dest_file_path_of file_path dest_folder output_format in
  let run := convert_single_tif file_path dest_folder output_format quality
               overwrite st in
  mem_char "*" file_path = false ->
  mem_char "?" file_path = false ->
  (overwrite = true \/ Fs.path_exists (fs st) cwd dest_file_path = false) ->
  Fs.read_file (fs st) cwd file_path = Some bytes ->
  decode_tiff bytes = Some a ->
  fromarray_ok (to_8bit a) = true ->
  codec_of output_format quality = Some c ->
  encode c (to_8bit a) = Some out ->
  Fs.open_write (fs st) cwd dest_file_path <> None ->
  snd run = Ok tt
  /\ log (fst run) = (log st ++ [Imread file_path; Save dest_file_path])%list
  /\ Fs.read_file (fs (fst run)) cwd dest_file_path = Some out.
Proof.
  intros d run _ _. apply convert_single_tif_saves.
Qed.

(** C4. An image whose dtype is not [uint8] is rescaled pixel by pixel: the
    value is divided by 256 and the fraction is dropped, not rounded.  For a
    16-bit image that is the integer quotient by 256, between 0 and 255; an
    all-zero image gives zeros, 256 gives 1, and 255 and 511 give 0 and 1.
    The rescaled array is the one that is encoded: when a job reads such an
    image from a source path without [*] and [?] and saves, the destination
    holds the encoding of the rescaled array; a 16-bit file of zeros and one
    of a pixel 256 come out, as PNG and as JPEG, with pixels 0 and a pixel
    1. *)
Theorem to_8bit_divides_by_256 {L : Libs} (a : Numpy.ndarray) :
  Numpy.dtype_of a <> Numpy.uint8 ->
  Numpy.dtype_of (to_8bit a) = Numpy.uint8
  /\ Numpy.shape (to_8bit a) = Numpy.shape a
  /\ Numpy.data (to_8bit a)
     = map (fun v => let z := Z.quot v 256 in
                     if (0 <=? z) && (z <=? 255) then z else astype_overflow z)
         (Numpy.data a)
  /\ (Numpy.dtype_of a = Numpy.uint16 -> Numpy.well_typed a ->
      Numpy.data (to_8bit a) = map (fun v => v / 256) (Numpy.data a)
      /\ Forall (fun z => 0 <= z <= 255) (Numpy.data (to_8bit a)))
  /\ (forall sh n,
        to_8bit (Numpy.mk_ndarray Numpy.uint16 sh (repeat 0 n))
        = Numpy.mk_ndarray Numpy.uint8 sh (repeat 0 n))
  /\ (forall sh,
        to_8bit (Numpy.mk_ndarray Numpy.uint16 sh [256; 255; 511; 65535])
        = Numpy.mk_ndarray Numpy.uint8 sh [1; 0; 1; 255])
  /\ (forall (file_path dest_folder output_format : string) (quality : Z)
             (overwrite : bool) (st : state) (bytes : string) (c : codec)
             (out : string),
        let dest_file_path := dest_file_path_of file_path dest_folder output_format in
        let rescaled :=
          Numpy.mk_ndarray Numpy.uint8 (Numpy.shape a)
            (map (fun v => let z := Z.quot v 256 in
                           if (0 <=? z) && (z <=? 255) then z else astype_overflow z)
               (Numpy.data a)) in
        mem_char "*" file_path = false ->
        mem_char "?" file_path = false ->
        (overwrite = true \/ Fs.path_exists (fs st) cwd dest_file_path = false) ->
        Fs.read_file (fs st) cwd file_path = Some bytes ->
        decode_tiff bytes = Some a ->
        fromarray_ok rescaled = true ->
        codec_of output_format quality = Some c ->
        encode c rescaled = Some out ->
        Fs.open_write (fs st) cwd dest_file_path <> None ->
        Fs.read_file
          (fs (fst (convert_single_tif file_path dest_folder output_format quality
                      overwrite st))) cwd dest_file_path
        = Some out)
  /\ (let converted file_path output_format :=
        fs (fst (@convert_single_tif Sample.toy file_path "out" output_format 95 true
                   (Sample.initial Sample.sixteen_bit))) in
      Fs.read_file (converted "d/zero.tif" "png") [] "out/zero.png"
      = Some ("PNG" ++ String Ascii.zero (String Ascii.zero ""))
      /\ Fs.read_file (converted "d/zero.tif" "jpg") [] "out/zero.jpg"
         = Some ("JFIF" ++ String Ascii.zero (String Ascii.zero ""))
      /\ Fs.read_file (converted "d/one.tif" "png") [] "out/one.png"
         = Some ("PNG" ++ String (ascii_of_nat 1) "")
      /\ Fs.read_file (converted "d/one.tif" "jpg") [] "out/one.jpg"
         = Some ("JFIF" ++ String (ascii_of_nat 1) "")).
Proof.
  intros Hd.
  assert (E : to_8bit a = Numpy.rescale astype_overflow a).
  { unfold to_8bit. destruct (Numpy.dtype_of a); try reflexivity. congruence. }
  assert (R : to_8bit a
              = Numpy.mk_ndarray Numpy.uint8 (Numpy.shape a)
                  (map (fun v => let z := Z.quot v 256 in
                                 if (0 <=? z) && (z <=? 255) then z
                                 else astype_overflow z)
                     (Numpy.data a))).
  { rewrite E. unfold Numpy.rescale, Numpy.true_divide. now rewrite map_map. }
  split; [now rewrite R|]. split; [now rewrite R|]. split; [now rewrite R|].
  split; [|split; [|split; [|split]]].
  - rewrite E. unfold Numpy.rescale, Numpy.true_divide. simpl.
    intros Hu Hw. unfold Numpy.well_typed, Numpy.in_range in Hw. rewrite Hu in Hw.
    simpl in Hw. rewrite Forall_forall in Hw. rewrite map_map. split.
    + apply map_ext_in. intros v Hv. now apply to_uint8_16bit, Hw.
    + rewrite Forall_forall. intros z Hz. apply in_map_iff in Hz.
      destruct Hz as (v & <- & Hv).
      destruct (to_uint8_16bit astype_overflow v (Hw v Hv)) as [-> ?]. assumption.
  - intros sh n. unfold to_8bit, Numpy.rescale, Numpy.true_divide. simpl. f_equal.
    induction n as [|n IH]; simpl; [reflexivity|]. now rewrite IH.
  - intros sh. reflexivity.
  - intros file_path dest_folder output_format quality overwrite st bytes c out
      d rescaled _ _ Hskip Hread Hdec Hok Hc Henc Hopen.
    fold rescaled in R. rewrite <- R in Hok, Henc.
    exact (proj2 (proj2 (convert_single_tif_saves file_path dest_folder
                           output_format quality overwrite st bytes a c out
                           Hskip Hread Hdec Hok Hc Henc Hopen))).
  - repeat split.
Qed.

Lemma to_8bit_divides_by_256_witness :
  Numpy.data (@to_8bit Sample.toy (Numpy.mk_ndarray Numpy.int16 [3%nat] [-300; 700; 256]))
  = [255; 2; 1]
  /\ Fs.read_file
       (fs (fst (@convert_single_tif Sample.toy "d/one.tif" "out" "png" 95 false
                   (Sample.initial Sample.sixteen_bit)))) [] "out/one.png"
     = Some ("PNG" ++ String (ascii_of_nat 1) "").
Proof.
  split.
  - rewrite (proj1 (proj2 (proj2
      (@to_8bit_divides_by_256 Sample.toy
         (Numpy.mk_ndarray Numpy.int16 [3%nat] [-300; 700; 256])
         ltac:(discriminate))))).
    reflexivity.
  - apply (proj1 (proj2 (proj2 (proj2 (proj2 (proj2 (proj2
      (@to_8bit_divides_by_256 Sample.toy
         (Numpy.mk_ndarray Numpy.uint16 [1%nat; 1%nat] [256])
         ltac:(discriminate))))))))
      "d/one.tif" "out" "png" 95 false (Sample.initial Sample.sixteen_bit)
      ("II*" ++ String (ascii_of_nat 1) "") PNG
      ("PNG" ++ String (ascii_of_nat 1) ""));
      try reflexivity; [now right|discriminate].
Defined.

Lemma converted_file_holds_the_encoded_image_witness :
  let run := @convert_single_tif Sample.toy "d/0.tif" "d_png" "png" 95 true
               (Sample.initial Sample.converted_once) in
  snd run = Ok tt
  /\ log (fst run) = [Imread "d/0.tif"; Save "d_png/0.png"]
  /\ Fs.read_file (fs (fst run)) [] "d_png/0.png"
     = Some ("PNG" ++ String (ascii_of_nat 1) "").
Proof.
  apply (@converted_file_holds_the_encoded_image Sample.toy "d/0.tif" "d_png" "png"
           95 true (Sample.initial Sample.converted_once)
           ("II*" ++ String (ascii_of_nat 1) "")
           (Numpy.mk_ndarray Numpy.uint16 [1%nat; 1%nat] [256]) PNG
           ("PNG" ++ String (ascii_of_nat 1) ""));
    try reflexivity; [now left|discriminate].
Defined.

(** ** One folder *)

Section OneFolder.

Context {L : Libs}.

Lemma other_format_same_fs file_path dest_folder fmt q ow st :
  fmt <> "jpg" -> fmt <> "png" ->
  fs (fst (convert_single_tif file_path dest_folder fmt q ow st)) = fs st.
Proof.
  intros Hj Hp.
  unfold convert_single_tif, try_except, os_path_exists, tifffile_imread,
    Image_fromarray, print, emit, ret, raise, bind. simpl.
  destruct (negb ow && _); [reflexivity|]. simpl.
  destruct (Fs.read_file (fs st) cwd file_path) as [bytes|]; [|reflexivity].
  destruct (decode_tiff bytes) as [a|]; [|reflexivity].
  destruct (fromarray_ok (to_8bit a)); [|reflexivity].
  destruct (String.eqb_spec fmt "jpg") as [->|_]; [contradiction|].
  destruct (String.eqb_spec fmt "png") as [->|_]; [contradiction|reflexivity].
Qed.

Lemma same_fs_refl st : same_fs st st.
Proof. reflexivity. Qed.

Lemma same_fs_trans s1 s2 s3 : same_fs s1 s2 -> same_fs s2 s3 -> same_fs s1 s3.
Proof. unfold same_fs. congruence. Qed.

Lemma other_format_run_pool files dest fmt q ow :
  fmt <> "jpg" -> fmt <> "png" ->
  relates same_fs (run_pool files dest fmt q ow).
Proof.
  intros Hj Hp. unfold run_pool.
  apply (relates_bind same_fs same_fs_trans).
  - apply (relates_for_each same_fs same_fs_refl same_fs_trans).
    intros f st. reflexivity.
  - intros _. apply (relates_for_each same_fs same_fs_refl same_fs_trans).
    intros f st. now apply other_format_same_fs.
Qed.

Lemma keep_multiples_sorted m files kept :
  keep_multiples m files = Ok kept ->
  StronglySorted str_le files -> StronglySorted str_le kept.
Proof.
  revert kept. induction files as [|f files IH]; simpl; intros kept.
  - intros [= <-] _. constructor.
  - destruct (Py.int (stem f)) as [n|]; [|discriminate].
    destruct (m =? 0); [discriminate|].
    destruct (keep_multiples m files) as [kept'|] eqn:K; [|discriminate].
    intros [= <-] S. inversion S as [|? ? S' F]; subst.
    specialize (IH kept' eq_refl S').
    destruct (n mod m =? 0); [|exact IH].
    constructor; [exact IH|]. rewrite Forall_forall in *.
    intros x Hx. apply F. exact (keep_multiples_incl _ _ _ K x Hx).
Qed.

Lemma keep_multiples_opp m files : keep_multiples (- m) files = keep_multiples m files.
Proof.
  induction files as [|f files IH]; simpl; [reflexivity|].
  destruct (Py.int (stem f)) as [n|]; [|reflexivity].
  replace (- m =? 0) with (m =? 0)
    by (destruct (Z.eqb_spec m 0), (Z.eqb_spec (- m) 0); lia).
  destruct (Z.eqb_spec m 0) as [|Hm]; [reflexivity|]. rewrite IH.
  replace (n mod - m =? 0) with (n mod m =? 0); [reflexivity|].
  destruct (Z.eqb_spec (n mod m) 0) as [E|E], (Z.eqb_spec (n mod - m) 0) as [E'|E'];
    try reflexivity; exfalso.
  - apply E'. now apply Z.mod_opp_r_z.
  - apply E. rewrite <- (Z.opp_involutive m) at 1. apply Z.mod_opp_r_z; [lia|exact E'].
Qed.

End OneFolder.

(** An exception of [convert_tif]: which one, and the state it leaves. *)
Lemma convert_tif_raise_inv {L : Libs} src fmt q ow mv out st e :
  snd (convert_tif src fmt q ow mv out st) = Raise e ->
  walk_error mv e
  /\ fs (fst (convert_tif src fmt q ow mv out st))
     = fs (fst (ensure_dest_folder (dest_folder_of src fmt out) st))
  /\ log (fst (convert_tif src fmt q ow mv out st))
     = (log st ++ [Enter_convert_tif src])%list.
Proof.
  unfold walk_error. rewrite convert_tif_unfold, candidates_pure, ensure_dest_folder_pure.
  cbn [fst fs].
  destruct (snd (ensured src fmt out (fs st)));
    [|intros [= <-]; auto].
  destruct (Fs.listdir _ cwd src) as [names|]; [|intros [= <-]; auto].
  set (st1 := mk_state _ _). set (files := tif_files_of src names).
  assert (R : forall st2 kept,
            snd (run_pool (Py.sorted kept)
                   (dest_folder_of src fmt out)
                   fmt q ow st2) = Raise e -> False)
    by (intros st2 kept; rewrite run_pool_returns; discriminate).
  destruct mv as [v|]; [|intros H; now apply R in H].
  destruct (Py.int v) as [m|] eqn:Ev.
  - rewrite (modulo_filter_parsed v m files st1 Ev).
    destruct (keep_multiples m files) as [kept|e0] eqn:K;
      [intros H; now apply R in H|].
    destruct (keep_multiples_raises _ _ _ K) as [->|[-> ->]];
      [intros H; now apply R in H|].
    intros [= <-]. split; [right; split; [reflexivity|exists v; auto]|auto].
  - rewrite (modulo_filter_unparsed v files st1 Ev). intros H; now apply R in H.
Qed.

(** X5.  The only exceptions that leave the Folder Converter are an
    [OSError] from making the destination folder or listing the source
    folder, and a [ZeroDivisionError] when the modulo value reads as zero.
    Either one leaves before any job is handed to the pool: the tree is the
    one after lines 76-77 and nothing is printed. *)
Theorem convert_tif_raises_before_any_job {L : Libs}
    (source_folder output_format : string) (quality : Z) (overwrite : bool)
    (mod_value output_path : option string) (st : state) (e : exn) :
  let run := convert_tif source_folder output_format quality overwrite mod_value
               output_path st in
  snd run = Raise e ->
  (e = OSError \/ (e = ZeroDivisionError /\ reads_as_zero mod_value))
  /\ fs (fst run)
     = fs (fst (ensure_dest_folder
                  (dest_folder_of source_folder output_format output_path) st))
  /\ log (fst run) = (log st ++ [Enter_convert_tif source_folder])%list.
Proof. apply convert_tif_raise_inv. Qed.

Lemma convert_tif_raises_before_any_job_witness :
  let run := @convert_tif Sample.toy "d" "jpg" 95 true (Some "0") None
               (Sample.initial Sample.named_files) in
  (ZeroDivisionError = OSError
   \/ (ZeroDivisionError = ZeroDivisionError /\ reads_as_zero (Some "0")))
  /\ fs (fst run)
     = fs (fst (@ensure_dest_folder Sample.toy "d_jpg"
                  (Sample.initial Sample.named_files)))
  /\ log (fst run) = [Enter_convert_tif "d"].
Proof.
  apply (@convert_tif_raises_before_any_job Sample.toy "d" "jpg" 95 true
           (Some "0") None (Sample.initial Sample.named_files) ZeroDivisionError).
  reflexivity.
Defined.

(** X6.  With an output format other than [jpg] and [png] the destination
    folder is the one with the suffix [_png], and making it is all the
    Folder Converter does to the tree: the candidates are read but nothing
    is saved. *)
Theorem other_format_converts_nothing {L : Libs}
    (source_folder output_format : string) (quality : Z) (overwrite : bool)
    (mod_value output_path : option string) (st : state) :
  output_format <> "jpg" ->
  output_format <> "png" ->
  let run := convert_tif source_folder output_format quality overwrite mod_value
               output_path st in
  let dest_folder :=
    (match output_path with Some o => o | None => source_folder end) ++ "_png" in
  dest_folder_of source_folder output_format output_path = dest_folder
  /\ fs (fst run) = fs (fst (ensure_dest_folder dest_folder st)).
Proof.
  intros Hj Hp run dest_folder.
  assert (D : dest_folder_of source_folder output_format output_path = dest_folder).
  { unfold dest_folder_of, dest_folder.
    destruct (String.eqb_spec output_format "jpg"); [contradiction|].
    now destruct output_path. }
  split; [exact D|]. rewrite <- D. unfold run.
  rewrite convert_tif_unfold, candidates_pure, ensure_dest_folder_pure.
  cbn [fst fs].
  destruct (snd (ensured source_folder output_format output_path (fs st)));
    [|reflexivity].
  destruct (Fs.listdir _ cwd source_folder) as [names|]; [|reflexivity].
  set (st1 := mk_state _ _). set (files := tif_files_of source_folder names).
  pose proof (modulo_filter_pure mod_value files st1) as [F _].
  destruct (modulo_filter mod_value files st1) as [st2 [kept|e]]; simpl in F;
    [|exact F].
  rewrite <- F. now apply other_format_run_pool.
Qed.

Lemma other_format_converts_nothing_witness :
  let run := @convert_tif Sample.toy "d" "bmp" 95 true None None
               (Sample.initial Sample.named_files) in
  dest_folder_of "d" "bmp" None = "d_png"
  /\ fs (fst run)
     = fs (fst (@ensure_dest_folder Sample.toy "d_png"
                  (Sample.initial Sample.named_files))).
Proof.
  apply (@other_format_converts_nothing Sample.toy "d" "bmp" 95 true None None
           (Sample.initial Sample.named_files)); discriminate.
Defined.

(** X7.  When the Folder Converter returns normally, the destination folder
    path exists. *)
Theorem destination_exists_after_convert_tif {L : Libs}
    (source_folder output_format : string) (quality : Z) (overwrite : bool)
    (mod_value output_path : option string) (st : state) :
  let run := convert_tif source_folder output_format quality overwrite mod_value
               output_path st in
  snd run = Ok tt ->
  Fs.path_exists (fs (fst run)) cwd
    (dest_folder_of source_folder output_format output_path) = true.
Proof.
  cbv zeta. rewrite convert_tif_unfold, candidates_pure.
  destruct (snd (ensured source_folder output_format output_path (fs st))) eqn:Hok;
    [|discriminate].
  pose proof (ensured_exists _ _ _ _ Hok) as Hex.
  destruct (Fs.listdir _ cwd source_folder) as [names|]; [|discriminate].
  set (st1 := mk_state _ _) in *. set (files := tif_files_of source_folder names).
  pose proof (modulo_filter_pure mod_value files st1) as [F _].
  destruct (modulo_filter mod_value files st1) as [st2 [kept|e]]; simpl in F;
    [|discriminate].
  intros _. eapply Keeps.keeps_path_exists; [apply keeps_run_pool|].
  rewrite F. exact Hex.
Qed.

Lemma destination_exists_after_convert_tif_witness :
  Fs.path_exists
    (fs (fst (@convert_tif Sample.toy "d" "jpg" 95 true (Some "3") None
                (Sample.initial Sample.ten_files)))) [] "d_jpg" = true.
Proof.
  apply (@destination_exists_after_convert_tif Sample.toy "d" "jpg" 95 true
           (Some "3") None (Sample.initial Sample.ten_files)).
  reflexivity.
Defined.

(** X8.  The list that reaches line 91 is already in order: the candidates
    were sorted on line 80 and the modulo filter keeps their order, so the
    second [sorted] returns its argument. *)
Theorem sorting_again_changes_nothing {L : Libs}
    (source_folder output_format : string) (mod_value output_path : option string)
    (st st1 st2 : state) (tif_files kept : list string) :
  candidates source_folder output_format output_path st = (st1, Ok tif_files) ->
  modulo_filter mod_value tif_files st1 = (st2, Ok kept) ->
  Py.sorted kept = kept.
Proof.
  intros Hc Hm. apply sorted_id.
  destruct (candidates_inv _ _ _ _ _ _ Hc) as (names & _ & E).
  assert (S : StronglySorted str_le tif_files)
    by (rewrite E; apply sorted_strongly_sorted).
  pose proof (modulo_filter_pure mod_value tif_files st1) as [_ F].
  rewrite Hm in F. cbn [snd] in F. unfold filtered in F.
  destruct mod_value as [v|]; [|now injection F as <-].
  destruct (Py.int v) as [m|]; [|now injection F as <-].
  destruct (keep_multiples m tif_files) as [kept'|[]] eqn:K;
    try discriminate; injection F as <-; [|exact S].
  exact (keep_multiples_sorted _ _ _ K S).
Qed.

Lemma sorting_again_changes_nothing_witness :
  Py.sorted ["d/0.tif"; "d/3.tif"; "d/6.tif"; "d/9.tif"]
  = ["d/0.tif"; "d/3.tif"; "d/6.tif"; "d/9.tif"].
Proof.
  apply (@sorting_again_changes_nothing Sample.toy "d" "jpg" (Some "3") None
           (Sample.initial Sample.ten_files)
           (mk_state (Fs.set_at Sample.ten_files ["d_jpg"] (Fs.Dir []))
              [Enter_convert_tif "d"])
           (mk_state (Fs.set_at Sample.ten_files ["d_jpg"] (Fs.Dir []))
              [Enter_convert_tif "d"])
           (map (fun n => "d/" ++ n ++ ".tif")
              ["0"; "1"; "2"; "3"; "4"; "5"; "6"; "7"; "8"; "9"]));
    reflexivity.
Defined.

(** X9.  A negative modulo value keeps the files its absolute value keeps,
    and raises or is skipped when that one does. *)
Theorem negative_modulo_filters_like_its_opposite
    (v v' : string) (m : Z) (tif_files : list string) (st : state) :
  Py.int v = Some m ->
  Py.int v' = Some (- m) ->
  modulo_filter (Some v') tif_files st = modulo_filter (Some v) tif_files st.
Proof.
  intros Hv Hv'.
  rewrite (modulo_filter_parsed v' (- m) tif_files st Hv'),
    (modulo_filter_parsed v m tif_files st Hv).
  now rewrite keep_multiples_opp.
Qed.

Lemma negative_modulo_filters_like_its_opposite_witness :
  modulo_filter (Some "-3") ["d/2.tif"; "d/3.tif"; "d/4.tif"; "d/9.tif"]
    (Sample.initial Sample.ten_files)
  = modulo_filter (Some "3") ["d/2.tif"; "d/3.tif"; "d/4.tif"; "d/9.tif"]
      (Sample.initial Sample.ten_files).
Proof.
  apply (negative_modulo_filters_like_its_opposite "3" "-3" 3); reflexivity.
Defined.

(** ** What the pool reads *)

Section Reads.

Context {L : Libs}.

Lemma reads_app a b : reads (a ++ b) = (reads a ++ reads b)%list.
Proof. apply flat_map_app. Qed.

Lemma submitted_app a b : submitted (a ++ b) = (submitted a ++ submitted b)%list.
Proof. apply flat_map_app. Qed.

Lemma submitted_map_Submit files : submitted (map Submit files) = files.
Proof. induction files as [|f files IH]; simpl; [reflexivity|now rewrite IH]. Qed.

Lemma reads_map_Submit files : reads (map Submit files) = [].
Proof. induction files as [|f files IH]; simpl; auto. Qed.

Lemma submit_all_log files : forall st,
  for_each files (fun f => emit (Submit f)) st
  = (mk_state (fs st) (log st ++ map Submit files)%list, Ok tt).
Proof.
  induction files as [|f files IH]; intros st.
  - simpl. unfold ret. rewrite app_nil_r. now destruct st.
  - rewrite for_each_cons. unfold emit at 1. rewrite IH. simpl.
    now rewrite <- app_assoc.
Qed.

(** A job reads its file once, unless it is skipped. *)
Lemma convert_single_tif_reads file_path dest_folder fmt q ow st :
  exists evs,
    log (fst (convert_single_tif file_path dest_folder fmt q ow st))
    = (log st ++ evs)%list
    /\ submitted evs = []
    /\ (reads evs = [file_path] \/ (ow = false /\ reads evs = [])).
Proof.
  unfold convert_single_tif, try_except, os_path_exists, tifffile_imread,
    Image_fromarray, Image_save, print, emit, ret, raise, bind. simpl.
  destruct ow; simpl.
  2: destruct (Fs.path_exists (fs st) cwd _); simpl;
       [exists []; rewrite app_nil_r; auto|].
  all: destruct (Fs.read_file (fs st) cwd file_path) as [bytes|]; simpl;
    [|eexists; rewrite <- !app_assoc; split; [reflexivity|simpl; auto]].
  all: destruct (decode_tiff bytes) as [a|]; simpl;
    [|eexists; rewrite <- !app_assoc; split; [reflexivity|simpl; auto]].
  all: destruct (fromarray_ok (to_8bit a)); simpl;
    [|eexists; rewrite <- !app_assoc; split; [reflexivity|simpl; auto]].
  all: destruct (String.eqb fmt "jpg"); [|destruct (String.eqb fmt "png")]; simpl.
  all: try (eexists; split; [reflexivity|simpl; auto]).
  all: destruct (Fs.open_write (fs st) cwd _) as [l|]; simpl;
    [|eexists; rewrite <- !app_assoc; split; [reflexivity|simpl; auto]].
  all: destruct (encode _ (to_8bit a)) as [out|]; simpl;
    [eexists; rewrite <- !app_assoc; split; [reflexivity|simpl; auto]|].
  all: destruct (Fs.present (fs st) l); simpl;
    eexists; rewrite <- !app_assoc; (split; [reflexivity|simpl; auto]).
Qed.

Lemma jobs_read files dest_folder fmt q ow : forall st,
  exists evs,
    log (fst (for_each files (fun f => convert_single_tif f dest_folder fmt q ow) st))
    = (log st ++ evs)%list
    /\ submitted evs = []
    /\ incl (reads evs) files
    /\ (ow = true -> reads evs = files).
Proof.
  induction files as [|f files IH]; intros st.
  - exists []. simpl. rewrite app_nil_r. repeat split; auto. apply incl_refl.
  - rewrite for_each_cons.
    destruct (convert_single_tif_reads f dest_folder fmt q ow st) as (e1 & E1 & S1 & R1).
    pose proof (convert_single_tif_returns f dest_folder fmt q ow st) as Hr.
    destruct (convert_single_tif f dest_folder fmt q ow st) as [st1 r]. simpl in *.
    subst r. destruct (IH st1) as (e2 & E2 & S2 & I2 & R2).
    exists (e1 ++ e2)%list. rewrite submitted_app, reads_app, S1, S2, E2, E1, app_assoc.
    split; [reflexivity|]. split; [reflexivity|]. split.
    + destruct R1 as [->|[_ ->]]; simpl.
      * intros x [<-|Hx]; [now left|right; now apply I2].
      * intros x Hx. right. now apply I2.
    + intros ->. destruct R1 as [->|[? _]]; [|discriminate].
      simpl. f_equal. now apply R2.
Qed.

Lemma modulo_filter_log mv files st :
  exists evs,
    log (fst (modulo_filter mv files st)) = (log st ++ evs)%list
    /\ submitted evs = [] /\ reads evs = [].
Proof.
  destruct mv as [v|]; [|exists []; simpl; now rewrite app_nil_r].
  destruct (Py.int v) as [m|] eqn:Ev.
  - rewrite (modulo_filter_parsed v m files st Ev).
    destruct (keep_multiples m files) as [kept|[]]; simpl;
      try (exists []; simpl; now rewrite app_nil_r).
    exists [Print Modulo_skipped]. auto.
  - rewrite (modulo_filter_unparsed v files st Ev). simpl.
    exists [Print Modulo_skipped]. auto.
Qed.

End Reads.


(** ** A whole run *)

Section Raises.

Variable P : exn -> Prop.

Lemma raises_only_ret {A} (a : A) : raises_only P (ret a).
Proof. intros st e. discriminate. Qed.

Lemma raises_only_emit ev : raises_only P (emit ev).
Proof. intros st e. discriminate. Qed.

Lemma raises_only_bind {A B} (c : M A) (k : A -> M B) :
  raises_only P c -> (forall a, raises_only P (k a)) -> raises_only P (bind c k).
Proof.
  intros Hc Hk st e. unfold bind. specialize (Hc st).
  destruct (c st) as [st1 [a|e1]]; simpl in *; [apply Hk|].
  intros [= <-]. now apply Hc.
Qed.

Lemma raises_only_for_each {A} (l : list A) (body : A -> M unit) :
  (forall x, raises_only P (body x)) -> raises_only P (for_each l body).
Proof.
  intros Hb. induction l as [|x l IH]; simpl.
  - apply raises_only_ret.
  - apply raises_only_bind; auto.
Qed.

Lemma raises_only_if {A} (b : bool) (c1 c2 : M A) :
  raises_only P c1 -> raises_only P c2 -> raises_only P (if b then c1 else c2).
Proof. destruct b; auto. Qed.

Lemma raises_only_walk {L : Libs} body :
  (forall top dirs, raises_only P (body top dirs)) ->
  forall fuel stack st e, snd (walk fuel stack body st) = Some (Raise e) -> P e.
Proof.
  intros Hb. induction fuel as [|fuel IH]; intros stack st e.
  - destruct stack; discriminate.
  - destruct stack as [|top stack]; [discriminate|]. cbn [walk].
    destruct (Fs.scandir (fs st) cwd top) as [[dirs files]|]; [|apply IH].
    specialize (Hb top dirs st).
    destruct (body top dirs st) as [st1 [dirs'|e1]]; simpl in Hb; [apply IH|].
    intros [= <-]. now apply Hb.
Qed.

End Raises.

Section Run.

Context {L : Libs}.

Variables (target_types : list string) (output_format : string) (quality : Z)
  (overwrite : bool) (mod_value output_path : option string).

Lemma dispatches_refl st : dispatches target_types st st.
Proof. exists []. rewrite app_nil_r. split; [reflexivity|intros p []]. Qed.

Lemma dispatches_trans s1 s2 s3 :
  dispatches target_types s1 s2 -> dispatches target_types s2 s3 ->
  dispatches target_types s1 s3.
Proof.
  intros (e1 & E1 & H1) (e2 & E2 & H2). exists (e1 ++ e2)%list.
  split; [now rewrite E2, E1, app_assoc|].
  intros p Hp. rewrite calls_app in Hp. apply in_app_or in Hp.
  destruct Hp as [Hp|Hp]; [destruct (H1 p Hp) as (top & Ht & Hd)
                          |destruct (H2 p Hp) as (top & Ht & Hd)];
    exists top; (split; [|exact Hd]); rewrite visits_app; apply in_or_app; auto.
Qed.

Lemma dispatches_visit root dirs :
  relates (dispatches target_types)
    (visit target_types output_format quality overwrite mod_value output_path
       root dirs).
Proof.
  intros st. unfold dispatches.
  assert (N : forall r : result (list string),
            exists evs,
              log (fst (mk_state (fs st) (log st ++ [Visit root])%list, r))
              = (log st ++ evs)%list
              /\ forall p, In p (calls evs) ->
                   exists top, In top (visits evs)
                               /\ dispatched_from target_types top p)
    by (intros r; exists [Visit root]; split; [reflexivity|intros p []]).
  destruct (Py.endswith root ".zarr") eqn:Hz;
    [unfold visit, bind, emit; rewrite Hz; apply N|].
  destruct (Py.contains target_types (OsPath.basename root)) eqn:Hc;
    [|unfold visit, bind, emit; rewrite Hz, Hc; apply N].
  clear N. rewrite (visit_unfold _ _ _ _ _ _ _ _ _ Hz Hc).
  set (st0 := mk_state (fs st) (log st ++ [Visit root])).
  assert (F : forall (c : M unit) evs,
            log (fst (c st0)) = (log st0 ++ evs)%list ->
            (forall p, In p (calls evs) -> dispatched_from target_types root p) ->
            exists evs',
              log (fst ((c ;; print Time_to_complete_folder ;; ret dirs) st0))
              = (log st ++ evs')%list
              /\ forall p, In p (calls evs') ->
                   exists top, In top (visits evs')
                               /\ dispatched_from target_types top p).
  { intros c evs E D.
    assert (V : forall tl p, In p (calls (Visit root :: evs ++ tl)) ->
                             calls tl = [] ->
                exists top, In top (visits (Visit root :: evs ++ tl))
                            /\ dispatched_from target_types top p).
    { intros tl p Hp Htl. exists root. split; [now left|]. apply D.
      simpl in Hp. rewrite calls_app, Htl, app_nil_r in Hp. exact Hp. }
    unfold bind. destruct (c st0) as [st1 [[]|e]]; simpl in E |- *.
    - exists (Visit root :: evs ++ [Print Time_to_complete_folder])%list.
      split; [rewrite E; now rewrite <- !app_assoc|].
      intros p Hp. now apply V.
    - exists (Visit root :: evs ++ [])%list.
      split; [rewrite E, app_nil_r; now rewrite <- !app_assoc|].
      intros p Hp. now apply V. }
  destruct (String.eqb_spec (OsPath.basename root) "layers") as [Hl|Hl]; cbn [negb].
  - destruct (convert_tif_log root output_format quality overwrite mod_value
                output_path st0) as (e1 & E1 & Q1).
    apply (F _ _ E1).
    rewrite calls_cons_enter, (quiet_calls _ Q1). intros p [<-|[]].
    repeat split; auto.
  - destruct (convert_subfolders_log output_format quality overwrite mod_value
                output_path root dirs st0) as (e1 & E1 & _ & [rest R1] & _).
    apply (F _ _ E1).
    intros p Hp.
    assert (Hin : In p (source_subfolders root dirs))
      by (rewrite R1; apply in_or_app; now left).
    unfold source_subfolders in Hin. apply in_map_iff in Hin.
    destruct Hin as (d & <- & Hd). apply filter_In in Hd. destruct Hd as [_ Hd].
    apply negb_true_iff in Hd.
    split; [exact Hz|]. split; [exact Hc|]. right. split; [exact Hl|]. now exists d.
Qed.

Lemma idle_refl st : idle st st.
Proof. exists []. rewrite app_nil_r. auto. Qed.

Lemma idle_trans s1 s2 s3 : idle s1 s2 -> idle s2 s3 -> idle s1 s3.
Proof.
  intros (e1 & E1 & H1) (e2 & E2 & H2). exists (e1 ++ e2)%list.
  split; [now rewrite E2, E1, app_assoc|].
  rewrite calls_app. intros H. apply app_eq_nil in H. destruct H as [C1 C2].
  rewrite (H2 C2). now apply H1.
Qed.

Lemma idle_emit e : relates idle (emit e).
Proof. intros st. exists [e]. auto. Qed.

Lemma idle_convert_tif src :
  relates idle (convert_tif src output_format quality overwrite mod_value output_path).
Proof.
  intros st.
  destruct (convert_tif_log src output_format quality overwrite mod_value
              output_path st) as (e1 & E1 & _).
  exists (Enter_convert_tif src :: e1). split; [exact E1|].
  rewrite calls_cons_enter. discriminate.
Qed.

Lemma idle_visit root dirs :
  relates idle
    (visit target_types output_format quality overwrite mod_value output_path
       root dirs).
Proof.
  unfold visit, convert_subfolders.
  repeat first
    [ apply idle_emit
    | apply idle_convert_tif
    | apply (relates_ret idle idle_refl)
    | apply (relates_bind idle idle_trans)
    | apply (relates_for_each idle idle_refl idle_trans)
    | apply (relates_if idle)
    | intro ].
Qed.

Lemma raises_visit root dirs :
  raises_only (walk_error mod_value)
    (visit target_types output_format quality overwrite mod_value output_path
       root dirs).
Proof.
  assert (C : forall src,
            raises_only (walk_error mod_value)
              (convert_tif src output_format quality overwrite mod_value output_path))
    by (intros src st e H; now apply convert_tif_raise_inv in H).
  unfold visit, convert_subfolders.
  repeat first
    [ apply raises_only_emit
    | apply C
    | apply raises_only_ret
    | apply raises_only_bind
    | apply raises_only_for_each
    | apply raises_only_if
    | intro ].
Qed.

End Run.

(** X11.  In a run of the walk the Folder Converter is called only where the
    loop body dispatches it: on a visited directory named [layers] whose
    name is a target type, or on a sub-directory, not named like an output
    folder, of a visited directory whose name is another target type; and in
    both cases the path of the visited directory does not end in [.zarr]. *)
Theorem calls_are_dispatched_from_visited_folders {L : Libs}
    (fuel : nat) (root_directory : string) (target_types : list string)
    (output_format : string) (quality : Z) (overwrite : bool)
    (mod_value output_path : option string) (st : state) :
  exists evs,
    log (fst (process_specific_folders fuel root_directory target_types
                output_format quality overwrite mod_value output_path st))
    = (log st ++ evs)%list
    /\ forall p, In p (calls evs) ->
         exists top, In top (visits evs) /\ dispatched_from target_types top p.
Proof.
  unfold process_specific_folders.
  apply (relates_walk (dispatches target_types) (dispatches_refl target_types)
           (dispatches_trans target_types)).
  intros top dirs. apply dispatches_visit.
Qed.

(** X13.  A run of the walk in which the Folder Converter is never called
    leaves the tree as it was. *)
Theorem run_without_a_call_changes_nothing {L : Libs}
    (fuel : nat) (root_directory : string) (target_types : list string)
    (output_format : string) (quality : Z) (overwrite : bool)
    (mod_value output_path : option string) (st : state) :
  let run := process_specific_folders fuel root_directory target_types
               output_format quality overwrite mod_value output_path st in
  exists evs,
    log (fst run) = (log st ++ evs)%list
    /\ (calls evs = [] -> fs (fst run) = fs st).
Proof.
  unfold process_specific_folders.
  apply (relates_walk idle idle_refl idle_trans).
  intros top dirs. apply idle_visit.
Qed.

(** X14.  The only exceptions that leave the walk are those of the Folder
    Converter: an [OSError], or a [ZeroDivisionError] when the modulo value
    reads as zero. *)
Theorem process_specific_folders_raises_only {L : Libs}
    (fuel : nat) (root_directory : string) (target_types : list string)
    (output_format : string) (quality : Z) (overwrite : bool)
    (mod_value output_path : option string) (st : state) (e : exn) :
  snd (process_specific_folders fuel root_directory target_types output_format
         quality overwrite mod_value output_path st) = Some (Raise e) ->
  e = OSError \/ (e = ZeroDivisionError /\ reads_as_zero mod_value).
Proof.
  unfold process_specific_folders.
  apply (raises_only_walk (walk_error mod_value)).
  intros top dirs. apply raises_visit.
Qed.

Lemma process_specific_folders_raises_only_witness :
  ZeroDivisionError = OSError
  \/ (ZeroDivisionError = ZeroDivisionError /\ reads_as_zero (Some "0")).
Proof.
  apply (@process_specific_folders_raises_only Sample.toy 4 "." ["volumes"] "png" 95
           true (Some "0") None (Sample.initial Sample.volumes_tree)).
  reflexivity.
Defined.

(** X16.  The script ends with an uncaught exception only in three ways:
    with a [ValueError] when the quality argument is not an integer, before
    anything is printed or done; with an [OSError]; or with a
    [ZeroDivisionError] when the modulo argument reads as zero. *)
Theorem main_raises_only {L : Libs} (fuel : nat) (argv : list string)
    (st : state) (e : exn) :
  snd (main fuel argv st) = Some (Raise e) ->
  (e = ValueError
   /\ (exists q, nth_error argv 5 = Some q /\ Py.int q = None)
   /\ fst (main fuel argv st) = st)
  \/ e = OSError
  \/ (e = ZeroDivisionError /\ reads_as_zero (nth_error argv 6)).
Proof.
  unfold main, process_specific_folders.
  assert (H : forall quality st1 e',
            snd (walk fuel [nth 1 argv "./"]
                   (visit
                      match nth_error argv 2 with
                      | Some t =>
                          if String.eqb t "all"
                          then ["volumes"; "masked_volumes"; "layers"] else [t]
                      | None => ["layers"]
                      end (nth 3 argv "jpg") quality
                      match nth_error argv 4 with
                      | Some o => String.eqb (Py.lower o) "true"
                      | None => false
                      end (nth_error argv 6) None) st1) = Some (Raise e') ->
            walk_error (nth_error argv 6) e').
  { intros quality st1 e'. apply raises_only_walk.
    intros top dirs. apply raises_visit. }
  destruct (match nth_error argv 5 with Some q => Py.int q | None => Some 95 end)
    as [quality|] eqn:Eq.
  - match goal with
    | |- context [walk fuel ?stack ?body ?st1] =>
        specialize (H quality st1); destruct (walk fuel stack body st1)
          as [st2 [[[]|e']|]]
    end; simpl; try discriminate.
    intros [= <-]. right. now apply H.
  - cbn [snd fst]. intros [= <-]. left. split; [reflexivity|]. split; [|reflexivity].
    destruct (nth_error argv 5) as [q|]; [|discriminate]. now exists q.
Qed.

Lemma main_raises_only_witness :
  (ValueError = ValueError
   /\ (exists q,
         nth_error ["parallel_tif_to_jpg_or_png.py"; "."; "volumes"; "png"; "true"; "high"] 5
         = Some q /\ Py.int q = None)
   /\ fst (@main Sample.toy 4
             ["parallel_tif_to_jpg_or_png.py"; "."; "volumes"; "png"; "true"; "high"]
             (Sample.initial Sample.volumes_tree))
      = Sample.initial Sample.volumes_tree)
  \/ ValueError = OSError
  \/ (ValueError = ZeroDivisionError
      /\ reads_as_zero
           (nth_error
              ["parallel_tif_to_jpg_or_png.py"; "."; "volumes"; "png"; "true"; "high"] 6)).
Proof.
  apply (@main_raises_only Sample.toy 4
           ["parallel_tif_to_jpg_or_png.py"; "."; "volumes"; "png"; "true"; "high"]
           (Sample.initial Sample.volumes_tree) ValueError).
  reflexivity.
Defined.

(** X17.  Nothing is removed by the script: every directory of the tree is
    still a directory with at least the entries it had, every regular file
    is still a regular file, and a file whose name does not end in [g] has
    the bytes it had. *)
Theorem main_removes_nothing {L : Libs} (fuel : nat) (argv : list string) (st : state) :
  keeps (fs st) (fs (fst (main fuel argv st))).
Proof.
  unfold main.
  destruct (match nth_error argv 5 with Some q => Py.int q | None => Some 95 end)
    as [quality|]; [|apply Keeps.keeps_refl].
  match goal with
  | |- context [process_specific_folders fuel ?r ?t ?f ?q ?o ?m ?out ?st1] =>
      pose proof (keeps_process_specific_folders fuel r t f q o m out st1) as H;
      destruct (process_specific_folders fuel r t f q o m out st1)
        as [st2 [[[]|e']|]]
  end; exact H.
Qed.

(** X15.  A run of the walk changes no TIFF file: a path that ends in [f] or
    [F], as the paths of the candidates do, reads the same bytes after the
    run as before. *)
Theorem tiff_files_are_not_modified {L : Libs}
    (fuel : nat) (root_directory : string) (target_types : list string)
    (output_format : string) (quality : Z) (overwrite : bool)
    (mod_value output_path : option string) (st : state) (p bytes : string) :
  tif_path p ->
  Fs.read_file (fs st) cwd p = Some bytes ->
  Fs.read_file
    (fs (fst (process_specific_folders fuel root_directory target_types
                output_format quality overwrite mod_value output_path st))) cwd p
  = Some bytes.
Proof.
  intros Hp Hr.
  pose proof (keeps_process_specific_folders fuel root_directory target_types
                output_format quality overwrite mod_value output_path st) as K.
  destruct Hp as [Hp|Hp];
    eapply (Keeps.keeps_read_file _ _ _ _ _ _ K Hr Hp); discriminate.
Qed.

Lemma tiff_files_are_not_modified_witness :
  Fs.read_file
    (fs (fst (@process_specific_folders Sample.toy 4 "." ["volumes"] "png" 95 true
                None None (Sample.initial Sample.volumes_tree)))) [] "volumes/volA/1.tif"
  = Some "II*b".
Proof.
  apply (@tiff_files_are_not_modified Sample.toy 4 "." ["volumes"] "png" 95 true
           None None (Sample.initial Sample.volumes_tree) "volumes/volA/1.tif" "II*b");
    [now left|reflexivity].
Defined.

(** ** The range helper *)

Module RangeFacts.

Import Builtins RangeHelper.

Lemma drop_last_snoc s c : drop_last (s ++ String c "") = s.
Proof.
  induction s as [|d s IH]; [reflexivity|].
  change (drop_last (String d (s ++ String c "")) = String d s).
  cbn [drop_last]. rewrite IH. now destruct s.
Qed.

Lemma accumulate_app indices : forall output,
  accumulate indices output = output ++ accumulate indices "".
Proof.
  unfold accumulate. induction indices as [|i indices IH]; intros output; simpl.
  - now rewrite append_nil_r.
  - rewrite IH, (IH (str i ++ ",")). now rewrite !append_assoc.
Qed.

(** The loop leaves the joined indices and one more comma. *)
Lemma accumulate_join i indices :
  accumulate (i :: indices) "" = join "," (map str (i :: indices)) ++ ",".
Proof.
  revert i. induction indices as [|j indices IH]; intros i.
  - reflexivity.
  - change (accumulate (i :: j :: indices) "")
      with (accumulate (j :: indices) ("" ++ str i ++ ",")).
    rewrite accumulate_app, IH. simpl. now rewrite !append_assoc.
Qed.

Lemma range_positive stop step :
  0 < step ->
  exists indices,
    range 0 stop step = Some indices
    /\ (forall i, In i indices <-> 0 <= i < stop /\ i mod step = 0)
    /\ StronglySorted Z.lt indices.
Proof.
  intros Hs. unfold range, range_length.
  destruct (Z.eqb_spec step 0) as [|_]; [lia|].
  destruct (Z.ltb_spec 0 step) as [_|]; [|lia].
  eexists. split; [reflexivity|]. split.
  - intros i. rewrite in_map_iff. split.
    + intros (k & <- & Hk). apply in_seq in Hk. simpl.
      destruct (Z.ltb_spec 0 stop) as [Hn|Hn]; [|simpl in Hk; lia].
      pose proof (Z.mul_div_le (stop - 0 - 1) step Hs) as Hle.
      assert (H0 : 0 <= (stop - 0 - 1) / step) by (apply Z.div_pos; lia).
      revert Hk Hle H0. generalize ((stop - 0 - 1) / step). intros d Hk Hle H0.
      split; [nia|]. apply Z_mod_mult.
    + intros [[H0 Hn] Hm]. exists (Z.to_nat (i / step)).
      assert (Hd : 0 <= i / step) by (apply Z.div_pos; lia).
      rewrite Z2Nat.id by exact Hd. split.
      * simpl. pose proof (Z.div_mod i step). lia.
      * apply in_seq. destruct (Z.ltb_spec 0 stop) as [_|]; [|lia].
        assert (Hq : i / step <= (stop - 0 - 1) / step)
          by (apply Z.div_le_mono; lia).
        revert Hq Hd. generalize ((stop - 0 - 1) / step), (i / step).
        intros d k Hq Hd. lia.
  - generalize (Z.to_nat (if 0 <? stop then (stop - 0 - 1) / step + 1 else 0)).
    intros len. generalize 0%nat.
    induction len as [|len IH]; intros a; simpl; constructor; [apply IH|].
    rewrite Forall_forall. intros x Hx. apply in_map_iff in Hx.
    destruct Hx as (k & <- & Hk). apply in_seq in Hk. nia.
Qed.

End RangeFacts.

(** X18.  For a positive length and a positive step the helper prints,
    between brackets and separated by commas with no comma after the last,
    the multiples of the step from 0 up to but not including the length, in
    increasing order. *)
Theorem range_helper_prints_the_multiples (scrollZAxis step : Z) :
  0 < scrollZAxis ->
  0 < step ->
  exists indices,
    RangeHelper.sample_output scrollZAxis step
    = Some ("[" ++ Builtins.join "," (map Builtins.str indices) ++ "]")
    /\ (forall i, In i indices <-> 0 <= i < scrollZAxis /\ i mod step = 0)
    /\ StronglySorted Z.lt indices.
Proof.
  intros Hn Hs.
  destruct (RangeFacts.range_positive scrollZAxis step Hs) as (indices & E & Hin & Hsorted).
  exists indices. split; [|split; assumption].
  unfold RangeHelper.sample_output. rewrite E. f_equal.
  destruct indices as [|i indices].
  - exfalso. apply (proj2 (Hin 0)). split; [lia|apply Z.mod_0_l; lia].
  - rewrite RangeFacts.accumulate_app, RangeFacts.accumulate_join.
    rewrite <- append_assoc, RangeFacts.drop_last_snoc. now rewrite append_assoc.
Qed.

Lemma range_helper_prints_the_multiples_witness :
  exists indices,
    RangeHelper.output
    = Some ("[" ++ Builtins.join "," (map Builtins.str indices) ++ "]")
    /\ (forall i, In i indices <-> 0 <= i < 14427 /\ i mod 100 = 0)
    /\ StronglySorted Z.lt indices.
Proof.
  apply (range_helper_prints_the_multiples 14427 100); lia.
Defined.

(** X19.  For a length that is not positive the loop body never runs, and
    line 15 removes the opening bracket: the helper prints a closing bracket
    alone. *)
Theorem range_helper_empty_range (scrollZAxis step : Z) :
  scrollZAxis <= 0 ->
  0 < step ->
  RangeHelper.sample_output scrollZAxis step = Some "]".
Proof.
  intros Hn Hs. unfold RangeHelper.sample_output, Builtins.range, Builtins.range_length.
  destruct (Z.eqb_spec step 0) as [|_]; [lia|].
  destruct (Z.ltb_spec 0 step) as [_|]; [|lia].
  destruct (Z.ltb_spec 0 scrollZAxis) as [|_]; [lia|]. reflexivity.
Qed.

Lemma range_helper_empty_range_witness :
  RangeHelper.sample_output 0 100 = Some "]".
Proof.
  apply range_helper_empty_range; lia.
Defined.

(** The example of the comment on lines 18-20, for a step of 500. *)
Example range_helper_step_500 :
  RangeHelper.sample_output 14427 500
  = Some ("[0,500,1000,1500,2000,2500,3000,3500,4000,4500,5000,5500,6000,6500,"
          ++ "7000,7500,8000,8500,9000,9500,10000,10500,11000,11500,12000,12500,"
          ++ "13000,13500,14000]").
Proof. vm_compute. reflexivity. Qed.

(** ** The destination of a job, and its errors *)

(** X4.  A job writes directly into the destination folder: for a format
    without a slash, the destination path is the folder joined with a name
    that has no slash, whatever the source path is. *)
Theorem destination_is_an_entry_of_the_destination_folder
    (file_path dest_folder output_format : string) :
  mem_char "/" output_format = false ->
  exists name,
    dest_file_path_of file_path dest_folder output_format
    = OsPath.join dest_folder name
    /\ mem_char "/" name = false
    /\ Py.endswith name ("." ++ output_format) = true.
Proof.
  intros Hf. unfold dest_file_path_of. eexists. split; [reflexivity|]. split.
  - rewrite !mem_char_app, stem_no_slash, Hf. reflexivity.
  - apply endswith_app.
Qed.

Lemma destination_is_an_entry_of_the_destination_folder_witness :
  exists name,
    dest_file_path_of "scroll/layers/00012.tif" "scroll/layers_jpg" "jpg"
    = OsPath.join "scroll/layers_jpg" name
    /\ mem_char "/" name = false
    /\ Py.endswith name ("." ++ "jpg") = true.
Proof.
  apply (destination_is_an_entry_of_the_destination_folder
           "scroll/layers/00012.tif" "scroll/layers_jpg" "jpg").
  reflexivity.
Defined.

(** X3.  A job never raises: whatever fails inside it is caught on line 65,
    and the only lines it prints are error lines that name its file. *)
Theorem job_errors_are_caught_and_printed {L : Libs}
    (file_path dest_folder output_format : string) (quality : Z)
    (overwrite : bool) (st : state) :
  let run := convert_single_tif file_path dest_folder output_format quality
               overwrite st in
  snd run = Ok tt
  /\ exists evs,
       log (fst run) = (log st ++ evs)%list
       /\ forall m, In (Print m) evs -> exists e, m = Error_processing file_path e.
Proof.
  cbv zeta. split; [apply convert_single_tif_returns|].
  set (P := fun ev => forall m, ev = Print m ->
                      exists e, m = Error_processing file_path e).
  assert (N : forall ev : event, (forall m, ev <> Print m) -> P ev)
    by (intros ev H m Hm; now apply H in Hm).
  assert (S : forall img d c, emits P (Image_save img d c)).
  { intros img d c. unfold Image_save.
    apply emits_bind; [apply emits_emit, N; discriminate|]. intros _.
    apply emits_silent. intros st0.
    destruct (Fs.open_write (fs st0) cwd d) as [l|]; [|reflexivity].
    destruct (encode c img); [reflexivity|]. now destruct (Fs.present (fs st0) l). }
  assert (E : emits P (convert_single_tif file_path dest_folder output_format
                         quality overwrite)).
  { unfold convert_single_tif. apply emits_try_except.
    - apply emits_bind; [apply emits_silent; reflexivity|]. intros present.
      apply emits_if; [apply emits_ret|].
      apply emits_bind.
      + unfold tifffile_imread.
        apply emits_bind; [apply emits_emit, N; discriminate|]. intros _.
        apply emits_silent. intros st0.
        destruct (Fs.read_file (fs st0) cwd file_path) as [bytes|]; [|reflexivity].
        now destruct (decode_tiff bytes).
      + intros a. apply emits_bind.
        * unfold Image_fromarray. apply emits_if; [apply emits_ret|apply emits_raise].
        * intros img. repeat apply emits_if; try apply S. apply emits_ret.
    - intros e. apply emits_emit. intros m [= <-]. now exists e. }
  destruct (E st) as (evs & Hlog & F). exists evs. split; [exact Hlog|].
  intros m Hm. rewrite Forall_forall in F. exact (F _ Hm m eq_refl).
Qed.

(** ** With overwrite off no file is changed *)

Section OverwriteOff.

Context {L : Libs}.

Lemma untouched_refl t : untouched t t.
Proof. intros q b H. exact H. Qed.

Lemma untouched_trans t1 t2 t3 : untouched t1 t2 -> untouched t2 t3 -> untouched t1 t3.
Proof. intros H12 H23 q b H. apply H23, H12, H. Qed.

Lemma grows_untouched t t' : grows t t' -> untouched t t'.
Proof. intros G q b H. specialize (G q). now rewrite H in G. Qed.

Lemma mkdirs_untouched comps : forall t cur fr,
  untouched t (fst (Fs.mkdirs t cur fr comps)).
Proof.
  induction comps as [|c comps IH]; intros t cur fr; simpl; [apply untouched_refl|].
  destruct (Fs.is_dir t cur) eqn:Hd; simpl; [|apply untouched_refl].
  destruct (Fs.is_dot c); [apply IH|].
  destruct (String.eqb c ".."); [apply IH|].
  destruct (Fs.present t (cur ++ [c])%list) eqn:Hp; [apply IH|].
  eapply untouched_trans; [|apply IH]. intros q b H.
  pose proof (FsFacts.lookup_set_fresh (Fs.Dir []) c eq_refl cur t Hd Hp q) as F.
  now rewrite H in F.
Qed.

Lemma untouched_fs_refl st : untouched_fs st st.
Proof. split; [apply Keeps.keeps_refl|apply untouched_refl]. Qed.

Lemma untouched_fs_trans s1 s2 s3 :
  untouched_fs s1 s2 -> untouched_fs s2 s3 -> untouched_fs s1 s3.
Proof.
  intros [K1 U1] [K2 U2].
  split; [eapply Keeps.keeps_trans|eapply untouched_trans]; eauto.
Qed.

Lemma untouched_same_fs {A} (c : M A) :
  (forall st, fs (fst (c st)) = fs st) -> relates untouched_fs c.
Proof. intros H st. unfold untouched_fs. rewrite H. apply untouched_fs_refl. Qed.

Lemma untouched_ensure_dest_folder dest : relates untouched_fs (ensure_dest_folder dest).
Proof.
  intros st. split; [apply keeps_ensure_dest_folder|].
  unfold ensure_dest_folder, os_path_exists, os_makedirs, bind. simpl.
  destruct (Fs.path_exists (fs st) cwd dest); simpl; [apply untouched_refl|].
  unfold Fs.makedirs. destruct (String.eqb dest ""); simpl; [apply untouched_refl|].
  pose proof (mkdirs_untouched (OsPath.split_on "/" dest) (fs st)
                (Fs.start cwd dest) false) as H.
  now destruct (Fs.mkdirs _ _ _ _).
Qed.

Lemma untouched_run_pool files dest fmt q :
  relates untouched_fs (run_pool files dest fmt q false).
Proof.
  intros st. split; [apply keeps_run_pool|].
  rewrite run_pool_fs. apply grows_untouched, run_jobs_grows.
Qed.

Lemma untouched_convert_tif src fmt q mv out :
  relates untouched_fs (convert_tif src fmt q false mv out).
Proof.
  unfold convert_tif, candidates.
  apply (relates_bind untouched_fs untouched_fs_trans).
  - apply (relates_bind untouched_fs untouched_fs_trans);
      [apply untouched_same_fs; reflexivity|]. intros _.
    apply (relates_bind untouched_fs untouched_fs_trans);
      [apply untouched_ensure_dest_folder|]. intros _.
    apply (relates_bind untouched_fs untouched_fs_trans).
    + apply untouched_same_fs. intros st. unfold os_listdir.
      now destruct (Fs.listdir (fs st) cwd src).
    + intros names. apply (relates_ret untouched_fs untouched_fs_refl).
  - intros files. apply (relates_bind untouched_fs untouched_fs_trans).
    + apply untouched_same_fs. intros st. apply modulo_filter_pure.
    + intros kept. apply untouched_run_pool.
Qed.

Lemma untouched_visit targets fmt q mv out root dirs :
  relates untouched_fs (visit targets fmt q false mv out root dirs).
Proof.
  unfold visit, convert_subfolders.
  repeat first
    [ apply untouched_convert_tif
    | apply (untouched_same_fs (emit _)); reflexivity
    | apply (untouched_same_fs (print _)); reflexivity
    | apply (relates_ret untouched_fs untouched_fs_refl)
    | apply (relates_bind untouched_fs untouched_fs_trans)
    | apply (relates_for_each untouched_fs untouched_fs_refl untouched_fs_trans)
    | apply (relates_if untouched_fs)
    | intro ].
Qed.

Lemma untouched_read_file st st' p b :
  untouched_fs st st' ->
  Fs.read_file (fs st) cwd p = Some b -> Fs.read_file (fs st') cwd p = Some b.
Proof.
  intros [K U]. unfold Fs.read_file.
  destruct (Fs.resolve (fs st) cwd p) as [l|] eqn:Hr; [|discriminate].
  rewrite (Keeps.keeps_resolve _ _ _ _ _ K Hr).
  destruct (Fs.lookup (fs st) l) as [[b0|es]|] eqn:El; try discriminate.
  intros [= ->]. now rewrite (U l b El).
Qed.

End OverwriteOff.

(** X20.  With overwrite off a run of the walk changes no file that is
    there: every path that reads as some bytes before the run reads as the
    same bytes after it, output files of earlier runs included. *)
Theorem overwrite_off_changes_no_file {L : Libs}
    (fuel : nat) (root_directory : string) (target_types : list string)
    (output_format : string) (quality : Z)
    (mod_value output_path : option string) (st : state) (p bytes : string) :
  Fs.read_file (fs st) cwd p = Some bytes ->
  Fs.read_file
    (fs (fst (process_specific_folders fuel root_directory target_types
                output_format quality false mod_value output_path st))) cwd p
  = Some bytes.
Proof.
  apply untouched_read_file. unfold process_specific_folders.
  apply (relates_walk untouched_fs untouched_fs_refl untouched_fs_trans).
  intros top dirs. apply untouched_visit.
Qed.

Lemma overwrite_off_changes_no_file_witness :
  Fs.read_file
    (fs (fst (@process_specific_folders Sample.toy 3 "." ["."] "png" 95 false
                None None (Sample.initial Sample.converted_once)))) [] "d_png/0.png"
  = Some "old".
Proof.
  apply (@overwrite_off_changes_no_file Sample.toy 3 "." ["."] "png" 95 None None
           (Sample.initial Sample.converted_once) "d_png/0.png" "old").
  reflexivity.
Defined.

(** X21.  Unless its fifth argument spells [true], the script changes no
    file that is there: overwrite is off by default. *)
Theorem main_changes_no_file_by_default {L : Libs}
    (fuel : nat) (argv : list string) (st : state) (p bytes : string) :
  (forall o, nth_error argv 4 = Some o -> Py.lower o <> "true") ->
  Fs.read_file (fs st) cwd p = Some bytes ->
  Fs.read_file (fs (fst (main fuel argv st))) cwd p = Some bytes.
Proof.
  intros Ho. apply untouched_read_file. unfold main.
  assert (E : match nth_error argv 4 with
              | Some o => String.eqb (Py.lower o) "true"
              | None => false
              end = false).
  { destruct (nth_error argv 4) as [o|]; [|reflexivity].
    apply String.eqb_neq. now apply Ho. }
  rewrite E.
  destruct (match nth_error argv 5 with Some q => Py.int q | None => Some 95 end)
    as [quality|]; [|apply untouched_fs_refl].
  match goal with
  | |- context [process_specific_folders fuel ?r ?t ?f ?q false ?m ?out ?st1] =>
      assert (H : untouched_fs st
                    (fst (process_specific_folders fuel r t f q false m out st1)))
        by (unfold process_specific_folders;
            apply (relates_walk untouched_fs untouched_fs_refl untouched_fs_trans
                     _ (fun top dirs => untouched_visit t f q m out top dirs)
                     fuel [r] st1));
      destruct (process_specific_folders fuel r t f q false m out st1)
        as [st2 [[[]|e']|]]
  end; exact H.
Qed.

Lemma main_changes_no_file_by_default_witness :
  Fs.read_file
    (fs (fst (@main Sample.toy 3 ["parallel_tif_to_jpg_or_png.py"; "."; "."; "png"]
                (Sample.initial Sample.converted_once)))) [] "d_png/0.png"
  = Some "old".
Proof.
  apply (@main_changes_no_file_by_default Sample.toy 3
           ["parallel_tif_to_jpg_or_png.py"; "."; "."; "png"]
           (Sample.initial Sample.converted_once) "d_png/0.png" "old");
    [intros o; discriminate|reflexivity].
Defined.

(** ** The names of the entries stay without a slash *)

Module WellNamed.

Import Fs.
Local Open Scope list_scope.

Lemma well_named_cons n x es :
  well_named (Dir ((n, x) :: es))
  = slash_free n && well_named x && well_named (Dir es).
Proof. reflexivity. Qed.

Lemma well_named_find es c y :
  well_named (Dir es) = true -> find_entry es c = Some y ->
  slash_free c = true /\ well_named y = true.
Proof.
  induction es as [|[n x] es IH]; [discriminate|].
  rewrite well_named_cons. intros H. apply andb_true_iff in H.
  destruct H as [H Hes]. apply andb_true_iff in H. destruct H as [Hn Hx]. simpl.
  destruct (String.eqb_spec n c) as [->|_].
  - intros [= <-]. auto.
  - now apply IH.
Qed.

Lemma well_named_names es :
  well_named (Dir es) = true -> Forall (fun n => slash_free n = true) (map fst es).
Proof.
  induction es as [|[n x] es IH]; [constructor|].
  rewrite well_named_cons. intros H. apply andb_true_iff in H.
  destruct H as [H Hes]. apply andb_true_iff in H. destruct H as [Hn Hx].
  constructor; auto.
Qed.

Lemma well_named_put es c x :
  well_named (Dir es) = true -> slash_free c = true -> well_named x = true ->
  well_named (Dir (put_entry es c x)) = true.
Proof.
  intros Hes Hc Hx. induction es as [|[n y] es IH].
  - simpl. now rewrite Hc, Hx.
  - cbn [put_entry]. rewrite well_named_cons in Hes. apply andb_true_iff in Hes.
    destruct Hes as [H Hes]. apply andb_true_iff in H. destruct H as [Hn Hy].
    destruct (String.eqb n c); rewrite well_named_cons.
    + now rewrite Hn, Hx, Hes.
    + now rewrite Hn, Hy, IH.
Qed.

Lemma well_named_lookup q : forall t y,
  well_named t = true -> lookup t q = Some y -> well_named y = true.
Proof.
  induction q as [|c q IH]; intros t y Ht; simpl; [now intros [= <-]|].
  destruct t as [b|es]; [discriminate|].
  destruct (find_entry es c) as [x|] eqn:Ec; [|discriminate].
  apply IH. now apply (well_named_find es c x).
Qed.

(** Writing at a location whose last name has no slash. *)
Lemma well_named_set_at x l : forall t,
  well_named t = true -> well_named x = true ->
  slash_free (last l "") = true ->
  well_named (set_at t l x) = true.
Proof.
  induction l as [|c l IH]; intros t Ht Hx Hl; [exact Hx|].
  simpl. destruct t as [b|es]; [exact Ht|].
  destruct (find_entry es c) as [y|] eqn:Ec.
  - destruct (well_named_find es c y Ht Ec) as [Hc Hy].
    apply well_named_put; auto.
    destruct l as [|d l]; [exact Hx|]. apply IH; auto.
  - destruct l as [|d l]; [|exact Ht]. now apply well_named_put.
Qed.

Lemma split_on_slash_free s :
  Forall (fun c => slash_free c = true) (OsPath.split_on "/" s).
Proof.
  induction s as [|c s IH]; [repeat constructor|].
  rewrite split_on_cons. destruct (Ascii.eqb c "/") eqn:Ec.
  - constructor; [reflexivity|exact IH].
  - destruct (OsPath.split_on "/" s) as [|h t]; [repeat constructor|].
    + unfold slash_free. simpl. now rewrite Ec.
    + inversion IH as [|? ? Hh Ht]; subst. constructor; [|exact Ht].
      unfold slash_free in *. simpl. now rewrite Ec.
Qed.

Lemma well_named_mkdirs comps : forall t cur fr,
  Forall (fun c => slash_free c = true) comps ->
  well_named t = true -> well_named (fst (mkdirs t cur fr comps)) = true.
Proof.
  induction comps as [|c comps IH]; intros t cur fr Hc Ht; simpl; [exact Ht|].
  inversion Hc as [|? ? Hc1 Hc2]; subst.
  destruct (is_dir t cur); simpl; [|exact Ht].
  destruct (is_dot c); [now apply IH|].
  destruct (String.eqb c ".."); [now apply IH|].
  destruct (present t (cur ++ [c])); [now apply IH|].
  apply IH; [exact Hc2|]. apply well_named_set_at; auto. now rewrite last_last.
Qed.

Lemma well_named_makedirs t cwd0 p :
  well_named t = true -> well_named (fst (makedirs t cwd0 p)) = true.
Proof.
  intros Ht. unfold makedirs. destruct (String.eqb p ""); [exact Ht|].
  apply well_named_mkdirs; [apply split_on_slash_free|exact Ht].
Qed.

(** The location of a path whose last character is neither a slash nor a
    dot ends with a name that has no slash. *)
Lemma resolve_last_slash_free t cwd0 p l x :
  resolve t cwd0 p = Some l ->
  last_char p = Some x -> x <> "/"%char -> x <> "."%char ->
  slash_free (last l "") = true.
Proof.
  unfold resolve. destruct (String.eqb p ""); [discriminate|].
  intros Hr Hx H1 H2.
  pose proof (last_component_last_char p x Hx H1) as Hc.
  pose proof (split_on_slash_free p) as F.
  rewrite (app_removelast_last "" (split_on_nonempty "/" p)) in Hr, F.
  apply Forall_app in F. destruct F as [_ F]. inversion F as [|? ? Hs _]; subst.
  apply FsFacts.canon_snoc in Hr; [|eapply regular_last_char; eauto].
  destruct Hr as (parent & -> & _). now rewrite last_last.
Qed.

(** The sub-directories that [os.walk] lists have names without a slash. *)
Lemma scandir_slash_free t cwd0 p dirs files :
  well_named t = true ->
  scandir t cwd0 p = Some (dirs, files) ->
  Forall (fun d => slash_free d = true) dirs.
Proof.
  intros Ht. unfold scandir.
  destruct (resolve t cwd0 p) as [l|]; [|discriminate].
  destruct (lookup t l) as [[b|es]|] eqn:El; try discriminate.
  intros [= <- _].
  pose proof (well_named_names es (well_named_lookup l t (Dir es) Ht El)) as F.
  rewrite Forall_forall in *. intros d Hd. apply F.
  apply in_map_iff in Hd. destruct Hd as (e & <- & He).
  apply filter_In in He. apply in_map. tauto.
Qed.

End WellNamed.

Section Pruned.

Context {L : Libs}.

Variables (target_types : list string) (output_format : string) (quality : Z)
  (overwrite : bool) (mod_value output_path : option string).

Lemma stays_well_named_refl st : stays_well_named st st.
Proof. intros H. exact H. Qed.

Lemma stays_well_named_trans s1 s2 s3 :
  stays_well_named s1 s2 -> stays_well_named s2 s3 -> stays_well_named s1 s3.
Proof. unfold stays_well_named. auto. Qed.

Lemma named_same_fs {A} (c : M A) :
  (forall st, fs (fst (c st)) = fs st) -> relates stays_well_named c.
Proof. intros H st. unfold stays_well_named. now rewrite H. Qed.

Lemma named_os_makedirs p : relates stays_well_named (os_makedirs p).
Proof.
  intros st Hst. unfold os_makedirs.
  pose proof (WellNamed.well_named_makedirs (fs st) cwd p Hst) as H.
  destruct (Fs.makedirs (fs st) cwd p). exact H.
Qed.

Lemma named_tifffile_imread p : relates stays_well_named (tifffile_imread p).
Proof.
  apply named_same_fs. intros st. unfold tifffile_imread, bind, emit. simpl.
  destruct (Fs.read_file (fs st) cwd p) as [bytes|]; [|reflexivity].
  now destruct (decode_tiff bytes).
Qed.

Lemma named_Image_save img dest c :
  last_char dest = Some "g"%char -> relates stays_well_named (Image_save img dest c).
Proof.
  intros Hg st Hst. unfold Image_save, bind, emit. simpl.
  destruct (Fs.open_write (fs st) cwd dest) as [l|] eqn:Ho; [|exact Hst].
  assert (Hl : slash_free (last l "") = true).
  { unfold Fs.open_write in Ho.
    destruct (Fs.resolve (fs st) cwd dest) as [l'|] eqn:Hr; [|discriminate].
    assert (l' = l) as -> by (destruct (Fs.lookup (fs st) l') as [[]|]; congruence).
    eapply WellNamed.resolve_last_slash_free; eauto; discriminate. }
  destruct (encode c img) as [bytes|]; simpl;
    [now apply WellNamed.well_named_set_at|].
  destruct (Fs.present (fs st) l); simpl;
    [now apply WellNamed.well_named_set_at|exact Hst].
Qed.

Ltac named_step :=
  first [ apply (relates_ret stays_well_named stays_well_named_refl)
        | apply (relates_raise stays_well_named stays_well_named_refl)
        | apply (relates_lift stays_well_named stays_well_named_refl)
        | apply (named_same_fs (emit _)); reflexivity
        | apply named_os_makedirs
        | apply named_tifffile_imread
        | apply (relates_bind stays_well_named stays_well_named_trans)
        | apply (relates_try_except_ValueError stays_well_named stays_well_named_trans)
        | apply (relates_try_except stays_well_named stays_well_named_trans)
        | apply (relates_for_each stays_well_named stays_well_named_refl
                   stays_well_named_trans)
        | apply (relates_if stays_well_named)
        | intro ].

Lemma named_convert_single_tif file_path dest_folder fmt q ow :
  relates stays_well_named (convert_single_tif file_path dest_folder fmt q ow).
Proof.
  unfold convert_single_tif.
  apply (relates_try_except stays_well_named stays_well_named_trans);
    [|intros e; apply (named_same_fs (emit _)); reflexivity].
  apply (relates_bind stays_well_named stays_well_named_trans);
    [apply named_same_fs; reflexivity|]. intros present.
  apply (relates_if stays_well_named); [named_step|].
  apply (relates_bind stays_well_named stays_well_named_trans);
    [apply named_tifffile_imread|]. intros a.
  apply (relates_bind stays_well_named stays_well_named_trans);
    [unfold Image_fromarray; repeat named_step|]. intros img.
  destruct (String.eqb_spec fmt "jpg") as [->|_].
  - apply named_Image_save, last_char_dest_jpg.
  - destruct (String.eqb_spec fmt "png") as [->|_].
    + apply named_Image_save, last_char_dest_png.
    + named_step.
Qed.

Lemma named_convert_tif src :
  relates stays_well_named
    (convert_tif src output_format quality overwrite mod_value output_path).
Proof.
  unfold convert_tif, candidates.
  apply (relates_bind stays_well_named stays_well_named_trans).
  - apply (relates_bind stays_well_named stays_well_named_trans);
      [apply (named_same_fs (emit _)); reflexivity|]. intros _.
    apply (relates_bind stays_well_named stays_well_named_trans).
    + unfold ensure_dest_folder.
      apply (relates_bind stays_well_named stays_well_named_trans);
        [apply named_same_fs; reflexivity|]. intros present.
      apply (relates_if stays_well_named); [apply named_os_makedirs|named_step].
    + intros _. apply (relates_bind stays_well_named stays_well_named_trans).
      * apply named_same_fs. intros st. unfold os_listdir.
        now destruct (Fs.listdir (fs st) cwd src).
      * intros names. named_step.
  - intros files. apply (relates_bind stays_well_named stays_well_named_trans).
    + apply named_same_fs. intros st. apply modulo_filter_pure.
    + intros kept. unfold run_pool.
      apply (relates_bind stays_well_named stays_well_named_trans).
      * apply (relates_for_each stays_well_named stays_well_named_refl
                 stays_well_named_trans).
        intros f. apply (named_same_fs (emit _)). reflexivity.
      * intros _. apply (relates_for_each stays_well_named stays_well_named_refl
                           stays_well_named_trans).
        intros f. apply named_convert_single_tif.
Qed.

Lemma named_visit root dirs :
  relates stays_well_named
    (visit target_types output_format quality overwrite mod_value output_path
       root dirs).
Proof.
  unfold visit, convert_subfolders.
  repeat first
    [ apply named_convert_tif
    | apply (named_same_fs (emit _)); reflexivity
    | apply (named_same_fs (print _)); reflexivity
    | apply (relates_ret stays_well_named stays_well_named_refl)
    | apply (relates_bind stays_well_named stays_well_named_trans)
    | apply (relates_for_each stays_well_named stays_well_named_refl
               stays_well_named_trans)
    | apply (relates_if stays_well_named)
    | intro ].
Qed.

(** Every directory the walk visits, and every folder it hands to
    [convert_tif], is reached from the root through directories whose paths
    do not end in [.zarr]. *)
Lemma walk_stays_outside_zarr root fuel : forall stack st,
  well_named (fs st) = true ->
  Forall (reached_outside_zarr root) stack ->
  exists evs,
    log (fst (walk fuel stack
                (visit target_types output_format quality overwrite mod_value
                   output_path) st))
    = (log st ++ evs)%list
    /\ Forall (traced_outside_zarr root) evs.
Proof.
  induction fuel as [|fuel IH]; intros stack st Hst Hs.
  - exists []. rewrite app_nil_r. destruct stack; auto.
  - destruct stack as [|top stack]; [exists []; rewrite app_nil_r; auto|].
    inversion Hs as [|? ? Htop Hrest]; subst. cbn [walk].
    destruct (Fs.scandir (fs st) cwd top) as [[dirs files]|] eqn:Hscan;
      [|now apply IH].
    pose proof (WellNamed.scandir_slash_free _ _ _ _ _ Hst Hscan) as Hdirs.
    destruct (emits_visit target_types output_format quality overwrite mod_value
                output_path top dirs st) as (e1 & E1 & H1).
    pose proof (visit_result target_types output_format quality overwrite
                  mod_value output_path top dirs st) as Hr.
    pose proof (named_visit top dirs st Hst) as Hst1.
    destruct (visit _ _ _ _ _ _ top dirs st) as [st1 [dirs'|e]];
      simpl in E1, Hr, Hst1.
    + destruct (IH (map (OsPath.join top) dirs' ++ stack)%list st1 Hst1)
        as (e2 & E2 & H2).
      { apply Forall_app. split; [|exact Hrest].
        specialize (Hr dirs' eq_refl).
        destruct (Py.endswith top ".zarr") eqn:Hz; subst dirs'; [constructor|].
        apply Forall_forall. intros p Hp. apply in_map_iff in Hp.
        destruct Hp as (d & <- & Hd). apply reached_child; auto.
        rewrite Forall_forall in Hdirs. now apply Hdirs. }
      exists (e1 ++ e2)%list. rewrite E2, E1, app_assoc. split; [reflexivity|].
      apply Forall_app. split; [|exact H2].
      eapply Forall_impl; [|exact H1]. intros e.
      now apply visit_event_traced with (top := top) (dirs := dirs).
    + exists e1. split; [exact E1|].
      eapply Forall_impl; [|exact H1]. intros e'.
      now apply visit_event_traced with (top := top) (dirs := dirs).
Qed.

End Pruned.

(** ** A path reached outside [.zarr] has no slash after [.zarr] *)

Module PathFacts.

Lemma slash_free_startswith d : slash_free d = true -> Py.startswith d "/" = false.
Proof.
  intros H. destruct d as [|c d]; [reflexivity|].
  unfold Py.startswith. cbn [String.prefix].
  destruct (ascii_dec "/" c) as [<-|Hn]; [|reflexivity].
  unfold slash_free in H. simpl in H. discriminate.
Qed.

(** Where a slash of [x ++ "/" ++ d] is, for [d] without a slash. *)
Lemma slash_in_join x : forall a d b,
  x ++ String "/" d = a ++ String "/" b ->
  mem_char "/" d = false ->
  (a = x /\ b = d) \/ exists b', x = a ++ String "/" b' /\ b = b' ++ String "/" d.
Proof.
  induction x as [|c x IH]; intros a d b E Hd.
  - destruct a as [|c' a]; simpl in E.
    + injection E as <-. now left.
    + injection E as <- ->. rewrite mem_char_app in Hd. simpl in Hd.
      rewrite orb_true_r in Hd. discriminate.
  - destruct a as [|c' a]; simpl in E.
    + injection E as -> <-. right. now exists x.
    + injection E as <- E. destruct (IH a d b E Hd) as [[-> ->]|(b' & -> & ->)].
      * now left.
      * right. now exists b'.
Qed.

Lemma slash_in_prefix x : forall a d b,
  x ++ d = a ++ String "/" b ->
  mem_char "/" d = false ->
  exists b', x = a ++ String "/" b' /\ b = b' ++ d.
Proof.
  induction x as [|c x IH]; intros a d b E Hd.
  - simpl in E. subst d. rewrite mem_char_app in Hd. simpl in Hd.
    rewrite orb_true_r in Hd. discriminate.
  - destruct a as [|c' a]; simpl in E.
    + injection E as -> <-. now exists x.
    + injection E as <- E. destruct (IH a d b E Hd) as (b' & -> & ->). now exists b'.
Qed.

(** In a path reached outside [.zarr], what stands before a slash, from the
    root on, does not end in [.zarr]. *)
Lemma reached_no_slash_after_zarr root comps : forall a b,
  Forall (fun c => slash_free c = true) comps ->
  (forall k, (k < List.length comps)%nat ->
             Py.endswith (under root (firstn k comps)) ".zarr" = false) ->
  under root comps = a ++ String "/" b ->
  (String.length root <= String.length a)%nat ->
  Py.endswith a ".zarr" = false.
Proof.
  induction comps as [|d comps IH] using rev_ind; intros a b F H E Hlen.
  - simpl in E. subst root. rewrite length_append in Hlen. simpl in Hlen. lia.
  - apply Forall_app in F. destruct F as [F Fd]. inversion Fd as [|? ? Hd _]; subst.
    assert (Hq : Py.endswith (under root comps) ".zarr" = false).
    { specialize (H (List.length comps)). rewrite length_app in H. simpl in H.
      rewrite firstn_app, Nat.sub_diag, firstn_all in H. simpl in H.
      rewrite app_nil_r in H. apply H. lia. }
    assert (H' : forall k, (k < List.length comps)%nat ->
                 Py.endswith (under root (firstn k comps)) ".zarr" = false).
    { intros k Hk. specialize (H k). rewrite length_app in H. simpl in H.
      rewrite firstn_app in H. replace (k - List.length comps)%nat with 0%nat in H by lia.
      simpl in H. rewrite app_nil_r in H. apply H. lia. }
    unfold under in E. rewrite fold_left_app in E. simpl in E.
    fold (under root comps) in E. unfold OsPath.join in E.
    rewrite (slash_free_startswith d Hd) in E.
    assert (Hm : mem_char "/" d = false)
      by (unfold slash_free in Hd; now apply negb_true_iff in Hd).
    destruct (String.eqb (under root comps) "" || Py.endswith (under root comps) "/").
    + destruct (slash_in_prefix _ _ _ _ E Hm) as (b' & Eq & _).
      exact (IH a b' F H' Eq Hlen).
    + change (under root comps ++ "/" ++ d)
        with (under root comps ++ String "/" d) in E.
      destruct (slash_in_join _ _ _ _ E Hm) as [[-> _]|(b' & Eq & _)]; [exact Hq|].
      exact (IH a b' F H' Eq Hlen).
Qed.

End PathFacts.

(** X12.  On a tree whose entries have names without a slash, every
    directory visited and every folder converted in a run has a path built
    from the root by joining one entry name after the other, and no
    directory gone through on the way has a path that ends in [.zarr].  So
    in such a path nothing that ends in [.zarr] stands before a slash, from
    the root path on: the walk never goes below a path that ends in
    [.zarr]. *)
Theorem zarr_directories_are_pruned {L : Libs}
    (fuel : nat) (root_directory : string) (target_types : list string)
    (output_format : string) (quality : Z) (overwrite : bool)
    (mod_value output_path : option string) (st : state) :
  well_named (fs st) = true ->
  exists evs,
    log (fst (process_specific_folders fuel root_directory target_types
                output_format quality overwrite mod_value output_path st))
    = (log st ++ evs)%list
    /\ (forall p, In p (visits evs) \/ In p (calls evs) ->
          (exists comps,
             p = fold_left OsPath.join comps root_directory
             /\ Forall (fun c => mem_char "/" c = false) comps
             /\ forall k, (k < List.length comps)%nat ->
                  Py.endswith
                    (fold_left OsPath.join (firstn k comps) root_directory)
                    ".zarr" = false)
          /\ (forall a b,
                p = a ++ "/" ++ b ->
                (String.length root_directory <= String.length a)%nat ->
                Py.endswith a ".zarr" = false)).
Proof.
  intros Hst.
  destruct (walk_stays_outside_zarr target_types output_format quality overwrite
              mod_value output_path root_directory fuel [root_directory] st Hst)
    as (evs & E & H).
  { constructor; [apply reached_root|constructor]. }
  exists evs. split; [exact E|]. rewrite Forall_forall in H.
  assert (R : forall p, reached_outside_zarr root_directory p ->
            (exists comps,
               p = fold_left OsPath.join comps root_directory
               /\ Forall (fun c => mem_char "/" c = false) comps
               /\ forall k, (k < List.length comps)%nat ->
                    Py.endswith
                      (fold_left OsPath.join (firstn k comps) root_directory)
                      ".zarr" = false)
            /\ (forall a b,
                  p = a ++ "/" ++ b ->
                  (String.length root_directory <= String.length a)%nat ->
                  Py.endswith a ".zarr" = false)).
  { intros p (comps & -> & F & Hk). split.
    - exists comps. split; [reflexivity|].
      split; [|exact Hk]. eapply Forall_impl; [|exact F].
      intros c Hc. unfold slash_free in Hc. now apply negb_true_iff in Hc.
    - intros a b Ep Hlen.
      exact (PathFacts.reached_no_slash_after_zarr root_directory comps a b F Hk
               Ep Hlen). }
  intros p [Hp|Hp]; apply in_flat_map in Hp; destruct Hp as ([] & Hin & Hp);
    simpl in Hp; try contradiction; destruct Hp as [<-|[]]; apply R;
    exact (H _ Hin).
Qed.

Lemma zarr_directories_are_pruned_witness :
  exists evs,
    log (fst (@process_specific_folders Sample.toy 4 "." ["layers"] "jpg" 95 false
                None None (Sample.initial Sample.zarr_tree)))
    = ([] ++ evs)%list
    /\ (forall p, In p (visits evs) \/ In p (calls evs) ->
          (exists comps,
             p = fold_left OsPath.join comps "."
             /\ Forall (fun c => mem_char "/" c = false) comps
             /\ forall k, (k < List.length comps)%nat ->
                  Py.endswith (fold_left OsPath.join (firstn k comps) ".")
                    ".zarr" = false)
          /\ (forall a b,
                p = a ++ "/" ++ b ->
                (String.length "." <= String.length a)%nat ->
                Py.endswith a ".zarr" = false)).
Proof.
  apply (@zarr_directories_are_pruned Sample.toy 4 "." ["layers"] "jpg" 95 false
           None None (Sample.initial Sample.zarr_tree)).
  reflexivity.
Defined.
